(** * Statistics extraction and scaling metrics of the gem5 sweep scripts

    A shallow embedding of the five plotting scripts

    - [CortexA7/plot_speedup_cortexA7.py]        (module [A7Speedup])
    - [CortexA7/plot_cycles_cortexA7.py]         (module [A7Cycles])
    - [CortexA7/plot_ipc_max_cortexA7.py]        (module [A7IpcMax])
    - [CortexA15/plot_performance_cortexA15.py]  (module [A15Performance])
    - [CortexA15/plot_ipc_cortexA15.py]          (module [A15Ipc])

    restricted to their extraction and metric code: the directory scan,
    the [stats.txt] parsers, [compute_metrics], the grouping by width
    and the label of the matrix size.  Plotting and the writing of the
    CSV and report files are left out; [main] takes these functions as
    parameters.

    Python values are modelled as follows.
    - [int] is [Z] (unbounded).
    - [float] is IEEE 754 binary64, as [spec_float] at precision 53 and
      maximal exponent 1024, with round-to-nearest-even operations.
    - [str] is [string]; the text is taken to be ASCII, so [\d], [\s],
      [\w] and [str.strip] are their ASCII restrictions.  A run of
      digits is taken to be shorter than the limit that [int] puts on
      the length of its argument.
    - exceptions are the [Raise] case of the [result] type.
    - a directory is the list of its entries in the arbitrary order of
      [iterdir]; [STATUS.txt] and [stats.txt] are regular files when
      they exist, a text file being its [st_size] and the lines that
      the iteration over the open file yields. *)

From Stdlib Require Import ZArith QArith Qabs List String Ascii Bool Lia.
From Stdlib Require Import Sorting.Sorted Sorting.Permutation.
From Stdlib Require Import Floats.SpecFloat.
Import ListNotations.

Local Open Scope string_scope.
Local Open Scope Z_scope.

(** ** Python primitives *)

Module Py.

(** *** Exceptions *)

Inductive exn : Type :=
| ValueError (msg : string)
| FileNotFoundError (msg : string)
| IndexError
| ZeroDivisionError
| OverflowError.

Inductive result (A : Type) : Type :=
| Return (a : A)
| Raise (e : exn).

Arguments Return {A} a.
Arguments Raise {A} e.

Definition bind {A B : Type} (c : result A) (k : A -> result B) : result B :=
  match c with
  | Return a => k a
  | Raise e => Raise e
  end.

(** *** Floats: binary64 *)

Definition float : Type := spec_float.

Definition fdiv : float -> float -> float := SFdiv 53 1024.
Definition fsub : float -> float -> float := SFsub 53 1024.
Definition fltb : float -> float -> bool := SFltb.

Definition Z2SF (n : Z) : float :=
  match n with
  | Z0 => S754_zero false
  | Zpos p => S754_finite false p 0
  | Zneg p => S754_finite true p 0
  end.

Definition is_zero (x : float) : bool :=
  match x with
  | S754_zero _ => true
  | _ => false
  end.

Definition is_infinity (x : float) : bool :=
  match x with
  | S754_infinity _ => true
  | _ => false
  end.

(** [float(n)] for an int [n]: the nearest double, [OverflowError] when
    [n] is too large. *)
Definition float_of_int (n : Z) : result float :=
  let x := binary_normalize 53 1024 n 0 false in
  if is_infinity x then Raise OverflowError else Return x.

(** [a / b] for two ints: the correctly rounded quotient. *)
Definition int_truediv (a b : Z) : result float :=
  if b =? 0 then Raise ZeroDivisionError
  else
    let q := fdiv (Z2SF a) (Z2SF b) in
    if is_infinity q then Raise OverflowError else Return q.

(** [x / y] for two floats. *)
Definition float_truediv (x y : float) : result float :=
  if is_zero y then Raise ZeroDivisionError else Return (fdiv x y).

(** [x / n] for a float and an int: the int is converted first. *)
Definition float_div_int (x : float) (n : Z) : result float :=
  bind (float_of_int n) (fun y => float_truediv x y).

(** [round(x)] without digits: the nearest int, ties to even. *)
Definition round_half_even (m e : Z) : Z :=
  if 0 <=? e then m * 2 ^ e
  else
    let d := 2 ^ (- e) in
    let q := m / d in
    let r := m mod d in
    match 2 * r ?= d with
    | Lt => q
    | Gt => q + 1
    | Eq => if Z.even q then q else q + 1
    end.

Definition round (x : float) : result Z :=
  match x with
  | S754_zero _ => Return 0
  | S754_finite s m e =>
      let n := round_half_even (Zpos m) e in
      Return (if s then - n else n)
  | S754_infinity _ => Raise OverflowError
  | S754_nan => Raise (ValueError "cannot convert float NaN to integer")
  end.

(** [max] of a non-empty list: the first maximal item. *)
Definition max_int (l : list Z) : Z :=
  match l with
  | [] => 0
  | x :: l' => fold_left (fun m y => if m <? y then y else m) l' x
  end.

Definition max_float (l : list float) : float :=
  match l with
  | [] => S754_nan
  | x :: l' => fold_left (fun m y => if fltb m y then y else m) l' x
  end.

(** *** Strings *)

Definition code (c : ascii) : Z := Z.of_N (N_of_ascii c).

Definition isdigit (c : ascii) : bool :=
  (48 <=? code c) && (code c <=? 57).

Definition isspace (c : ascii) : bool :=
  ((9 <=? code c) && (code c <=? 13))
  || ((28 <=? code c) && (code c <=? 32)).

Definition isalpha (c : ascii) : bool :=
  ((65 <=? code c) && (code c <=? 90))
  || ((97 <=? code c) && (code c <=? 122)).

(** The class [\w]. *)
Definition isword (c : ascii) : bool :=
  isalpha c || isdigit c || (code c =? 95).

Fixpoint lstrip (s : string) : string :=
  match s with
  | String c s' => if isspace c then lstrip s' else s
  | EmptyString => EmptyString
  end.

Fixpoint rstrip (s : string) : string :=
  match s with
  | String c s' =>
      match rstrip s' with
      | EmptyString => if isspace c then EmptyString else String c EmptyString
      | t => String c t
      end
  | EmptyString => EmptyString
  end.

Definition strip (s : string) : string := rstrip (lstrip s).

Definition startswith (s p : string) : bool := String.prefix p s.

(** [int(s)] for a string of decimal digits. *)
Definition digit_value (c : ascii) : Z := code c - 48.

Fixpoint int_acc (acc : Z) (s : string) : Z :=
  match s with
  | String c s' => int_acc (10 * acc + digit_value c) s'
  | EmptyString => acc
  end.

Definition int (s : string) : Z := int_acc 0 s.

(** [float(s)] for a string [digits] or [digits.digits]: the nearest
    double to the decimal number. *)
Fixpoint split_dot (s : string) : string * option string :=
  match s with
  | EmptyString => (EmptyString, None)
  | String c s' =>
      if (code c =? 46) then (EmptyString, Some s')
      else let '(a, b) := split_dot s' in (String c a, b)
  end.

Definition float_of_string (s : string) : float :=
  match split_dot s with
  | (ip, None) => binary_normalize 53 1024 (int ip) 0 false
  | (ip, Some fp) =>
      fdiv (Z2SF (int (ip ++ fp))) (Z2SF (10 ^ Z.of_nat (String.length fp)))
  end.

End Py.

Declare Scope py_scope.
Delimit Scope py_scope with py.
Notation "x <- c ;; k" := (Py.bind c (fun x => k))
  (at level 61, c at next level, right associativity) : py_scope.
Local Open Scope py_scope.

(** ** Regular expressions

    The fragment of Python's [re] that the scripts use, matched the way
    [re.match] does: anchored at the start of the string, by
    backtracking, the first successful path in priority order. *)

Module Re.
Import Py.

Inductive charclass : Type :=
| Digit   (* \d, [0-9] *)
| Space.  (* \s *)

Inductive regex : Type :=
| Lit (s : string)                 (* literal text *)
| Star (c : charclass)             (* c*  greedy *)
| Plus (c : charclass)             (* c+  greedy *)
| Group (name : string) (r : regex) (* (?P<name>r) and numbered groups *)
| Opt (r : regex)                  (* (?:r)?  greedy *)
| Alt (r1 r2 : regex)              (* (?:r1|r2) *)
| Seq (r1 r2 : regex)
| WordB                            (* \b *)
| Eos.                             (* $ *)

Definition in_class (c : charclass) (a : ascii) : bool :=
  match c with
  | Digit => isdigit a
  | Space => isspace a
  end.

(** The groups that took part in the match, innermost latest. *)
Definition groups : Type := list (string * string).

Fixpoint group (g : groups) (name : string) : option string :=
  match g with
  | [] => None
  | (n, v) :: g' => if String.eqb n name then Some v else group g' name
  end.

(** A continuation receives the character before the position, the rest
    of the string and the groups so far. *)
Definition cont : Type := option ascii -> string -> groups -> option groups.

Fixpoint lit (p : string) (prev : option ascii) (s : string)
  : option (option ascii * string) :=
  match p with
  | EmptyString => Some (prev, s)
  | String a p' =>
      match s with
      | String b s' => if Ascii.eqb a b then lit p' (Some b) s' else None
      | EmptyString => None
      end
  end.

(** Greedy repetition of a class: the longest run first, then shorter. *)
Fixpoint star (c : charclass) (prev : option ascii) (s : string)
  (k : option ascii -> string -> option groups) : option groups :=
  match s with
  | String a s' =>
      if in_class c a then
        match star c (Some a) s' k with
        | Some g => Some g
        | None => k prev s
        end
      else k prev s
  | EmptyString => k prev s
  end.

(** The text consumed between [s] and its suffix [rest]. *)
Definition consumed (s rest : string) : string :=
  String.substring 0 (String.length s - String.length rest) s.

Definition word_before (prev : option ascii) : bool :=
  match prev with
  | Some a => isword a
  | None => false
  end.

Definition word_after (s : string) : bool :=
  match s with
  | String a _ => isword a
  | EmptyString => false
  end.

(** [$]: the end of the string, or just before a final newline. *)
Definition at_end (s : string) : bool :=
  match s with
  | EmptyString => true
  | String a EmptyString => code a =? 10
  | _ => false
  end.

Fixpoint run (r : regex) (prev : option ascii) (s : string) (g : groups)
  (k : cont) {struct r} : option groups :=
  match r with
  | Lit p =>
      match lit p prev s with
      | Some (prev', s') => k prev' s' g
      | None => None
      end
  | Star c => star c prev s (fun prev' s' => k prev' s' g)
  | Plus c =>
      match s with
      | String a s' =>
          if in_class c a
          then star c (Some a) s' (fun prev' s' => k prev' s' g)
          else None
      | EmptyString => None
      end
  | Group name r1 =>
      run r1 prev s g
        (fun prev' s' g' => k prev' s' ((name, consumed s s') :: g'))
  | Opt r1 =>
      match run r1 prev s g k with
      | Some g' => Some g'
      | None => k prev s g
      end
  | Alt r1 r2 =>
      match run r1 prev s g k with
      | Some g' => Some g'
      | None => run r2 prev s g k
      end
  | Seq r1 r2 => run r1 prev s g (fun prev' s' g' => run r2 prev' s' g' k)
  | WordB =>
      if xorb (word_before prev) (word_after s) then k prev s g else None
  | Eos => if at_end s then k prev s g else None
  end.

(** [r.match(s)]: the groups of the match, [None] when there is none. *)
Definition re_match (r : regex) (s : string) : option groups :=
  run r None s [] (fun _ _ g => Some g).

(** The continuation that accepts at the end of the string only. *)
Definition to_end : cont :=
  fun _ rest g =>
    match rest with
    | EmptyString => Some g
    | String _ _ => None
    end.

(** [re.fullmatch(r, s)]: the match has to end where the string ends. *)
Definition re_fullmatch (r : regex) (s : string) : option groups :=
  run r None s [] to_end.

Fixpoint seq (rs : list regex) : regex :=
  match rs with
  | [] => Lit ""
  | [r] => r
  | r :: rs' => Seq r (seq rs')
  end.

End Re.

(** ** Lists, loops and the file system *)

Module Seqs.
Import Py.

Section StableSort.
Context {A : Type} (lt : A -> A -> bool).

(** [list.sort] is stable and compares with [<] only. *)
Fixpoint insert (x : A) (l : list A) : list A :=
  match l with
  | [] => [x]
  | y :: l' => if lt y x then y :: insert x l' else x :: l
  end.

Fixpoint sort (l : list A) : list A :=
  match l with
  | [] => []
  | x :: l' => insert x (sort l')
  end.
End StableSort.

(** [l.append(x)] *)
Definition append {A : Type} (l : list A) (x : A) : list A :=
  (l ++ [x])%list.

(** [for x in l: body], with the loop state threaded through. *)
Fixpoint for_each {S A : Type} (body : S -> A -> result S) (l : list A)
  (s : S) : result S :=
  match l with
  | [] => Return s
  | x :: l' => s' <- body s x ;; for_each body l' s'
  end.

End Seqs.

Module Fs.

(** A regular text file: what [stat] reports and what reading yields. *)
Record TextFile : Type := {
  st_size : Z;
  lines : list string
}.

(** An entry of the scanned directory. [path] is [str(entry)];
    [status_txt] and [stats_txt] are its files [STATUS.txt] (the text
    read) and [stats.txt], [None] when the file does not exist. *)
Record Entry : Type := {
  name : string;
  path : string;
  is_dir : bool;
  status_txt : option string;
  stats_txt : option TextFile
}.

(** The root of a sweep: [listing] is [None] when the path does not
    exist, else the entries in the order [iterdir] yields them. *)
Record Root : Type := {
  root_path : string;
  listing : option (list Entry)
}.

(** [sorted(root.iterdir(), key=lambda p: p.name)] *)
Definition sorted_entries (l : list Entry) : list Entry :=
  Seqs.sort (fun a b => String.ltb (name a) (name b)) l.

End Fs.

(** ** What a run of a script leaves *)

Module Io.
Import Py.

(** The lines printed on the two streams, and how [main] ended: with
    its return value, or with an exception that nothing caught. *)
Record Run : Type := {
  stdout : list string;
  stderr : list string;
  outcome : result Z
}.

Definition uncaught (e : exn) : Run :=
  {| stdout := []; stderr := []; outcome := Raise e |}.

(** [for warning in warnings: print(f"Avertissement: {warning}")] *)
Definition warning_lines (warnings : list string) : list string :=
  map (fun warning => "Avertissement: " ++ warning) warnings.

End Io.

Import Py Re Seqs Fs Io.

(** The integer in a group that always takes part in the match. *)
Definition group_int (g : groups) (n : string) : Z :=
  match group g n with
  | Some v => int v
  | None => 0
  end.

(** [label\s+(\d+)\b], the shape of every integer statistic line. *)
Definition stat_line (label : regex) : regex :=
  seq [label; Plus Space; Group "value" (Plus Digit); WordB].

(** The pattern [m(\d+)] under [re.IGNORECASE]; the group is number 1. *)
Definition matrix_name : regex :=
  Seq (Alt (Lit "m") (Lit "M")) (Group "1" (Plus Digit)).

(** ** CortexA7/plot_speedup_cortexA7.py *)

Module A7Speedup.

Definition DIR_RE : regex :=
  seq [Lit "t"; Group "threads" (Plus Digit);
       Opt (Seq (Lit "_cpus") (Group "cpus" (Plus Digit))); Lit "_"].

Definition NUM_CYCLES_RE : regex :=
  stat_line (seq [Lit "system.cpu"; Star Digit; Lit ".numCycles"]).

Record Point : Type := {
  threads : Z;
  cycles : Z;
  folder : string;
  speedup : float;
  efficiency : float;
  local_speedup : option float;
  local_efficiency : option float;
  marginal_efficiency : option float
}.

(** [Point(threads=.., cycles=.., folder=..)] with the class defaults. *)
Definition new_point (t c : Z) (f : string) : Point :=
  {| threads := t; cycles := c; folder := f;
     speedup := S754_zero false; efficiency := S754_zero false;
     local_speedup := None; local_efficiency := None;
     marginal_efficiency := None |}.

Definition scan_line (cycles : list Z) (line : string) : list Z :=
  match re_match NUM_CYCLES_RE (strip line) with
  | Some m => append cycles (group_int m "value")
  | None => cycles
  end.

Definition parse_cycles (stats_path : string) (f : TextFile) : result Z :=
  let cycles := fold_left scan_line (lines f) [] in
  match cycles with
  | [] => Raise (ValueError ("Aucune ligne numCycles trouvee dans " ++ stats_path))
  | _ => Return (max_int cycles)
  end.

(** [int(match.group("cpus") or match.group("threads"))]: a group that
    matched [\d+] is a non-empty string, hence true. *)
Definition dir_threads (m : groups) : Z :=
  match group m "cpus" with
  | Some c => int c
  | None => group_int m "threads"
  end.

Definition State : Type := (list Point * list string)%type.

(** The body of the loop over the sorted entries. *)
Definition visit (st : State) (entry : Entry) : result State :=
  let '(points, warnings) := st in
  if negb (is_dir entry) then Return st else
  match re_match DIR_RE (name entry) with
  | None => Return st
  | Some m =>
      let threads := dir_threads m in
      let stats_path := path entry ++ "/stats.txt" in
      match stats_txt entry with
      | None => Return (points, append warnings (name entry ++ ": stats.txt absent"))
      | Some f =>
          if st_size f =? 0
          then Return (points, append warnings (name entry ++ ": stats.txt vide"))
          else
            match parse_cycles stats_path f with
            | Return cycles =>
                Return (append points (new_point threads cycles (name entry)), warnings)
            | Raise (ValueError msg) => Return (points, append warnings msg)
            | Raise e => Raise e
            end
      end
  end.

Definition sort_points (points : list Point) : list Point :=
  sort (fun p q => threads p <? threads q) points.

Definition collect_points (input_root : Root) : result State :=
  match listing input_root with
  | None => Raise (FileNotFoundError ("Dossier introuvable: " ++ root_path input_root))
  | Some l =>
      st <- for_each visit (sorted_entries l) ([], []) ;;
      Return (sort_points (fst st), snd st)
  end.

(** [next((p for p in points if p.threads == 1), points[0])]: the
    default [points[0]] is evaluated first. *)
Definition baseline (points : list Point) : result Point :=
  match points with
  | [] => Raise IndexError
  | p0 :: _ =>
      match find (fun p => threads p =? 1) points with
      | Some p => Return p
      | None => Return p0
      end
  end.

(** The loop of [compute_metrics]; [prev] is [points[i - 1]] as the
    earlier iteration left it, [None] when [i == 0]. *)
Fixpoint metrics_loop (baseline_cycles : Z) (prev : option Point)
  (points : list Point) : result (list Point) :=
  match points with
  | [] => Return []
  | point :: rest =>
      s <- int_truediv baseline_cycles (cycles point) ;;
      e <- float_div_int s (threads point) ;;
      match prev with
      | None =>
          let point' :=
            {| threads := threads point; cycles := cycles point;
               folder := folder point; speedup := s; efficiency := e;
               local_speedup := local_speedup point;
               local_efficiency := local_efficiency point;
               marginal_efficiency := marginal_efficiency point |} in
          rest' <- metrics_loop baseline_cycles (Some point') rest ;;
          Return (point' :: rest')
      | Some prev =>
          let d_threads := threads point - threads prev in
          ls <- int_truediv (cycles prev) (cycles point) ;;
          ratio <- int_truediv (threads point) (threads prev) ;;
          le <- float_truediv ls ratio ;;
          me <- float_div_int (fsub s (speedup prev)) d_threads ;;
          let point' :=
            {| threads := threads point; cycles := cycles point;
               folder := folder point; speedup := s; efficiency := e;
               local_speedup := Some ls; local_efficiency := Some le;
               marginal_efficiency := Some me |} in
          rest' <- metrics_loop baseline_cycles (Some point') rest ;;
          Return (point' :: rest')
      end
  end.

Definition compute_metrics (points : list Point) : result (list Point) :=
  b <- baseline points ;;
  metrics_loop (cycles b) None points.


(** [re.fullmatch(r"m(\d+)", input_root.name, re.IGNORECASE)]; the
    argument [root_name] is [input_root.name], and an empty label counts
    as no label. *)
Definition infer_matrix_label (root_name : string) (matrix_label : option string)
  : string :=
  match matrix_label with
  | Some (String a label) => String a label
  | _ =>
      match re_fullmatch matrix_name root_name with
      | Some m =>
          match group m "1" with
          | Some digits => "m=" ++ digits
          | None => "m=None"
          end
      | None => root_name
      end
  end.

(** The arguments of the command line; [root_name] is
    [args.input_root.name], paths are written as [str] prints them. *)
Record Args : Type := {
  input_root : Root;
  root_name : string;
  matrix_label : option string;
  output_speedup_png : string;
  output_efficiency_png : string;
  output_report : string;
  output_csv : string
}.

Section Main.
Variable plot_speedup : list Point -> string -> string -> result unit.
Variable plot_efficiency : list Point -> string -> string -> result unit.
Variable write_csv : list Point -> string -> result unit.
Variable write_report : list Point -> string -> Root -> result unit.

Definition main (args : Args) : Run :=
  match collect_points (input_root args) with
  | Raise (FileNotFoundError msg) =>
      {| stdout := []; stderr := ["Erreur: " ++ msg]; outcome := Return 1 |}
  | Raise e => uncaught e
  | Return (points, warnings) =>
      match points with
      | [] =>
          {| stdout := [];
             stderr := "Erreur: aucune configuration exploitable trouvee."
                       :: warning_lines warnings;
             outcome := Return 1 |}
      | _ :: _ =>
          match
            (points <- compute_metrics points ;;
             let matrix_label :=
               infer_matrix_label (root_name args) (matrix_label args) in
             _ <- plot_speedup points (output_speedup_png args) matrix_label ;;
             _ <- plot_efficiency points (output_efficiency_png args) matrix_label ;;
             _ <- write_csv points (output_csv args) ;;
             write_report points (output_report args) (input_root args))
          with
          | Raise e => uncaught e
          | Return _ =>
              {| stdout :=
                   List.app (warning_lines warnings)
                    ["Graphe speedup: " ++ output_speedup_png args;
                     "Graphe efficacite: " ++ output_efficiency_png args;
                     "Rapport texte: " ++ output_report args;
                     "CSV resume: " ++ output_csv args];
                 stderr := [];
                 outcome := Return 0 |}
          end
      end
  end.
End Main.

End A7Speedup.

(** ** The scanning loop of the two [parse_cycles] with a fallback

    [plot_cycles_cortexA7.py] and [plot_performance_cortexA15.py] scan
    [stats.txt] with the same loop, up to the name of the list of
    cycle counts and the text of their [NUM_CYCLES_RE]; the loop is
    written once, over the four expressions. *)

Module TicksScan.

Section Loop.
Variables NUM_CYCLES_RE SIM_TICKS_RE CPU_CLOCK_RE SYS_CLOCK_RE : regex.

(** The variables of the scanning loop of [parse_cycles]. *)
Record Scan : Type := {
  cpu_cycles : list Z;
  sim_ticks : option Z;
  cpu_clock : option Z;
  sys_clock : option Z
}.

Definition scan0 : Scan :=
  {| cpu_cycles := []; sim_ticks := None; cpu_clock := None; sys_clock := None |}.

Definition is_None {A : Type} (o : option A) : bool :=
  match o with
  | None => true
  | Some _ => false
  end.

(** Each [try_*] is one guarded [if x is None: match ...] block; it
    returns the updated state when the block ends in [continue]. *)
Definition try_sim_ticks (st : Scan) (line : string) : option Scan :=
  if is_None (sim_ticks st) then
    match re_match SIM_TICKS_RE line with
    | Some m =>
        Some {| cpu_cycles := cpu_cycles st;
                sim_ticks := Some (group_int m "value");
                cpu_clock := cpu_clock st; sys_clock := sys_clock st |}
    | None => None
    end
  else None.

Definition try_cpu_clock (st : Scan) (line : string) : option Scan :=
  if is_None (cpu_clock st) then
    match re_match CPU_CLOCK_RE line with
    | Some m =>
        Some {| cpu_cycles := cpu_cycles st; sim_ticks := sim_ticks st;
                cpu_clock := Some (group_int m "value");
                sys_clock := sys_clock st |}
    | None => None
    end
  else None.

Definition try_sys_clock (st : Scan) (line : string) : Scan :=
  if is_None (sys_clock st) then
    match re_match SYS_CLOCK_RE line with
    | Some m =>
        {| cpu_cycles := cpu_cycles st; sim_ticks := sim_ticks st;
           cpu_clock := cpu_clock st;
           sys_clock := Some (group_int m "value") |}
    | None => st
    end
  else st.

Definition scan_line (st : Scan) (raw_line : string) : Scan :=
  let line := strip raw_line in
  if String.eqb line "" then st else
  match re_match NUM_CYCLES_RE line with
  | Some m =>
      {| cpu_cycles := append (cpu_cycles st) (group_int m "value");
         sim_ticks := sim_ticks st; cpu_clock := cpu_clock st;
         sys_clock := sys_clock st |}
  | None =>
      match try_sim_ticks st line with
      | Some st' => st'
      | None =>
          match try_cpu_clock st line with
          | Some st' => st'
          | None => try_sys_clock st line
          end
      end
  end.

Definition scan (f : TextFile) : Scan := fold_left scan_line (lines f) scan0.

End Loop.

(** [if period and period > 0] *)
Definition usable_period (period : option Z) : option Z :=
  match period with
  | Some p => if negb (p =? 0) && (0 <? p) then Some p else None
  | None => None
  end.

End TicksScan.

(** ** CortexA7/plot_cycles_cortexA7.py *)

Module A7Cycles.
Import TicksScan.

Definition DIR_RE : regex :=
  seq [Lit "t"; Group "threads" (Plus Digit);
       Opt (Seq (Lit "_cpus") (Group "cpus" (Plus Digit)));
       Alt (Lit "_") Eos].

Definition NUM_CYCLES_RE : regex :=
  stat_line (seq [Lit "system.cpu"; Star Digit; Lit ".numCycles"]).
Definition SIM_TICKS_RE : regex := stat_line (Lit "sim_ticks").
Definition CPU_CLOCK_RE : regex := stat_line (Lit "system.cpu_clk_domain.clock").
Definition SYS_CLOCK_RE : regex := stat_line (Lit "system.clk_domain.clock").

Definition scan (f : TextFile) : Scan :=
  TicksScan.scan NUM_CYCLES_RE SIM_TICKS_RE CPU_CLOCK_RE SYS_CLOCK_RE f.

Definition cannot_extract : exn :=
  ValueError "Impossible d'extraire les cycles depuis stats.txt".

Definition parse_cycles (f : TextFile) : result (Z * string) :=
  let st := scan f in
  match cpu_cycles st with
  | _ :: _ => Return (max_int (cpu_cycles st), "max(system.cpu*.numCycles)")
  | [] =>
      match sim_ticks st with
      | Some ticks =>
          let clock_period :=
            match cpu_clock st with
            | Some c => Some c
            | None => sys_clock st
            end in
          match usable_period clock_period with
          | Some p =>
              q <- int_truediv ticks p ;;
              cycles <- round q ;;
              Return (cycles, "sim_ticks / clock_period")
          | None => Raise cannot_extract
          end
      | None => Raise cannot_extract
      end
  end.

Definition Row : Type := (Z * Z * string)%type.
Definition State : Type := (list Row * list string)%type.

Definition dir_cpus (m : groups) : Z :=
  match group m "cpus" with
  | Some c => int c
  | None => group_int m "threads"
  end.

Definition visit (st : State) (entry : Entry) : result State :=
  let '(points, warnings) := st in
  if negb (is_dir entry) then Return st else
  match re_match DIR_RE (name entry) with
  | None => Return st
  | Some dir_match =>
      let cpus := dir_cpus dir_match in
      match stats_txt entry with
      | None => Return (points, append warnings (name entry ++ ": stats.txt absent"))
      | Some f =>
          if st_size f =? 0
          then Return (points, append warnings (name entry ++ ": stats.txt vide"))
          else
            match parse_cycles f with
            | Return (cycles, source) =>
                Return (append points (cpus, cycles, name entry), warnings)
            | Raise (ValueError msg) =>
                Return (points, append warnings (name entry ++ ": " ++ msg))
            | Raise e => Raise e
            end
      end
  end.

Definition sort_rows (points : list Row) : list Row :=
  sort (fun a b => fst (fst a) <? fst (fst b)) points.

Definition collect_data (input_root : Root) : result State :=
  match listing input_root with
  | None => Raise (FileNotFoundError ("Dossier introuvable: " ++ root_path input_root))
  | Some l =>
      st <- for_each visit (sorted_entries l) ([], []) ;;
      Return (sort_rows (fst st), snd st)
  end.

End A7Cycles.

(** ** CortexA7/plot_ipc_max_cortexA7.py *)

Module A7IpcMax.

Definition DIR_RE : regex :=
  seq [Lit "t"; Group "threads" (Plus Digit); Lit "_"].

Definition CYC_RE : regex :=
  stat_line (seq [Lit "system.cpu"; Group "cpu" (Star Digit); Lit ".numCycles"]).
Definition SIM_INS_RE : regex := stat_line (Lit "sim_insts").

(** A [dict] in insertion order. *)
Fixpoint dict_set (d : list (string * Z)) (k : string) (v : Z)
  : list (string * Z) :=
  match d with
  | [] => [(k, v)]
  | (k', v') :: d' =>
      if String.eqb k' k then (k', v) :: d' else (k', v') :: dict_set d' k v
  end.

Definition group_str (g : groups) (n : string) : string :=
  match group g n with
  | Some v => v
  | None => ""
  end.

Definition Scan : Type := (list (string * Z) * Z)%type.

Definition scan_line (st : Scan) (line : string) : Scan :=
  let '(cycles, sim_insts) := st in
  let text := strip line in
  match re_match CYC_RE text with
  | Some m => (dict_set cycles (group_str m "cpu") (group_int m "value"), sim_insts)
  | None =>
      match re_match SIM_INS_RE text with
      | Some m => (cycles, group_int m "value")
      | None => st
      end
  end.

Definition scan (f : TextFile) : Scan := fold_left scan_line (lines f) ([], 0).

Definition parse_config (stats_path : string) (f : TextFile)
  : result (float * Z * Z) :=
  let '(cycles, sim_insts) := scan f in
  match cycles with
  | [] => Raise (ValueError ("Aucune ligne numCycles dans " ++ stats_path))
  | _ =>
      if sim_insts <=? 0
      then Raise (ValueError ("Aucune valeur sim_insts valide dans " ++ stats_path))
      else
        let max_cycles := max_int (map snd cycles) in
        if max_cycles <=? 0
        then Raise (ValueError ("Aucun cycle valide dans " ++ stats_path))
        else
          ipc_global <- int_truediv sim_insts max_cycles ;;
          Return (ipc_global, sim_insts, max_cycles)
  end.

Definition Row : Type := (Z * float * Z * Z)%type.
Definition State : Type := (list Row * list string)%type.

Definition visit (st : State) (entry : Entry) : result State :=
  let '(data, warnings) := st in
  if negb (is_dir entry) then Return st else
  match re_match DIR_RE (name entry) with
  | None => Return st
  | Some m =>
      let threads := group_int m "threads" in
      match stats_txt entry with
      | None => Return (data, append warnings (name entry ++ ": stats.txt absent"))
      | Some f =>
          if st_size f =? 0
          then Return (data, append warnings (name entry ++ ": stats.txt vide"))
          else
            match parse_config (path entry ++ "/stats.txt") f with
            | Return (ipc_global, sim_insts, max_cycles) =>
                Return (append data (threads, ipc_global, sim_insts, max_cycles),
                        warnings)
            | Raise (ValueError msg) => Return (data, append warnings msg)
            | Raise e => Raise e
            end
      end
  end.

Definition sort_rows (data : list Row) : list Row :=
  sort (fun a b => fst (fst (fst a)) <? fst (fst (fst b))) data.

Definition collect (root : Root) : result State :=
  match listing root with
  | None => Return ([], [root_path root ++ ": dossier absent"])
  | Some l =>
      st <- for_each visit (sorted_entries l) ([], []) ;;
      Return (sort_rows (fst st), snd st)
  end.

Record Args : Type := {
  m16_root : Root;
  m128_root : Root;
  output_png : string;
  output_csv : string
}.

Section Main.
Variable plot : list Row -> list Row -> string -> result unit.
Variable write_csv : list Row -> list Row -> string -> result unit.

Definition main (args : Args) : Run :=
  match collect (m16_root args) with
  | Raise e => uncaught e
  | Return (m16, w16) =>
      match collect (m128_root args) with
      | Raise e => uncaught e
      | Return (m128, w128) =>
          let warnings := (w16 ++ w128)%list in
          match m16, m128 with
          | [], [] =>
              {| stdout := [];
                 stderr := "Erreur: aucune donnee exploitable."
                           :: warning_lines warnings;
                 outcome := Return 1 |}
          | _, _ =>
              match
                (_ <- plot m16 m128 (output_png args) ;;
                 write_csv m16 m128 (output_csv args))
              with
              | Raise e => uncaught e
              | Return _ =>
                  {| stdout :=
                       List.app (warning_lines warnings)
                        ["Graphe: " ++ output_png args;
                         "CSV: " ++ output_csv args];
                     stderr := [];
                     outcome := Return 0 |}
              end
          end
      end
  end.
End Main.

End A7IpcMax.

(** ** CortexA15/plot_performance_cortexA15.py *)

Module A15Performance.
Import TicksScan.

Definition DIR_PATTERNS : list regex :=
  [ seq [Lit "w"; Group "width" (Plus Digit); Lit "_t";
         Group "threads" (Plus Digit); Eos];
    seq [Lit "t"; Group "threads" (Plus Digit); Lit "_w";
         Group "width" (Plus Digit); Alt (Lit "_") Eos] ].

Definition NUM_CYCLES_RE : regex :=
  stat_line (seq [Lit "system.cpu"; Opt (Plus Digit); Lit ".numCycles"]).
Definition SIM_TICKS_RE : regex := stat_line (Lit "sim_ticks").
Definition CPU_CLOCK_RE : regex := stat_line (Lit "system.cpu_clk_domain.clock").
Definition SYS_CLOCK_RE : regex := stat_line (Lit "system.clk_domain.clock").

Record Point : Type := {
  width : Z;
  threads : Z;
  cycles : Z;
  folder : string;
  speedup : float;
  efficiency : float
}.

Definition new_point (w t c : Z) (f : string) : Point :=
  {| width := w; threads := t; cycles := c; folder := f;
     speedup := S754_zero false; efficiency := S754_zero false |}.

Fixpoint first_pattern (patterns : list regex) (name : string)
  : option (Z * Z) :=
  match patterns with
  | [] => None
  | pattern :: rest =>
      match re_match pattern name with
      | Some m => Some (group_int m "width", group_int m "threads")
      | None => first_pattern rest name
      end
  end.

Definition parse_dir_name (name : string) : option (Z * Z) :=
  first_pattern DIR_PATTERNS name.

Definition scan (f : TextFile) : Scan :=
  TicksScan.scan NUM_CYCLES_RE SIM_TICKS_RE CPU_CLOCK_RE SYS_CLOCK_RE f.

Definition cannot_extract (stats_path : string) : exn :=
  ValueError ("Impossible d'extraire les cycles depuis " ++ stats_path).

Definition parse_cycles (stats_path : string) (f : TextFile) : result Z :=
  let st := scan f in
  match cpu_cycles st with
  | _ :: _ => Return (max_int (cpu_cycles st))
  | [] =>
      match sim_ticks st with
      | Some ticks =>
          let period :=
            match cpu_clock st with
            | Some c => Some c
            | None => sys_clock st
            end in
          match usable_period period with
          | Some p => q <- int_truediv ticks p ;; round q
          | None => Raise (cannot_extract stats_path)
          end
      | None => Raise (cannot_extract stats_path)
      end
  end.

Definition State : Type := (list Point * list string)%type.

(** [max_threads is not None and threads > max_threads] *)
Definition over_max (max_threads : option Z) (threads : Z) : bool :=
  match max_threads with
  | Some m => m <? threads
  | None => false
  end.

(** The status check: [Some status] when [STATUS.txt] exists and its
    stripped text does not start with [OK]. *)
Definition bad_status (entry : Entry) : option string :=
  match status_txt entry with
  | Some text =>
      let status := strip text in
      if negb (startswith status "OK") then Some status else None
  | None => None
  end.

Definition visit (max_threads : option Z) (st : State) (entry : Entry)
  : result State :=
  let '(points, warnings) := st in
  if negb (is_dir entry) then Return st else
  match parse_dir_name (name entry) with
  | None => Return st
  | Some (width, threads) =>
      if over_max max_threads threads then Return st else
      match bad_status entry with
      | Some status =>
          Return (points,
                  append warnings (name entry ++ ": ignore (" ++ status ++ ")"))
      | None =>
          let stats_path := path entry ++ "/stats.txt" in
          match stats_txt entry with
          | None =>
              Return (points, append warnings (name entry ++ ": stats.txt absent"))
          | Some f =>
              if st_size f =? 0
              then Return (points, append warnings (name entry ++ ": stats.txt vide"))
              else
                match parse_cycles stats_path f with
                | Return cycles =>
                    Return (append points
                              (new_point width threads cycles (name entry)),
                            warnings)
                | Raise (ValueError msg) => Return (points, append warnings msg)
                | Raise e => Raise e
                end
          end
      end
  end.

(** The order of the tuples [(p.width, p.threads)]. *)
Definition key_ltb (p q : Point) : bool :=
  (width p <? width q) || ((width p =? width q) && (threads p <? threads q)).

Definition sort_points (points : list Point) : list Point :=
  sort key_ltb points.

Definition collect_points (input_root : Root) (max_threads : option Z)
  : result State :=
  match listing input_root with
  | None => Raise (FileNotFoundError ("Dossier introuvable: " ++ root_path input_root))
  | Some l =>
      st <- for_each (visit max_threads) (sorted_entries l) ([], []) ;;
      Return (sort_points (fst st), snd st)
  end.

(** [grouped.setdefault(point.width, []).append(point)] on a [dict] in
    insertion order. *)
Fixpoint group_add (grouped : list (Z * list Point)) (point : Point)
  : list (Z * list Point) :=
  match grouped with
  | [] => [(width point, [point])]
  | (w, values) :: rest =>
      if w =? width point then (w, append values point) :: rest
      else (w, values) :: group_add rest point
  end.

Definition group_points (points : list Point) : list (Z * list Point) :=
  fold_left group_add points [].

Definition baseline (values : list Point) : result Point :=
  match values with
  | [] => Raise IndexError
  | p0 :: _ =>
      match find (fun p => threads p =? 1) values with
      | Some p => Return p
      | None => Return p0
      end
  end.

Definition set_metrics (baseline_cycles : Z) (point : Point) : result Point :=
  s <- int_truediv baseline_cycles (cycles point) ;;
  e <- float_div_int s (threads point) ;;
  Return {| width := width point; threads := threads point;
            cycles := cycles point; folder := folder point;
            speedup := s; efficiency := e |}.

Fixpoint metrics_loop (baseline_cycles : Z) (values : list Point)
  : result (list Point) :=
  match values with
  | [] => Return []
  | point :: rest =>
      point' <- set_metrics baseline_cycles point ;;
      rest' <- metrics_loop baseline_cycles rest ;;
      Return (point' :: rest')
  end.

Definition series_metrics (values : list Point) : result (list Point) :=
  let values := sort (fun p q => threads p <? threads q) values in
  b <- baseline values ;;
  metrics_loop (cycles b) values.

Fixpoint groups_loop (grouped : list (Z * list Point))
  : result (list (Z * list Point)) :=
  match grouped with
  | [] => Return []
  | (w, values) :: rest =>
      values' <- series_metrics values ;;
      rest' <- groups_loop rest ;;
      Return ((w, values') :: rest')
  end.

Definition compute_metrics (points : list Point)
  : result (list (Z * list Point)) :=
  groups_loop (group_points points).


(** [re.fullmatch(r"m(\d+)", input_root.name, re.IGNORECASE)]; the
    argument [root_name] is [input_root.name], and an empty label counts
    as no label. *)
Definition infer_matrix_label (root_name : string) (explicit_label : option string)
  : string :=
  match explicit_label with
  | Some (String a label) => String a label
  | _ =>
      match re_fullmatch matrix_name root_name with
      | Some m =>
          match group m "1" with
          | Some digits => "m=" ++ digits
          | None => "m=None"
          end
      | None => root_name
      end
  end.

Record Args : Type := {
  input_root : Root;
  root_name : string;
  matrix_label : option string;
  max_threads : option Z;
  output_cycles_png : string;
  output_res_ejec_png : string;
  output_speedup_png : string;
  output_efficiency_png : string;
  output_csv : string
}.

Section Main.
Variable plot_cycles : list (Z * list Point) -> string -> string -> result unit.
Variable plot_res_ejec_cycles :
  list (Z * list Point) -> string -> string -> result unit.
Variable plot_speedup : list (Z * list Point) -> string -> string -> result unit.
Variable plot_efficiency :
  list (Z * list Point) -> string -> string -> result unit.
Variable write_csv : list (Z * list Point) -> string -> result unit.

Definition main (args : Args) : Run :=
  match collect_points (input_root args) (max_threads args) with
  | Raise (FileNotFoundError msg) =>
      {| stdout := []; stderr := ["Erreur: " ++ msg]; outcome := Return 1 |}
  | Raise e => uncaught e
  | Return (points, warnings) =>
      match points with
      | [] =>
          {| stdout := [];
             stderr := "Erreur: aucune configuration exploitable trouvee."
                       :: warning_lines warnings;
             outcome := Return 1 |}
      | _ :: _ =>
          match
            (grouped <- compute_metrics points ;;
             let matrix_label :=
               infer_matrix_label (root_name args) (matrix_label args) in
             _ <- plot_cycles grouped (output_cycles_png args) matrix_label ;;
             _ <- plot_res_ejec_cycles grouped (output_res_ejec_png args)
                    matrix_label ;;
             _ <- plot_speedup grouped (output_speedup_png args) matrix_label ;;
             _ <- plot_efficiency grouped (output_efficiency_png args)
                    matrix_label ;;
             write_csv grouped (output_csv args))
          with
          | Raise e => uncaught e
          | Return _ =>
              {| stdout :=
                   List.app (warning_lines warnings)
                    ["Graphe cycles: " ++ output_cycles_png args;
                     "Graphe res execution: " ++ output_res_ejec_png args;
                     "Graphe speedup: " ++ output_speedup_png args;
                     "Graphe efficacite: " ++ output_efficiency_png args;
                     "CSV resume: " ++ output_csv args];
                 stderr := [];
                 outcome := Return 0 |}
          end
      end
  end.
End Main.

End A15Performance.

(** ** CortexA15/plot_ipc_cortexA15.py *)

Module A15Ipc.

Definition DIR_RE : regex :=
  seq [Lit "w"; Group "width" (Plus Digit); Lit "_t";
       Group "threads" (Plus Digit); Eos].

Definition CYC_RE : regex :=
  stat_line (seq [Lit "system.cpu"; Star Digit; Lit ".numCycles"]).
Definition IPC_RE : regex :=
  seq [Lit "system.cpu"; Star Digit; Lit ".ipc"; Plus Space;
       Group "value" (Seq (Plus Digit) (Opt (Seq (Lit ".") (Plus Digit))));
       WordB].
Definition SIM_INS_RE : regex := stat_line (Lit "sim_insts").

Record Point : Type := {
  simulation : string;
  width : Z;
  threads : Z;
  ipc_max : float;
  ipc_global : float;
  sim_insts : Z;
  max_cycles : Z;
  folder : string
}.

Record Scan : Type := {
  cycles : list Z;
  ipc_vals : list float;
  insts : Z
}.

Definition scan0 : Scan := {| cycles := []; ipc_vals := []; insts := 0 |}.

Definition group_str (g : groups) (n : string) : string :=
  match group g n with
  | Some v => v
  | None => ""
  end.

Definition scan_line (st : Scan) (line : string) : Scan :=
  let text := strip line in
  match re_match CYC_RE text with
  | Some m =>
      {| cycles := append (cycles st) (group_int m "value");
         ipc_vals := ipc_vals st; insts := insts st |}
  | None =>
      match re_match IPC_RE text with
      | Some m =>
          {| cycles := cycles st;
             ipc_vals := append (ipc_vals st) (float_of_string (group_str m "value"));
             insts := insts st |}
      | None =>
          match re_match SIM_INS_RE text with
          | Some m =>
              {| cycles := cycles st; ipc_vals := ipc_vals st;
                 insts := group_int m "value" |}
          | None => st
          end
      end
  end.

Definition scan (f : TextFile) : Scan := fold_left scan_line (lines f) scan0.

Definition parse_stats (stats_path : string) (f : TextFile)
  : result (float * float * Z * Z) :=
  let st := scan f in
  match cycles st with
  | [] => Raise (ValueError ("Aucune ligne numCycles dans " ++ stats_path))
  | _ =>
      match ipc_vals st with
      | [] => Raise (ValueError ("Aucune ligne IPC dans " ++ stats_path))
      | _ =>
          if insts st <=? 0
          then Raise (ValueError ("Aucune valeur sim_insts valide dans " ++ stats_path))
          else
            let max_cycles := max_int (cycles st) in
            if max_cycles <=? 0
            then Raise (ValueError ("Aucun cycle valide dans " ++ stats_path))
            else
              let ipc_max := max_float (ipc_vals st) in
              ipc_global <- int_truediv (insts st) max_cycles ;;
              Return (ipc_max, ipc_global, insts st, max_cycles)
      end
  end.

Definition State : Type := (list Point * list string)%type.

Definition visit (simulation : string) (max_threads : option Z)
  (st : State) (entry : Entry) : result State :=
  let '(points, warnings) := st in
  if negb (is_dir entry) then Return st else
  match re_match DIR_RE (name entry) with
  | None => Return st
  | Some m =>
      let width := group_int m "width" in
      let threads := group_int m "threads" in
      if A15Performance.over_max max_threads threads then Return st else
      match A15Performance.bad_status entry with
      | Some status =>
          Return (points,
                  append warnings
                    (simulation ++ "/" ++ name entry ++ ": ignore (" ++ status ++ ")"))
      | None =>
          let stats_path := path entry ++ "/stats.txt" in
          match stats_txt entry with
          | None =>
              Return (points,
                      append warnings
                        (simulation ++ "/" ++ name entry ++ ": stats.txt absent"))
          | Some f =>
              if st_size f =? 0
              then Return (points,
                           append warnings
                             (simulation ++ "/" ++ name entry ++ ": stats.txt vide"))
              else
                match parse_stats stats_path f with
                | Return (ipc_max, ipc_global, sim_insts, max_cycles) =>
                    Return (append points
                              {| simulation := simulation; width := width;
                                 threads := threads; ipc_max := ipc_max;
                                 ipc_global := ipc_global; sim_insts := sim_insts;
                                 max_cycles := max_cycles; folder := name entry |},
                            warnings)
                | Raise (ValueError msg) =>
                    Return (points,
                            append warnings
                              (simulation ++ "/" ++ name entry ++ ": " ++ msg))
                | Raise e => Raise e
                end
          end
      end
  end.

Definition key_ltb (p q : Point) : bool :=
  (width p <? width q) || ((width p =? width q) && (threads p <? threads q)).

Definition sort_points (points : list Point) : list Point :=
  sort key_ltb points.

Definition collect (root : Root) (simulation : string) (max_threads : option Z)
  : result State :=
  match listing root with
  | None => Return ([], [root_path root ++ ": dossier absent"])
  | Some l =>
      st <- for_each (visit simulation max_threads) (sorted_entries l) ([], []) ;;
      Return (sort_points (fst st), snd st)
  end.

(** [grouped.setdefault(point.width, []).append(point)] on a [dict] in
    insertion order. *)
Fixpoint group_add (grouped : list (Z * list Point)) (point : Point)
  : list (Z * list Point) :=
  match grouped with
  | [] => [(width point, [point])]
  | (w, values) :: rest =>
      if w =? width point then (w, append values point) :: rest
      else (w, values) :: group_add rest point
  end.

(** The second loop sorts the list of every width by thread count. *)
Definition group_by_width (points : list Point) : list (Z * list Point) :=
  map (fun g => (fst g, sort (fun p q => threads p <? threads q) (snd g)))
    (fold_left group_add points []).

(** [--max-threads] has the type [int] and the default 16: it is never
    [None]. *)
Record Args : Type := {
  m16_root : Root;
  m128_root : Root;
  max_threads : Z;
  output_ipc_max_png : string;
  output_ipc_global_png : string;
  output_csv : string
}.

Section Main.
Variable plot_metric :
  list (Z * list Point) -> list (Z * list Point) -> string -> string -> string ->
  string -> result unit.
Variable write_csv : list Point -> list Point -> string -> result unit.

Definition main (args : Args) : Run :=
  match collect (m16_root args) "m16" (Some (max_threads args)) with
  | Raise e => uncaught e
  | Return (points_m16, warnings_m16) =>
      match collect (m128_root args) "m128" (Some (max_threads args)) with
      | Raise e => uncaught e
      | Return (points_m128, warnings_m128) =>
          let warnings := (warnings_m16 ++ warnings_m128)%list in
          match points_m16, points_m128 with
          | [], [] =>
              {| stdout := [];
                 stderr := "Erreur: aucune donnee exploitable."
                           :: warning_lines warnings;
                 outcome := Return 1 |}
          | _, _ =>
              let grouped_m16 := group_by_width points_m16 in
              let grouped_m128 := group_by_width points_m128 in
              match
                (_ <- plot_metric grouped_m16 grouped_m128 "ipc_max"
                        "IPC maximal par configuration (Cortex-A15, m=16 et m=128)"
                        "IPC maximal (max system.cpu*.ipc)"
                        (output_ipc_max_png args) ;;
                 _ <- plot_metric grouped_m16 grouped_m128 "ipc_global"
                        "IPC global par configuration (Cortex-A15, m=16 et m=128)"
                        "IPC global = sim_insts / max(numCycles)"
                        (output_ipc_global_png args) ;;
                 write_csv points_m16 points_m128 (output_csv args))
              with
              | Raise e => uncaught e
              | Return _ =>
                  {| stdout :=
                       List.app (warning_lines warnings)
                        ["Graphe IPC maximal: " ++ output_ipc_max_png args;
                         "Graphe IPC global: " ++ output_ipc_global_png args;
                         "CSV resume: " ++ output_csv args];
                     stderr := [];
                     outcome := Return 0 |}
              end
          end
      end
  end.
End Main.

End A15Ipc.

(** ** Specification predicates *)

Module Spec.

Section Baseline.
Context {P : Type} (threads : P -> Z).

(** [b] is the first point of the series that ran on one thread. *)
Definition first_single_thread (pts : list P) (b : P) : Prop :=
  exists pre post,
    pts = (pre ++ b :: post)%list /\ threads b = 1 /\
    Forall (fun p => threads p <> 1) pre.

(** The baseline of a series: the point with one thread when there is
    one, else the first point. *)
Definition is_baseline (pts : list P) (b : P) : Prop :=
  first_single_thread pts b \/
  (Forall (fun p => threads p <> 1) pts /\ hd_error pts = Some b).
End Baseline.

(** The exceptions of Python's [ArithmeticError] family. *)
Definition arithmetic (e : exn) : Prop :=
  e = ZeroDivisionError \/ e = OverflowError.

(** The exact value of a finite float, and closeness to a rational. *)
Definition Q_of_float (x : float) : Q :=
  match x with
  | S754_finite s m e =>
      ((if s then (-1) else 1) * inject_Z (Zpos m) * Qpower (2 # 1) e)%Q
  | _ => 0%Q
  end.

Definition is_finite (x : float) : bool :=
  match x with
  | S754_zero _ | S754_finite _ _ _ => true
  | _ => false
  end.

Definition within (tol : Q) (x : float) (q : Q) : bool :=
  is_finite x && Qle_bool (Qabs (Q_of_float x - q)) tol.

Definition all_within (tol : Q) (xs : list float) (qs : list Q) : bool :=
  (List.length xs =? List.length qs)%nat
  && forallb (fun xq => within tol (fst xq) (snd xq)) (combine xs qs).

End Spec.

(** ** Metrics of the Cortex-A7 speedup script *)

Module A7Metrics.
Import A7Speedup Spec.

(** The output point is the input point, up to its metric fields. *)
Definition same_run (p o : Point) : Prop :=
  threads o = threads p /\ cycles o = cycles p /\ folder o = folder p.

(** [speedup = baseline_cycles / cycles], [efficiency = speedup / threads] *)
Definition has_metrics (baseline_cycles : Z) (o : Point) : Prop :=
  int_truediv baseline_cycles (cycles o) = Return (speedup o) /\
  float_div_int (speedup o) (threads o) = Return (efficiency o).

(** The three metrics of [p] relative to the point [prev] before it. *)
Definition has_local (prev p : Point) : Prop :=
  exists ls le me,
    local_speedup p = Some ls /\
    local_efficiency p = Some le /\
    marginal_efficiency p = Some me /\
    int_truediv (cycles prev) (cycles p) = Return ls /\
    (ratio <- int_truediv (threads p) (threads prev) ;; float_truediv ls ratio)
      = Return le /\
    float_div_int (fsub (speedup p) (speedup prev)) (threads p - threads prev)
      = Return me.

(** The three adjacency metrics of [o] are those of [p]. *)
Definition local_untouched (p o : Point) : Prop :=
  local_speedup o = local_speedup p /\
  local_efficiency o = local_efficiency p /\
  marginal_efficiency o = marginal_efficiency p.

Definition local_absent (o : Point) : Prop :=
  local_speedup o = None /\ local_efficiency o = None /\
  marginal_efficiency o = None.

Fixpoint chain (prev : Point) (out : list Point) : Prop :=
  match out with
  | [] => True
  | p :: rest => has_local prev p /\ chain p rest
  end.

Definition by_threads (p q : Point) : Prop := threads p <= threads q.

(** Two points of the series have the same thread count. *)
Definition duplicate_threads (pts : list Point) : Prop :=
  exists l1 a l2 b l3,
    pts = (l1 ++ a :: l2 ++ b :: l3)%list /\ threads a = threads b.

(** The series of the worked example. *)
Definition example_series : list Point :=
  [new_point 1 1000 "t1_run"; new_point 2 600 "t2_run";
   new_point 4 400 "t4_run"].

End A7Metrics.

(** ** Metrics of the Cortex-A15 performance script *)

Module A15Metrics.
Import A15Performance Spec.

Definition same_run (p o : Point) : Prop :=
  width o = width p /\ threads o = threads p /\ cycles o = cycles p /\
  folder o = folder p.

Definition has_metrics (baseline_cycles : Z) (o : Point) : Prop :=
  int_truediv baseline_cycles (cycles o) = Return (speedup o) /\
  float_div_int (speedup o) (threads o) = Return (efficiency o).

(** The series of a width: its points in ascending thread order. *)
Definition series (values : list Point) : list Point :=
  sort (fun p q => threads p <? threads q) values.

(** [out] is the group [g] with the metrics of its series filled in. *)
Definition series_done (g out : Z * list Point) : Prop :=
  fst out = fst g /\
  exists b,
    is_baseline threads (series (snd g)) b /\
    Forall2 same_run (series (snd g)) (snd out) /\
    Forall (has_metrics (cycles b)) (snd out).

Definition example_series : list Point :=
  [new_point 4 1 1000 "w4_t1"; new_point 4 2 600 "w4_t2";
   new_point 4 4 400 "w4_t4"].

End A15Metrics.

(** ** What a scan of [stats.txt] is expected to find *)

Module ScanSpec.

(** The value on the first line that [re] matches, once stripped. *)
Fixpoint first_value (re : regex) (ls : list string) : option Z :=
  match ls with
  | [] => None
  | l :: ls' =>
      match re_match re (strip l) with
      | Some m => Some (group_int m "value")
      | None => first_value re ls'
      end
  end.

(** The value on the last line that [re] matches, once stripped. *)
Fixpoint last_value (re : regex) (ls : list string) : option Z :=
  match ls with
  | [] => None
  | l :: ls' =>
      match last_value re ls' with
      | Some v => Some v
      | None =>
          match re_match re (strip l) with
          | Some m => Some (group_int m "value")
          | None => None
          end
      end
  end.

(** No line of the file is matched by [re]. *)
Definition no_line (re : regex) (ls : list string) : Prop :=
  Forall (fun l => re_match re (strip l) = None) ls.

Definition or_else {A : Type} (o d : option A) : option A :=
  match o with
  | Some x => Some x
  | None => d
  end.

(** The clock period of the fallback: the core-local clock when the
    file has one, else the system-wide clock. *)
Definition clock_period (cpu_clock_re sys_clock_re : regex) (ls : list string)
  : option Z :=
  or_else (first_value cpu_clock_re ls) (first_value sys_clock_re ls).

(** A log with simulated ticks and a system clock only. *)
Definition ticks_log : TextFile :=
  {| st_size := 58;
     lines := ["sim_ticks 500000  # ticks"; "system.clk_domain.clock 1000"] |}.

(** All the matches of [re] over the stripped lines, in file order. *)
Fixpoint all_matches (re : regex) (ls : list string) : list groups :=
  match ls with
  | [] => []
  | l :: ls' =>
      match re_match re (strip l) with
      | Some m => m :: all_matches re ls'
      | None => all_matches re ls'
      end
  end.

Definition all_values (re : regex) (ls : list string) : list Z :=
  map (fun m => group_int m "value") (all_matches re ls).

(** The instruction count a scan ends with: the value of the last
    matching line, [0] (the initial value) without one. *)
Definition last_or_zero (re : regex) (ls : list string) : Z :=
  match last_value re ls with
  | Some v => v
  | None => 0
  end.

(** The leading literal of an expression. *)
Fixpoint head_lit (r : regex) : option string :=
  match r with
  | Lit p => Some p
  | Seq r1 _ => head_lit r1
  | _ => None
  end.

Fixpoint all_digits (s : string) : bool :=
  match s with
  | EmptyString => true
  | String a s' => isdigit a && all_digits s'
  end.

(** A log with cycle counts and an instruction count, without IPC
    readings. *)
Definition no_ipc_log : TextFile :=
  {| st_size := 49;
     lines := ["system.cpu.numCycles 600"; "sim_insts 1200"] |}.

(** A log whose only cycle count is zero. *)
Definition zero_cycles_log : TextFile :=
  {| st_size := 23; lines := ["system.cpu.numCycles 0"] |}.

(** A log that gives the instruction count twice. *)
Definition two_insts_log : TextFile :=
  {| st_size := 80;
     lines := ["sim_insts 100"; "system.cpu.numCycles 600";
               "system.cpu.ipc 0.5"; "sim_insts 200"] |}.

End ScanSpec.

(** ** What the parsers of the Cortex-A15 scripts need from a log *)

Module A15ParseSpec.
Import ScanSpec.

(** The fallback cannot be taken: no ticks, or no clock period > 0. *)
Definition no_fallback (ls : list string) : Prop :=
  first_value A15Performance.SIM_TICKS_RE ls = None \/
  forall p,
    clock_period A15Performance.CPU_CLOCK_RE A15Performance.SYS_CLOCK_RE ls
      = Some p -> p <= 0.

(** The IPC reading of a matched line. *)
Definition ipc_of (m : groups) : float :=
  float_of_string (A15Ipc.group_str m "value").

(** [parse_stats] has nothing to return: a signal is missing, or the
    last instruction count or the largest cycle count is not positive. *)
Definition unusable (ls : list string) : Prop :=
  no_line A15Ipc.CYC_RE ls \/ no_line A15Ipc.IPC_RE ls \/
  last_or_zero A15Ipc.SIM_INS_RE ls <= 0 \/
  max_int (all_values A15Ipc.CYC_RE ls) <= 0.

End A15ParseSpec.

(** ** Directory names of the Cortex-A7 sweeps *)

Module DirSpec.
Import ScanSpec.

(** A non-empty run of decimal digits. *)
Definition number (s : string) : Prop :=
  all_digits s = true /\ s <> "".

Definition digit_ahead (s : string) : bool :=
  match s with
  | String a _ => isdigit a
  | EmptyString => false
  end.

(** [t<threads>_cpus<n>_...] *)
Definition cpus_name (t n rest : string) : string :=
  "t" ++ t ++ "_cpus" ++ n ++ "_" ++ rest.

(** [t<threads>_...] *)
Definition plain_name (t rest : string) : string :=
  "t" ++ t ++ "_" ++ rest.

(** The character before the position once [p] has been read. *)
Fixpoint last_read (p : string) (prev : option ascii) : option ascii :=
  match p with
  | EmptyString => prev
  | String a p' => last_read p' (Some a)
  end.

End DirSpec.

(** ** Orders of the scan *)

Module OrderSpec.

(** Lexicographic order of names, by character code. *)
Definition name_le (a b : string) : Prop := String.leb a b = true.

(** [l1] is [l2] with some items left out. *)
Inductive subseq {A : Type} : list A -> list A -> Prop :=
| subseq_nil : subseq [] []
| subseq_skip (x : A) (l1 l2 : list A) : subseq l1 l2 -> subseq l1 (x :: l2)
| subseq_keep (x : A) (l1 l2 : list A) : subseq l1 l2 -> subseq (x :: l1) (x :: l2).

(** [x] may stand before [y] in a list sorted with [lt]. *)
Definition before {A : Type} (lt : A -> A -> bool) (x y : A) : Prop :=
  lt y x = false.

End OrderSpec.

(** ** The sweep over the directories *)

Module SweepSpec.

(** The points and warnings that the loop over [entries] collects. *)
Definition sweep {P : Type}
  (visit : list P * list string -> Entry -> result (list P * list string))
  (entries : list Entry) : result (list P * list string) :=
  for_each visit entries ([], []).

(** The outcome of a sweep that went through [pre], met a directory
    that only gave the warning [w], and went on through [post]. *)
Definition around {P : Type}
  (visit : list P * list string -> Entry -> result (list P * list string))
  (pre : list Entry) (w : string) (post : list Entry)
  : result (list P * list string) :=
  d1 <- sweep visit pre ;;
  d2 <- sweep visit post ;;
  Return ((fst d1 ++ fst d2)%list, (snd d1 ++ w :: snd d2)%list).

End SweepSpec.

(** ** Orders of the collected points *)

Module PointOrder.

(** Two points in the order of their directory names. *)
Definition a7_by_folder (p q : A7Speedup.Point) : Prop :=
  OrderSpec.name_le (A7Speedup.folder p) (A7Speedup.folder q).

Definition a15_by_folder (p q : A15Performance.Point) : Prop :=
  OrderSpec.name_le (A15Performance.folder p) (A15Performance.folder q).

(** Ascending [(width, threads)]. *)
Definition a15_by_key (p q : A15Performance.Point) : Prop :=
  A15Performance.width p < A15Performance.width q \/
  (A15Performance.width p = A15Performance.width q /\
   A15Performance.threads p <= A15Performance.threads q).

Definition a7_same_threads (k : Z) (p : A7Speedup.Point) : bool :=
  A7Speedup.threads p =? k.

Definition a15_same_key (w t : Z) (p : A15Performance.Point) : bool :=
  (A15Performance.width p =? w) && (A15Performance.threads p =? t).

(** A finished run whose log gives one cycle count. *)
Definition run_dir (n cycles : string) : Entry :=
  {| name := n; path := "m16/" ++ n; is_dir := true; status_txt := None;
     stats_txt := Some {| st_size := 30;
                          lines := ["system.cpu.numCycles " ++ cycles] |} |}.

(** A Cortex-A7 sweep with the runs on 10 and on 2 threads. *)
Definition a7_root : Root :=
  {| root_path := "m16";
     listing := Some [run_dir "t2_run" "600"; run_dir "t10_run" "200"] |}.

(** A Cortex-A15 sweep with the widths 10 and 2. *)
Definition a15_root : Root :=
  {| root_path := "m16";
     listing := Some [run_dir "w2_t1" "600"; run_dir "w10_t1" "200"] |}.

End PointOrder.

(** ** Directories of a Cortex-A15 sweep *)

Module StatusSpec.

(** The directory is a configuration of the sweep: its name follows the
    grammar and its thread count is within the bound, if there is one. *)
Definition in_sweep (max_threads : option Z) (e : Entry) : Prop :=
  is_dir e = true /\
  exists w t,
    A15Performance.parse_dir_name (name e) = Some (w, t) /\
    A15Performance.over_max max_threads t = false.

Definition in_ipc_sweep (max_threads : option Z) (e : Entry) : Prop :=
  is_dir e = true /\
  exists m,
    re_match A15Ipc.DIR_RE (name e) = Some m /\
    A15Performance.over_max max_threads (group_int m "threads") = false.

(** The directory of a Cortex-A7 sweep. *)
Definition in_a7_sweep (e : Entry) : Prop :=
  is_dir e = true /\ exists m, re_match A7Speedup.DIR_RE (name e) = Some m.

(** The same directory without its [STATUS.txt]. *)
Definition without_status (e : Entry) : Entry :=
  {| name := name e; path := path e; is_dir := is_dir e;
     status_txt := None; stats_txt := stats_txt e |}.

Definition ignore_warning (e : Entry) (status : string) : string :=
  name e ++ ": ignore (" ++ status ++ ")".

Definition empty_warning (e : Entry) : string := name e ++ ": stats.txt vide".

(** A run whose marker has a blank before [OK]. *)
Definition blank_ok_dir : Entry :=
  {| name := "w1_t2"; path := "m16/w1_t2"; is_dir := true;
     status_txt := Some " OK";
     stats_txt := Some {| st_size := 25; lines := ["system.cpu.numCycles 600"] |} |}.

Definition blank_ok_root : Root :=
  {| root_path := "m16"; listing := Some [blank_ok_dir] |}.

(** A failed run, and a run with a zero-byte log. *)
Definition failed_dir : Entry :=
  {| name := "w1_t4"; path := "m16/w1_t4"; is_dir := true;
     status_txt := Some ("FAILED: oom" ++ String (ascii_of_nat 10) "");
     stats_txt := None |}.

Definition empty_log_dir (n : string) : Entry :=
  {| name := n; path := "m16/" ++ n; is_dir := true; status_txt := None;
     stats_txt := Some {| st_size := 0; lines := [] |} |}.

(** A sweep whose run on two threads left an empty log. *)
Definition empty_log_listing : list Entry :=
  [PointOrder.run_dir "t4_run" "400"; empty_log_dir "t2_run";
   PointOrder.run_dir "t1_run" "1000"].

Definition empty_log_root : Root :=
  {| root_path := "m16"; listing := Some empty_log_listing |}.

(** A run on a directory named after threads and cpus. *)
Definition cpus_dir : Entry := PointOrder.run_dir "t4_cpus8_run" "500".

End StatusSpec.

(** ** Numbers among the floats *)

Module FloatSpec.

(** The float [1.0]. *)
Definition one : float := S754_finite false 4503599627370496 (-52).

Definition is_nan (x : float) : bool :=
  match x with
  | S754_nan => true
  | _ => false
  end.

(** [x] is a number: neither NaN nor an infinity. *)
Definition number (x : float) : Prop := Spec.is_finite x = true.

Definition not_nan (x : float) : Prop := is_nan x = false.

(** The value of an optional metric, when there is one, satisfies [Q]. *)
Definition when_set (Q : float -> Prop) (o : option float) : Prop :=
  forall x, o = Some x -> Q x.

End FloatSpec.

(** ** Lines of statistics *)

Module LineSpec.

(** Every character of [s] is in the class [c]. *)
Fixpoint all_in (c : charclass) (s : string) : bool :=
  match s with
  | EmptyString => true
  | String a s' => in_class c a && all_in c s'
  end.

(** The next character is in the class [c]. *)
Definition class_ahead (c : charclass) (s : string) : bool :=
  match s with
  | String a _ => in_class c a
  | EmptyString => false
  end.

(** A non-empty run of white space. *)
Definition blank (s : string) : Prop := all_in Space s = true /\ s <> "".

(** A non-empty run of digits that ends where [rest] starts. *)
Definition value_before (ds rest : string) : Prop :=
  all_in Digit ds = true /\ ds <> "" /\ class_ahead Digit rest = false.

(** [system.cpu<idx>.numCycles<blanks><value><rest>] *)
Definition cycles_line (idx ws ds rest : string) : string :=
  "system.cpu" ++ idx ++ ".numCycles" ++ ws ++ ds ++ rest.

(** [<label><blanks><value><rest>] *)
Definition label_line (label ws ds rest : string) : string :=
  label ++ ws ++ ds ++ rest.

(** What a statistic expression gives on a line with the value [ds]
    followed by [rest]. *)
Definition value_match (ds rest : string) : option groups :=
  if word_after rest then None else Some [("value", ds)].

End LineSpec.

(** ** The per-core cycle counts of the Cortex-A7 IPC script *)

Module DictSpec.

(** [d.get(k)] on a [dict] in insertion order. *)
Fixpoint dict_get (d : list (string * Z)) (k : string) : option Z :=
  match d with
  | [] => None
  | (k', v) :: d' => if String.eqb k' k then Some v else dict_get d' k
  end.

(** The count on the last cycle-count line of the core [cpu]. *)
Fixpoint last_cpu_value (cpu : string) (ls : list string) : option Z :=
  match ls with
  | [] => None
  | l :: ls' =>
      match last_cpu_value cpu ls' with
      | Some v => Some v
      | None =>
          match re_match A7IpcMax.CYC_RE (strip l) with
          | Some m =>
              if String.eqb (A7IpcMax.group_str m "cpu") cpu
              then Some (group_int m "value")
              else None
          | None => None
          end
      end
  end.

(** A log in which core 0 reports twice. *)
Definition two_reports_log : TextFile :=
  {| st_size := 90;
     lines := ["system.cpu0.numCycles 900"; "system.cpu1.numCycles 500";
               "system.cpu0.numCycles 100"; "sim_insts 1000"] |}.

End DictSpec.

(** ** What a sweep collects *)

Module CollectSpec.

(** The directory [e] of a Cortex-A7 sweep gives the point [p]: its
    name follows the grammar and its log, not empty, gives a cycle
    count. *)
Definition a7_yields (e : Entry) (p : A7Speedup.Point) : Prop :=
  is_dir e = true /\
  exists m f c,
    re_match A7Speedup.DIR_RE (name e) = Some m /\
    stats_txt e = Some f /\ st_size f <> 0 /\
    A7Speedup.parse_cycles (path e ++ "/stats.txt") f = Return c /\
    p = A7Speedup.new_point (A7Speedup.dir_threads m) c (name e).

(** The directory [e] of a Cortex-A15 sweep gives the point [p]: its
    name follows the grammar, its thread count is within the bound, its
    status marker does not exclude it and its log, not empty, gives a
    cycle count. *)
Definition a15_yields (max_threads : option Z) (e : Entry)
  (p : A15Performance.Point) : Prop :=
  is_dir e = true /\
  exists w t f c,
    A15Performance.parse_dir_name (name e) = Some (w, t) /\
    A15Performance.over_max max_threads t = false /\
    A15Performance.bad_status e = None /\
    stats_txt e = Some f /\ st_size f <> 0 /\
    A15Performance.parse_cycles (path e ++ "/stats.txt") f = Return c /\
    p = A15Performance.new_point w t c (name e).

Definition is_some {A : Type} (o : option A) : bool :=
  match o with
  | Some _ => true
  | None => false
  end.

(** The entries that a Cortex-A7 sweep accounts for. *)
Definition a7_counted (e : Entry) : bool :=
  is_dir e && is_some (re_match A7Speedup.DIR_RE (name e)).

(** The entries that a Cortex-A15 sweep accounts for. *)
Definition a15_counted (max_threads : option Z) (e : Entry) : bool :=
  is_dir e &&
  match A15Performance.parse_dir_name (name e) with
  | Some (_, t) => negb (A15Performance.over_max max_threads t)
  | None => false
  end.

End CollectSpec.

(** ** Points grouped by width *)

Module GroupSpec.

(** What the dictionary [g] holds after the points [l] went in: one
    entry for every width met, with the points of that width in the
    order of [l]. *)
Definition grouped_by {P : Type} (width : P -> Z) (g : list (Z * list P))
  (l : list P) : Prop :=
  NoDup (map fst g) /\
  (forall p, In p l -> In (width p) (map fst g)) /\
  (forall w vs, In (w, vs) g ->
     vs <> [] /\ vs = filter (fun p => width p =? w) l).

End GroupSpec.

(** ** Directory names of a Cortex-A15 sweep *)

Module A15DirSpec.

(** [w<width>_t<threads>] followed by [rest] *)
Definition width_first (w t rest : string) : string :=
  "w" ++ w ++ "_t" ++ t ++ rest.

(** [t<threads>_w<width>] followed by [rest] *)
Definition threads_first (t w rest : string) : string :=
  "t" ++ t ++ "_w" ++ w ++ rest.

End A15DirSpec.

(** ** The label of the matrix size *)

Module LabelSpec.

(** No label was given, or an empty one. *)
Definition no_label (label : option string) : Prop :=
  label = None \/ label = Some "".

(** The directory is named [m<digits>] or [M<digits>]. *)
Definition matrix_root (root_name digits : string) : Prop :=
  DirSpec.number digits /\
  (root_name = "m" ++ digits \/ root_name = "M" ++ digits).

End LabelSpec.

(** ** The order of the rows of the other scripts *)

Module RowOrder.

(** Rows [(cpus, cycles, name)] of the Cortex-A7 cycle script. *)
Definition cycles_by_cpus (a b : A7Cycles.Row) : Prop :=
  fst (fst a) <= fst (fst b).

Definition cycles_by_name (a b : A7Cycles.Row) : Prop :=
  OrderSpec.name_le (snd a) (snd b).

Definition cycles_same_cpus (k : Z) (a : A7Cycles.Row) : bool :=
  fst (fst a) =? k.

(** Rows [(threads, ipc_global, sim_insts, max_cycles)] of the
    Cortex-A7 IPC script. *)
Definition ipc_max_by_threads (a b : A7IpcMax.Row) : Prop :=
  fst (fst (fst a)) <= fst (fst (fst b)).

(** Points of the Cortex-A15 IPC script, by [(width, threads)]. *)
Definition ipc_by_key (p q : A15Ipc.Point) : Prop :=
  A15Ipc.width p < A15Ipc.width q \/
  (A15Ipc.width p = A15Ipc.width q /\ A15Ipc.threads p <= A15Ipc.threads q).

Definition ipc_by_folder (p q : A15Ipc.Point) : Prop :=
  OrderSpec.name_le (A15Ipc.folder p) (A15Ipc.folder q).

Definition ipc_same_key (w t : Z) (p : A15Ipc.Point) : bool :=
  (A15Ipc.width p =? w) && (A15Ipc.threads p =? t).

End RowOrder.

(** ** What the other sweeps collect *)

Module RowSpec.

(** The directory [e] gives the row [r] of the Cortex-A7 cycle script. *)
Definition cycles_yields (e : Entry) (r : A7Cycles.Row) : Prop :=
  is_dir e = true /\
  exists m f c source,
    re_match A7Cycles.DIR_RE (name e) = Some m /\
    stats_txt e = Some f /\ st_size f <> 0 /\
    A7Cycles.parse_cycles f = Return (c, source) /\
    r = (A7Cycles.dir_cpus m, c, name e).

(** The directory [e] gives the row [r] of the Cortex-A7 IPC script. *)
Definition ipc_max_yields (e : Entry) (r : A7IpcMax.Row) : Prop :=
  is_dir e = true /\
  exists m f ipc_global sim_insts max_cycles,
    re_match A7IpcMax.DIR_RE (name e) = Some m /\
    stats_txt e = Some f /\ st_size f <> 0 /\
    A7IpcMax.parse_config (path e ++ "/stats.txt") f
      = Return (ipc_global, sim_insts, max_cycles) /\
    r = (group_int m "threads", ipc_global, sim_insts, max_cycles).

(** The directory [e] gives the point [p] of the Cortex-A15 IPC
    script. *)
Definition ipc_yields (simulation : string) (max_threads : option Z)
  (e : Entry) (p : A15Ipc.Point) : Prop :=
  is_dir e = true /\
  exists m f ipc_max ipc_global sim_insts max_cycles,
    re_match A15Ipc.DIR_RE (name e) = Some m /\
    A15Performance.over_max max_threads (group_int m "threads") = false /\
    A15Performance.bad_status e = None /\
    stats_txt e = Some f /\ st_size f <> 0 /\
    A15Ipc.parse_stats (path e ++ "/stats.txt") f
      = Return (ipc_max, ipc_global, sim_insts, max_cycles) /\
    p = {| A15Ipc.simulation := simulation;
           A15Ipc.width := group_int m "width";
           A15Ipc.threads := group_int m "threads";
           A15Ipc.ipc_max := ipc_max; A15Ipc.ipc_global := ipc_global;
           A15Ipc.sim_insts := sim_insts; A15Ipc.max_cycles := max_cycles;
           A15Ipc.folder := name e |}.

End RowSpec.

(** ** The warnings of a sweep *)

Module WarningSpec.

(** What is wrong with the log of the directory [e], as the warning [w]
    says it; [parse] is the outcome of the parser on a log that is not
    empty. *)
Definition log_warning (e : Entry) (parse : TextFile -> result Z) (w : string)
  : Prop :=
  (stats_txt e = None /\ w = name e ++ ": stats.txt absent") \/
  (exists f,
     stats_txt e = Some f /\ st_size f = 0 /\ w = name e ++ ": stats.txt vide") \/
  (exists f,
     stats_txt e = Some f /\ st_size f <> 0 /\ parse f = Raise (ValueError w)).

(** The directory [e] of a Cortex-A7 sweep gives the warning [w]. *)
Definition a7_warns (e : Entry) (w : string) : Prop :=
  is_dir e = true /\
  (exists m, re_match A7Speedup.DIR_RE (name e) = Some m) /\
  log_warning e (A7Speedup.parse_cycles (path e ++ "/stats.txt")) w.

(** The directory [e] of a Cortex-A15 sweep gives the warning [w]. *)
Definition a15_warns (max_threads : option Z) (e : Entry) (w : string) : Prop :=
  is_dir e = true /\
  (exists width threads,
     A15Performance.parse_dir_name (name e) = Some (width, threads) /\
     A15Performance.over_max max_threads threads = false) /\
  ((exists status,
      A15Performance.bad_status e = Some status /\
      w = name e ++ ": ignore (" ++ status ++ ")") \/
   (A15Performance.bad_status e = None /\
    log_warning e (A15Performance.parse_cycles (path e ++ "/stats.txt")) w)).

End WarningSpec.

(** ** IPC lines *)

Module IpcLineSpec.
Import LineSpec.

(** [system.cpu<idx>.ipc<blanks><int>.<frac><rest>] *)
Definition ipc_line (idx ws int_part frac rest : string) : string :=
  "system.cpu" ++ idx ++ ".ipc" ++ ws ++ int_part ++ "." ++ frac ++ rest.

(** The text of the value that is read from such a line: the decimal
    number, or its integer part alone when a letter, a digit or an
    underscore follows the fraction. *)
Definition ipc_value (int_part frac rest : string) : string :=
  if word_after rest then int_part else int_part ++ "." ++ frac.

End IpcLineSpec.

(** * Theorems *)

Ltac bind_inv H :=
  repeat match type of H with
  | bind ?c _ = Return _ =>
      let E := fresh "E" in
      destruct c eqn:E; cbn [bind] in H; [ | discriminate H ]
  end.

Section FindFacts.
Context {A : Type} (f : A -> bool).

Lemma find_some_first (l : list A) (b : A) :
  find f l = Some b ->
  exists pre post, l = (pre ++ b :: post)%list /\ f b = true /\
                   Forall (fun x => f x = false) pre.
Proof.
  induction l as [ | x l IH ]; simpl; [ discriminate | ].
  destruct (f x) eqn:Fx.
  - intros [= ->]. exists [], l. auto.
  - intros H. destruct (IH H) as (pre & post & -> & Hb & Hpre).
    exists (x :: pre), post. auto.
Qed.

Lemma find_none_all (l : list A) :
  find f l = None -> Forall (fun x => f x = false) l.
Proof.
  induction l as [ | x l IH ]; simpl; [ constructor | ].
  destruct (f x) eqn:Fx; [ discriminate | auto ].
Qed.
End FindFacts.

Lemma int_truediv_arith (a b : Z) (e : exn) :
  int_truediv a b = Raise e -> Spec.arithmetic e.
Proof.
  unfold int_truediv, Spec.arithmetic.
  destruct (b =? 0); [ intros [= <-]; auto | ].
  destruct (is_infinity _); [ intros [= <-]; auto | discriminate ].
Qed.

Lemma float_truediv_arith (x y : float) (e : exn) :
  float_truediv x y = Raise e -> Spec.arithmetic e.
Proof.
  unfold float_truediv, Spec.arithmetic.
  destruct (is_zero y); [ intros [= <-]; auto | discriminate ].
Qed.

Lemma float_div_int_arith (x : float) (n : Z) (e : exn) :
  float_div_int x n = Raise e -> Spec.arithmetic e.
Proof.
  unfold float_div_int, float_of_int.
  destruct (is_infinity _); cbn [bind].
  - intros [= <-]. right. reflexivity.
  - apply float_truediv_arith.
Qed.

Lemma float_div_int_zero (x : float) :
  float_div_int x 0 = Raise ZeroDivisionError.
Proof. reflexivity. Qed.

Module A7MetricsFacts.
Import A7Speedup Spec A7Metrics.

Lemma a7_baseline_is_baseline (pts : list Point) (b : Point) :
  baseline pts = Return b -> is_baseline threads pts b.
Proof.
  unfold baseline. destruct pts as [ | p0 pts ]; [ discriminate | ].
  destruct (find _ _) as [ p | ] eqn:F; intros [= <-].
  - left. apply find_some_first in F.
    destruct F as (pre & post & -> & Hb & Hpre).
    exists pre, post. repeat split; [ now apply Z.eqb_eq | ].
    eapply Forall_impl; [ | exact Hpre ].
    intros a Ha. now apply Z.eqb_neq.
  - right. split; [ | reflexivity ].
    apply find_none_all in F.
    eapply Forall_impl; [ | exact F ].
    intros a Ha. now apply Z.eqb_neq.
Qed.

Lemma a7_metrics_loop_metrics (bc : Z) (pts : list Point) :
  forall prev out,
    metrics_loop bc prev pts = Return out ->
    Forall2 same_run pts out /\ Forall (has_metrics bc) out.
Proof.
  induction pts as [ | p pts IH ]; intros prev out H.
  - cbn in H. injection H as <-. split; constructor.
  - cbn [metrics_loop] in H. bind_inv H.
    destruct prev as [ pv | ]; bind_inv H; injection H as <-;
      match goal with E : metrics_loop _ _ _ = _ |- _ =>
        destruct (IH _ _ E) as [IH1 IH2] end;
      (split; constructor; auto; repeat split; assumption).
Qed.

Lemma metrics_loop_chain (bc : Z) (pts : list Point) :
  forall pv out,
    metrics_loop bc (Some pv) pts = Return out -> chain pv out.
Proof.
  induction pts as [ | p pts IH ]; intros pv out H.
  - cbn in H. injection H as <-. exact I.
  - cbn [metrics_loop] in H. bind_inv H. injection H as <-.
    cbn [chain]. split.
    + exists a1, a3, a4. cbn. rewrite E2. cbn [bind]. auto 10.
    + eapply IH; eassumption.
Qed.

Lemma metrics_loop_first (bc : Z) (p : Point) (pts : list Point) (out : list Point) :
  metrics_loop bc None (p :: pts) = Return out ->
  exists o rest, out = o :: rest /\ local_untouched p o /\ chain o rest.
Proof.
  intros H. cbn [metrics_loop] in H. bind_inv H. injection H as <-.
  eexists _, _. split; [ reflexivity | ]. split.
  - repeat split.
  - eapply metrics_loop_chain; eassumption.
Qed.

Lemma chain_adjacent (out : list Point) :
  forall pv pre a b post,
    chain pv out -> out = (pre ++ a :: b :: post)%list -> has_local a b.
Proof.
  induction out as [ | o out IH ]; intros pv pre a b post Hc Heq.
  - destruct pre; discriminate.
  - destruct Hc as [_ Hc]. destruct pre as [ | x pre ]; cbn in Heq.
    + injection Heq as -> ->. destruct Hc as [Hl _]. exact Hl.
    + injection Heq as -> ->. eapply IH; [ exact Hc | reflexivity ].
Qed.

End A7MetricsFacts.

Module A15MetricsFacts.
Import A15Performance Spec A15Metrics.

Lemma a15_baseline_is_baseline (pts : list Point) (b : Point) :
  baseline pts = Return b -> is_baseline threads pts b.
Proof.
  unfold baseline. destruct pts as [ | p0 pts ]; [ discriminate | ].
  destruct (find _ _) as [ p | ] eqn:F; intros [= <-].
  - left. apply find_some_first in F.
    destruct F as (pre & post & -> & Hb & Hpre).
    exists pre, post. repeat split; [ now apply Z.eqb_eq | ].
    eapply Forall_impl; [ | exact Hpre ].
    intros a Ha. now apply Z.eqb_neq.
  - right. split; [ | reflexivity ].
    apply find_none_all in F.
    eapply Forall_impl; [ | exact F ].
    intros a Ha. now apply Z.eqb_neq.
Qed.

Lemma a15_metrics_loop_metrics (bc : Z) (pts : list Point) :
  forall out,
    metrics_loop bc pts = Return out ->
    Forall2 same_run pts out /\ Forall (has_metrics bc) out.
Proof.
  induction pts as [ | p pts IH ]; intros out H.
  - cbn in H. injection H as <-. split; constructor.
  - cbn [metrics_loop] in H. bind_inv H. injection H as <-.
    unfold set_metrics in E. bind_inv E. injection E as <-.
    destruct (IH _ eq_refl) as [IH1 IH2].
    split; constructor; auto; repeat split; assumption.
Qed.

Lemma groups_loop_series (g : list (Z * list Point)) :
  forall out, groups_loop g = Return out -> Forall2 series_done g out.
Proof.
  induction g as [ | [w values] g IH ]; intros out H.
  - cbn in H. injection H as <-. constructor.
  - cbn [groups_loop] in H. bind_inv H. injection H as <-.
    constructor; [ | now apply IH ].
    unfold series_metrics in E. bind_inv E.
    split; [ reflexivity | ]. exists a1. cbn [fst snd].
    destruct (a15_metrics_loop_metrics _ _ _ E) as [H1 H2].
    split; [ now apply a15_baseline_is_baseline | ]. split; assumption.
Qed.

End A15MetricsFacts.

(** C1. [compute_metrics] takes as baseline the first point with
    [threads == 1] when the series has one and the first point
    otherwise, and gives every point the speedup
    [baseline.cycles / point.cycles] and the efficiency
    [speedup / point.threads]; this holds for the single series of the
    Cortex-A7 script and for the series of every width of the
    Cortex-A15 script.  On the series with (threads, cycles) =
    (1, 1000), (2, 600), (4, 400) the speedups are 1.0, 1.667, 2.5 and
    the efficiencies 1.0, 0.833, 0.625, each within 1e-3. *)
Theorem compute_metrics_baseline_speedup_efficiency :
  (forall pts out,
     A7Speedup.compute_metrics pts = Return out ->
     exists b,
       Spec.is_baseline A7Speedup.threads pts b /\
       Forall2 A7Metrics.same_run pts out /\
       Forall (A7Metrics.has_metrics (A7Speedup.cycles b)) out) /\
  (forall pts grouped,
     A15Performance.compute_metrics pts = Return grouped ->
     Forall2 A15Metrics.series_done (A15Performance.group_points pts) grouped) /\
  (exists out,
     A7Speedup.compute_metrics A7Metrics.example_series = Return out /\
     Spec.all_within (1 # 1000) (map A7Speedup.speedup out)
       [1; 1667 # 1000; 5 # 2]%Q = true /\
     Spec.all_within (1 # 1000) (map A7Speedup.efficiency out)
       [1; 833 # 1000; 625 # 1000]%Q = true) /\
  (exists out,
     A15Performance.compute_metrics A15Metrics.example_series = Return [(4, out)] /\
     Spec.all_within (1 # 1000) (map A15Performance.speedup out)
       [1; 1667 # 1000; 5 # 2]%Q = true /\
     Spec.all_within (1 # 1000) (map A15Performance.efficiency out)
       [1; 833 # 1000; 625 # 1000]%Q = true).
Proof.
  split; [ | split; [ | split ] ].
  - intros pts out H. unfold A7Speedup.compute_metrics in H. bind_inv H.
    exists a. split; [ now apply A7MetricsFacts.a7_baseline_is_baseline | ].
    eapply A7MetricsFacts.a7_metrics_loop_metrics; eassumption.
  - intros pts grouped H. now apply A15MetricsFacts.groups_loop_series.
  - eexists. split; [ vm_compute; reflexivity | ].
    split; vm_compute; reflexivity.
  - eexists. split; [ vm_compute; reflexivity | ].
    split; vm_compute; reflexivity.
Qed.

Lemma compute_metrics_baseline_speedup_efficiency_witness :
  exists out,
    A7Speedup.compute_metrics A7Metrics.example_series = Return out /\
    exists b,
      Spec.is_baseline A7Speedup.threads A7Metrics.example_series b /\
      Forall2 A7Metrics.same_run A7Metrics.example_series out /\
      Forall (A7Metrics.has_metrics (A7Speedup.cycles b)) out.
Proof.
  eexists. split; [ vm_compute; reflexivity | ].
  apply (proj1 compute_metrics_baseline_speedup_efficiency).
  vm_compute; reflexivity.
Defined.

(** C2. The Cortex-A7 [compute_metrics] returns the points it was
    given, one for one and in the same order, with the same threads,
    cycles and folder.  Every point after the first gets
    [local_speedup = previous.cycles / point.cycles],
    [local_efficiency = local_speedup / (point.threads / previous.threads)]
    and [marginal_efficiency = (point.speedup - previous.speedup) /
    (point.threads - previous.threads)]; the three fields of the first
    point are left as they were, that is absent for a point that came
    without them. *)
Theorem compute_metrics_adjacent_metrics :
  forall pts out,
    A7Speedup.compute_metrics pts = Return out ->
    Forall2 A7Metrics.same_run pts out /\
    (forall pre prev p post,
       out = (pre ++ prev :: p :: post)%list -> A7Metrics.has_local prev p) /\
    (forall p0 o0,
       hd_error pts = Some p0 -> hd_error out = Some o0 ->
       A7Metrics.local_untouched p0 o0 /\
       (A7Metrics.local_absent p0 -> A7Metrics.local_absent o0)).
Proof.
  intros pts out H. unfold A7Speedup.compute_metrics in H. bind_inv H.
  split; [ exact (proj1 (A7MetricsFacts.a7_metrics_loop_metrics _ _ _ _ H)) | ].
  destruct pts as [ | p pts ].
  - cbn in H. injection H as <-. split.
    + intros [ | ? ? ] ? ? ? ?; discriminate.
    + intros ? ? ?; discriminate.
  - apply A7MetricsFacts.metrics_loop_first in H.
    destruct H as (o & rest & -> & Hu & Hc). split.
    + intros pre prev q post Heq.
      destruct pre as [ | x pre ]; cbn in Heq; injection Heq as -> ->.
      * destruct Hc as [Hl _]. exact Hl.
      * eapply A7MetricsFacts.chain_adjacent; [ exact Hc | reflexivity ].
    + intros p0 o0 [= <-] [= <-]. split; [ exact Hu | ].
      destruct Hu as (U1 & U2 & U3). intros (A1 & A2 & A3).
      repeat split; congruence.
Qed.

Lemma compute_metrics_adjacent_metrics_witness :
  exists out,
    A7Speedup.compute_metrics A7Metrics.example_series = Return out /\
    Forall2 A7Metrics.same_run A7Metrics.example_series out /\
    (forall pre prev p post,
       out = (pre ++ prev :: p :: post)%list -> A7Metrics.has_local prev p) /\
    (forall p0 o0,
       hd_error A7Metrics.example_series = Some p0 -> hd_error out = Some o0 ->
       A7Metrics.local_untouched p0 o0 /\
       (A7Metrics.local_absent p0 -> A7Metrics.local_absent o0)).
Proof.
  eexists. split; [ vm_compute; reflexivity | ].
  apply (compute_metrics_adjacent_metrics A7Metrics.example_series).
  vm_compute; reflexivity.
Defined.

Module A7DuplicateFacts.
Import A7Speedup Spec A7Metrics.

Lemma metrics_loop_arith (bc : Z) (pts : list Point) :
  forall prev e, metrics_loop bc prev pts = Raise e -> arithmetic e.
Proof.
  induction pts as [ | p pts IH ]; intros prev e H; [ discriminate | ].
  cbn [metrics_loop] in H.
  destruct (int_truediv bc (cycles p)) eqn:E1; cbn [bind] in H;
    [ | injection H as <-; eapply int_truediv_arith; eassumption ].
  destruct (float_div_int a (threads p)) eqn:E2; cbn [bind] in H;
    [ | injection H as <-; eapply float_div_int_arith; eassumption ].
  destruct prev as [ pv | ].
  - destruct (int_truediv (cycles pv) (cycles p)) eqn:E3; cbn [bind] in H;
      [ | injection H as <-; eapply int_truediv_arith; eassumption ].
    destruct (int_truediv (threads p) (threads pv)) eqn:E4; cbn [bind] in H;
      [ | injection H as <-; eapply int_truediv_arith; eassumption ].
    destruct (float_truediv a1 a2) eqn:E5; cbn [bind] in H;
      [ | injection H as <-; eapply float_truediv_arith; eassumption ].
    destruct (float_div_int _ (threads p - threads pv)) eqn:E6; cbn [bind] in H;
      [ | injection H as <-; eapply float_div_int_arith; eassumption ].
    destruct (metrics_loop bc _ pts) eqn:E7; cbn [bind] in H;
      [ discriminate | injection H as <-; eapply IH; eassumption ].
  - destruct (metrics_loop bc _ pts) eqn:E7; cbn [bind] in H;
      [ discriminate | injection H as <-; eapply IH; eassumption ].
Qed.

(** A point directly after one with the same thread count stops the
    loop: its thread delta is zero. *)
Lemma metrics_loop_zero_delta (bc : Z) (pv p : Point) (rest : list Point) :
  threads p = threads pv ->
  forall out, metrics_loop bc (Some pv) (p :: rest) <> Return out.
Proof.
  intros Ht out H. cbn [metrics_loop] in H. bind_inv H.
  rewrite Ht, Z.sub_diag, float_div_int_zero in E4. discriminate.
Qed.

Lemma metrics_loop_adjacent_duplicate (bc : Z) (a b : Point) (l3 : list Point) :
  threads a = threads b ->
  forall l1 prev out,
    metrics_loop bc prev (l1 ++ a :: b :: l3)%list <> Return out.
Proof.
  intros Ht l1. induction l1 as [ | x l1 IH ]; intros prev out H.
  - cbn [app] in H. remember (b :: l3) as tl eqn:Htl.
    cbn [metrics_loop] in H. bind_inv H.
    destruct prev as [ pv | ]; bind_inv H; subst tl;
      match goal with
      | E : metrics_loop _ (Some ?q) (b :: l3) = Return _ |- _ =>
          apply (metrics_loop_zero_delta bc q b l3) in E;
          [ exact E | cbn; congruence ]
      end.
  - cbn [app] in H. remember (l1 ++ a :: b :: l3)%list as tl eqn:Htl.
    cbn [metrics_loop] in H. bind_inv H.
    destruct prev as [ pv | ]; bind_inv H;
      match goal with
      | E : metrics_loop _ _ tl = Return _ |- _ => exact (IH _ _ E)
      end.
Qed.

Lemma strongly_sorted_suffix (l1 l2 : list Point) :
  StronglySorted by_threads (l1 ++ l2)%list -> StronglySorted by_threads l2.
Proof.
  induction l1 as [ | x l1 IH ]; cbn; [ auto | ].
  intros H. apply StronglySorted_inv in H. tauto.
Qed.

Lemma sorted_duplicate_adjacent (pts : list Point) :
  StronglySorted by_threads pts -> duplicate_threads pts ->
  exists l1 a b l3,
    pts = (l1 ++ a :: b :: l3)%list /\ threads a = threads b.
Proof.
  intros Hs (l1 & a & l2 & b & l3 & -> & Ht).
  destruct l2 as [ | c l2 ].
  - exists l1, a, b, l3. auto.
  - exists l1, a, c, (l2 ++ b :: l3)%list. split; [ reflexivity | ].
    apply strongly_sorted_suffix in Hs.
    apply StronglySorted_inv in Hs. destruct Hs as [Hs Ha].
    apply StronglySorted_inv in Hs. destruct Hs as [_ Hc].
    cbn in Ha. apply Forall_inv in Ha.
    rewrite Forall_forall in Hc.
    assert (Hb : by_threads c b) by (apply Hc, in_or_app; right; left; reflexivity).
    unfold by_threads in *. lia.
Qed.

Lemma by_threads_trans : Relations_1.Transitive by_threads.
Proof. intros x y z. unfold by_threads. lia. Qed.

End A7DuplicateFacts.

(** ** The scanning loop finds the first value of each fallback signal *)

Lemma lit_prefix (p : string) :
  forall prev s prev' s', lit p prev s = Some (prev', s') -> s = p ++ s'.
Proof.
  induction p as [ | a p IH ]; intros prev s prev' s' H; cbn in H.
  - injection H as _ <-. reflexivity.
  - destruct s as [ | b s ]; [ discriminate | ].
    destruct (Ascii.eqb a b) eqn:E; [ | discriminate ].
    apply Ascii.eqb_eq in E. subst b.
    cbn. f_equal. eapply IH; eassumption.
Qed.

(** A line matched by [label\s+(\d+)\b] starts with the label. *)
Lemma stat_line_prefix (label s : string) (m : groups) :
  re_match (stat_line (Lit label)) s = Some m -> exists r, s = label ++ r.
Proof.
  unfold re_match, stat_line. cbn [seq run].
  destruct (lit label None s) as [ [prev' s'] | ] eqn:E; [ | discriminate ].
  intros _. exists s'. eapply lit_prefix; eassumption.
Qed.

Section ScanFacts.
Import TicksScan ScanSpec.
Variables NUM SIM CPU SYS : regex.
Hypothesis SIM_empty : re_match SIM "" = None.
Hypothesis CPU_empty : re_match CPU "" = None.
Hypothesis SYS_empty : re_match SYS "" = None.
Hypothesis SIM_not_CPU :
  forall s m, re_match SIM s = Some m -> re_match CPU s = None.
Hypothesis SIM_not_SYS :
  forall s m, re_match SIM s = Some m -> re_match SYS s = None.
Hypothesis CPU_not_SYS :
  forall s m, re_match CPU s = Some m -> re_match SYS s = None.

Lemma scan_lines_no_cycles (ls : list string) :
  no_line NUM ls ->
  forall st,
    fold_left (scan_line NUM SIM CPU SYS) ls st =
    {| cpu_cycles := cpu_cycles st;
       sim_ticks := or_else (sim_ticks st) (first_value SIM ls);
       cpu_clock := or_else (cpu_clock st) (first_value CPU ls);
       sys_clock := or_else (sys_clock st) (first_value SYS ls) |}.
Proof.
  induction 1 as [ | l ls Hl Hls IH ]; intros [cc t c y].
  - cbn. destruct t, c, y; reflexivity.
  - cbn [fold_left first_value]. rewrite IH. clear IH.
    unfold scan_line, try_sim_ticks, try_cpu_clock, try_sys_clock.
    destruct (String.eqb (strip l) "") eqn:Ee.
    + apply String.eqb_eq in Ee. rewrite Ee, SIM_empty, CPU_empty, SYS_empty.
      reflexivity.
    + rewrite Hl. cbn [cpu_cycles sim_ticks cpu_clock sys_clock].
      destruct (re_match SIM (strip l)) as [ ms | ] eqn:Es.
      * rewrite (SIM_not_CPU _ _ Es), (SIM_not_SYS _ _ Es).
        destruct t, c, y; reflexivity.
      * destruct (re_match CPU (strip l)) as [ mc | ] eqn:Ec.
        -- rewrite (CPU_not_SYS _ _ Ec). destruct t, c, y; reflexivity.
        -- destruct (re_match SYS (strip l)); destruct t, c, y; reflexivity.
Qed.

Lemma scan_no_cycles (f : TextFile) :
  no_line NUM (lines f) ->
  scan NUM SIM CPU SYS f =
  {| cpu_cycles := [];
     sim_ticks := first_value SIM (lines f);
     cpu_clock := first_value CPU (lines f);
     sys_clock := first_value SYS (lines f) |}.
Proof.
  intros H. unfold scan. now rewrite scan_lines_no_cycles.
Qed.

End ScanFacts.

Lemma usable_period_pos (p : Z) : 0 < p -> TicksScan.usable_period (Some p) = Some p.
Proof.
  intros H. unfold TicksScan.usable_period.
  replace (p =? 0) with false by (symmetry; apply Z.eqb_neq; lia).
  replace (0 <? p) with true by (symmetry; apply Z.ltb_lt; lia).
  reflexivity.
Qed.

Ltac other_label H :=
  let r := fresh "r" in
  apply stat_line_prefix in H; destruct H as [r ->]; reflexivity.

Module A15ScanFacts.
Import A15Performance ScanSpec.

Lemma a15_SIM_not_CPU s m :
  re_match SIM_TICKS_RE s = Some m -> re_match CPU_CLOCK_RE s = None.
Proof. intros H. other_label H. Qed.

Lemma a15_SIM_not_SYS s m :
  re_match SIM_TICKS_RE s = Some m -> re_match SYS_CLOCK_RE s = None.
Proof. intros H. other_label H. Qed.

Lemma a15_CPU_not_SYS s m :
  re_match CPU_CLOCK_RE s = Some m -> re_match SYS_CLOCK_RE s = None.
Proof. intros H. other_label H. Qed.

Lemma a15_scan_no_cycles (f : TextFile) :
  no_line NUM_CYCLES_RE (lines f) ->
  scan f =
  {| TicksScan.cpu_cycles := [];
     TicksScan.sim_ticks := first_value SIM_TICKS_RE (lines f);
     TicksScan.cpu_clock := first_value CPU_CLOCK_RE (lines f);
     TicksScan.sys_clock := first_value SYS_CLOCK_RE (lines f) |}.
Proof.
  apply scan_no_cycles;
    [ reflexivity | reflexivity | reflexivity
    | exact a15_SIM_not_CPU | exact a15_SIM_not_SYS | exact a15_CPU_not_SYS ].
Qed.

End A15ScanFacts.

Module A7ScanFacts.
Import A7Cycles ScanSpec.

Lemma a7_SIM_not_CPU s m :
  re_match SIM_TICKS_RE s = Some m -> re_match CPU_CLOCK_RE s = None.
Proof. intros H. other_label H. Qed.

Lemma a7_SIM_not_SYS s m :
  re_match SIM_TICKS_RE s = Some m -> re_match SYS_CLOCK_RE s = None.
Proof. intros H. other_label H. Qed.

Lemma a7_CPU_not_SYS s m :
  re_match CPU_CLOCK_RE s = Some m -> re_match SYS_CLOCK_RE s = None.
Proof. intros H. other_label H. Qed.

Lemma a7_scan_no_cycles (f : TextFile) :
  no_line NUM_CYCLES_RE (lines f) ->
  scan f =
  {| TicksScan.cpu_cycles := [];
     TicksScan.sim_ticks := first_value SIM_TICKS_RE (lines f);
     TicksScan.cpu_clock := first_value CPU_CLOCK_RE (lines f);
     TicksScan.sys_clock := first_value SYS_CLOCK_RE (lines f) |}.
Proof.
  apply scan_no_cycles;
    [ reflexivity | reflexivity | reflexivity
    | exact a7_SIM_not_CPU | exact a7_SIM_not_SYS | exact a7_CPU_not_SYS ].
Qed.

End A7ScanFacts.

(** C4. When no line of the log gives a per-core cycle count, and the
    log has a simulated-ticks value and a clock period > 0, where the
    period is the core-local clock when the log has one and the
    system-wide clock otherwise, [parse_cycles] yields
    [round(sim_ticks / period)]; for [sim_ticks = 500000] and a period
    of [1000] that is [500]. *)
Theorem parse_cycles_fallback_ticks_over_period :
  (forall stats_path f ticks period,
     ScanSpec.no_line A15Performance.NUM_CYCLES_RE (lines f) ->
     ScanSpec.first_value A15Performance.SIM_TICKS_RE (lines f) = Some ticks ->
     ScanSpec.clock_period A15Performance.CPU_CLOCK_RE
       A15Performance.SYS_CLOCK_RE (lines f) = Some period ->
     0 < period ->
     A15Performance.parse_cycles stats_path f =
     (q <- int_truediv ticks period ;; round q)) /\
  (forall f ticks period,
     ScanSpec.no_line A7Cycles.NUM_CYCLES_RE (lines f) ->
     ScanSpec.first_value A7Cycles.SIM_TICKS_RE (lines f) = Some ticks ->
     ScanSpec.clock_period A7Cycles.CPU_CLOCK_RE
       A7Cycles.SYS_CLOCK_RE (lines f) = Some period ->
     0 < period ->
     A7Cycles.parse_cycles f =
     (q <- int_truediv ticks period ;;
      cycles <- round q ;; Return (cycles, "sim_ticks / clock_period"))) /\
  A15Performance.parse_cycles "m16/w2_t1/stats.txt" ScanSpec.ticks_log
    = Return 500 /\
  A7Cycles.parse_cycles ScanSpec.ticks_log
    = Return (500, "sim_ticks / clock_period").
Proof.
  split; [ | split; [ | split; reflexivity ] ].
  - intros stats_path f ticks period Hn Ht Hp Hpos.
    unfold A15Performance.parse_cycles.
    rewrite (A15ScanFacts.a15_scan_no_cycles f Hn).
    cbn [TicksScan.cpu_cycles TicksScan.sim_ticks TicksScan.cpu_clock
         TicksScan.sys_clock].
    rewrite Ht. unfold ScanSpec.clock_period, ScanSpec.or_else in Hp.
    rewrite Hp, (usable_period_pos _ Hpos). reflexivity.
  - intros f ticks period Hn Ht Hp Hpos.
    unfold A7Cycles.parse_cycles.
    rewrite (A7ScanFacts.a7_scan_no_cycles f Hn).
    cbn [TicksScan.cpu_cycles TicksScan.sim_ticks TicksScan.cpu_clock
         TicksScan.sys_clock].
    rewrite Ht. unfold ScanSpec.clock_period, ScanSpec.or_else in Hp.
    rewrite Hp, (usable_period_pos _ Hpos). reflexivity.
Qed.

Lemma parse_cycles_fallback_ticks_over_period_witness :
  A15Performance.parse_cycles "m16/w2_t1/stats.txt" ScanSpec.ticks_log =
  (q <- int_truediv 500000 1000 ;; round q).
Proof.
  apply (proj1 parse_cycles_fallback_ticks_over_period).
  - repeat constructor.
  - reflexivity.
  - reflexivity.
  - lia.
Defined.

(** ** Lines of different statistics do not match each other's expression *)

Import ScanSpec.

Lemma run_head_lit (r : regex) (p : string) :
  head_lit r = Some p ->
  forall prev s g k g', run r prev s g k = Some g' -> exists t, s = p ++ t.
Proof.
  induction r; cbn [head_lit]; try discriminate.
  - intros [= ->] prev s0 g k g' H. cbn [run] in H.
    destruct (lit p prev s0) as [ [prev' s'] | ] eqn:E; [ | discriminate ].
    exists s'. eapply lit_prefix; eassumption.
  - intros Hh prev s0 g k g' H. cbn [run] in H.
    eapply IHr1; eassumption.
Qed.

Lemma match_head_lit (r : regex) (p s : string) (m : groups) :
  head_lit r = Some p -> re_match r s = Some m -> exists t, s = p ++ t.
Proof. intros Hh H. eapply run_head_lit; eassumption. Qed.

(** [r1] and [r2] start with literals that exclude each other. *)
Ltac other_head H p :=
  let t := fresh "t" in
  apply (match_head_lit _ p) in H; [ | reflexivity ];
  destruct H as [t ->]; reflexivity.

Lemma star_digits_split (k : option ascii -> string -> option groups) :
  forall s prev g,
    star Digit prev s k = Some g ->
    exists ds rest prev',
      s = ds ++ rest /\ ScanSpec.all_digits ds = true /\ k prev' rest = Some g.
Proof.
  induction s as [ | a s IH ]; intros prev g H; cbn [star] in H.
  - exists "", "", prev. auto.
  - cbn [in_class] in H. destruct (isdigit a) eqn:Ea.
    + destruct (star Digit (Some a) s k) as [ g1 | ] eqn:E.
      * destruct (IH _ _ E) as (ds & rest & prev' & -> & Hd & Hk).
        injection H as <-. exists (String a ds), rest, prev'.
        cbn. rewrite Ea, Hd. auto.
      * exists "", (String a s), prev. auto.
    + exists "", (String a s), prev. auto.
Qed.

(** Two runs of digits that both end at a dot are the same run. *)
Lemma digits_then_dot (ds : string) :
  forall ds' r r',
    ScanSpec.all_digits ds = true -> ScanSpec.all_digits ds' = true ->
    ds ++ String "." r = ds' ++ String "." r' -> ds = ds' /\ r = r'.
Proof.
  induction ds as [ | a ds IH ]; intros [ | b ds' ] r r' Hd Hd' Heq; cbn in *.
  - injection Heq as <-. auto.
  - injection Heq as <- _. apply andb_prop in Hd'. destruct Hd' as [Hb _].
    discriminate Hb.
  - injection Heq as -> _. apply andb_prop in Hd. destruct Hd as [Ha _].
    discriminate Ha.
  - injection Heq as <- Heq. apply andb_prop in Hd, Hd'.
    destruct (IH ds' r r') as [-> ->]; tauto.
Qed.

(** ** A quotient of two ints is a number *)

Module FloatFacts.

Lemma shr_1_nonneg (mrs : shr_record) : 0 <= shr_m mrs -> 0 <= shr_m (shr_1 mrs).
Proof.
  destruct mrs as [m r s]. cbn.
  destruct m as [ | [ p | p | ] | p ]; cbn; lia.
Qed.

Lemma iter_pos_nonneg (p : positive) :
  forall mrs, 0 <= shr_m mrs -> 0 <= shr_m (iter_pos shr_1 p mrs).
Proof.
  induction p as [ p IH | p IH | ]; intros mrs H; cbn.
  - apply IH, IH, shr_1_nonneg, H.
  - apply IH, IH, H.
  - apply shr_1_nonneg, H.
Qed.

Lemma shr_nonneg (mrs : shr_record) (e n : Z) :
  0 <= shr_m mrs -> 0 <= shr_m (fst (shr mrs e n)).
Proof.
  intros H. unfold shr. destruct n; cbn; auto.
  now apply iter_pos_nonneg.
Qed.

Lemma shr_fexp_nonneg (m e : Z) (l : location) :
  0 <= m -> 0 <= shr_m (fst (shr_fexp 53 1024 m e l)).
Proof.
  intros H. unfold shr_fexp. apply shr_nonneg.
  destruct l as [ | [ | | ] ]; exact H.
Qed.

Lemma round_nearest_even_nonneg (m : Z) (l : location) :
  0 <= m -> 0 <= round_nearest_even m l.
Proof.
  intros H. unfold round_nearest_even.
  destruct l as [ | [ | | ] ]; try destruct (Z.even m); lia.
Qed.

Lemma binary_round_aux_not_nan (s : bool) (m e : Z) (l : location) :
  0 <= m -> binary_round_aux 53 1024 s m e l <> S754_nan.
Proof.
  intros H. unfold binary_round_aux.
  pose proof (shr_fexp_nonneg m e l H) as H1.
  destruct (shr_fexp 53 1024 m e l) as [mrs' e'].
  cbn [fst] in H1.
  pose proof (shr_fexp_nonneg
                (round_nearest_even (shr_m mrs') (loc_of_shr_record mrs')) e'
                loc_Exact (round_nearest_even_nonneg _ _ H1)) as H2.
  destruct (shr_fexp 53 1024 _ e' loc_Exact) as [mrs'' e''].
  cbn [fst] in H2.
  destruct (shr_m mrs'') as [ | p | p ]; [ discriminate | | lia ].
  destruct (Z.leb _ _); discriminate.
Qed.

Lemma div_core_nonneg (mx my : positive) :
  0 <= fst (fst (SFdiv_core_binary 53 1024 (Zpos mx) 0 (Zpos my) 0)).
Proof.
  unfold SFdiv_core_binary.
  set (sh := Z.sub (Z.sub 0 0) _).
  set (m' := match sh with Zpos _ => Z.shiftl (Zpos mx) sh | Z0 => Zpos mx | Zneg _ => Z0 end).
  assert (Hm : 0 <= m').
  { subst m'. destruct sh; try lia. apply Z.shiftl_nonneg. lia. }
  pose proof (Z_div_mod m' (Zpos my) eq_refl) as Hd.
  destruct (Z.div_eucl m' (Zpos my)) as [q r]. cbn [fst].
  destruct Hd as [Hq Hr]. nia.
Qed.

Lemma fdiv_ints_not_nan (a b : Z) :
  b <> 0 -> fdiv (Z2SF a) (Z2SF b) <> S754_nan.
Proof.
  intros Hb. unfold fdiv.
  destruct a as [ | mx | mx ], b as [ | my | my ]; try (now contradict Hb);
    cbn [Z2SF SFdiv]; try discriminate.
  all: pose proof (div_core_nonneg mx my) as Hq;
    destruct (SFdiv_core_binary 53 1024 (Zpos mx) 0 (Zpos my) 0) as [[mz ez] lz];
    cbn [fst] in Hq; now apply binary_round_aux_not_nan.
Qed.

(** [round] accepts every quotient that [int_truediv] returns. *)
Lemma round_int_truediv (a b : Z) (q : float) :
  int_truediv a b = Return q -> exists n, round q = Return n.
Proof.
  unfold int_truediv. destruct (b =? 0) eqn:Eb; [ discriminate | ].
  apply Z.eqb_neq in Eb. pose proof (fdiv_ints_not_nan a b Eb) as Hn.
  destruct (fdiv (Z2SF a) (Z2SF b)) as [ s | s | | s m e ]; cbn;
    try discriminate; intros [= <-]; cbn; eauto.
  now contradict Hn.
Qed.

End FloatFacts.

Module A15IpcFacts.
Import A15Ipc A15ParseSpec.

Lemma CYC_inv (s : string) (m : groups) :
  re_match CYC_RE s = Some m ->
  exists ds t, all_digits ds = true /\ s = "system.cpu" ++ ds ++ ".numCycles" ++ t.
Proof.
  unfold re_match, CYC_RE, stat_line. cbn [seq run].
  destruct (lit "system.cpu" None s) as [ [p1 s1] | ] eqn:E1; [ | discriminate ].
  intros H. apply star_digits_split in H.
  destruct H as (ds & rest & p2 & -> & Hd & H).
  destruct (lit ".numCycles" p2 rest) as [ [p3 s3] | ] eqn:E3; [ | discriminate ].
  apply lit_prefix in E1, E3. subst. eauto.
Qed.

Lemma IPC_inv (s : string) (m : groups) :
  re_match IPC_RE s = Some m ->
  exists ds t, all_digits ds = true /\ s = "system.cpu" ++ ds ++ ".ipc" ++ t.
Proof.
  unfold re_match, IPC_RE. cbn [seq run].
  destruct (lit "system.cpu" None s) as [ [p1 s1] | ] eqn:E1; [ | discriminate ].
  intros H. apply star_digits_split in H.
  destruct H as (ds & rest & p2 & -> & Hd & H).
  destruct (lit ".ipc" p2 rest) as [ [p3 s3] | ] eqn:E3; [ | discriminate ].
  apply lit_prefix in E1, E3. subst. eauto.
Qed.

Lemma IPC_not_CYC (s : string) (m : groups) :
  re_match IPC_RE s = Some m -> re_match CYC_RE s = None.
Proof.
  intros Hi. destruct (re_match CYC_RE s) as [ mc | ] eqn:Hc; [ exfalso | reflexivity ].
  apply IPC_inv in Hi. apply CYC_inv in Hc.
  destruct Hi as (ds & t & Hd & ->), Hc as (ds' & t' & Hd' & Heq).
  cbn in Heq. injection Heq as Heq.
  apply digits_then_dot in Heq; [ | assumption | assumption ].
  destruct Heq as [_ Heq]. discriminate Heq.
Qed.

Lemma CYC_not_IPC (s : string) (m : groups) :
  re_match CYC_RE s = Some m -> re_match IPC_RE s = None.
Proof.
  intros Hc. destruct (re_match IPC_RE s) as [ mi | ] eqn:Hi; [ | reflexivity ].
  apply IPC_not_CYC in Hi. congruence.
Qed.

Lemma CYC_not_SIM (s : string) (m : groups) :
  re_match CYC_RE s = Some m -> re_match SIM_INS_RE s = None.
Proof. intros H. other_head H "system.cpu". Qed.

Lemma IPC_not_SIM (s : string) (m : groups) :
  re_match IPC_RE s = Some m -> re_match SIM_INS_RE s = None.
Proof. intros H. other_head H "system.cpu". Qed.

Lemma scan_lines (ls : list string) :
  forall st,
    fold_left scan_line ls st =
    {| cycles := (cycles st ++ all_values CYC_RE ls)%list;
       ipc_vals := (ipc_vals st ++ map ipc_of (all_matches IPC_RE ls))%list;
       insts := match last_value SIM_INS_RE ls with
                | Some v => v
                | None => insts st
                end |}.
Proof.
  induction ls as [ | l ls IH ]; intros [cy ip n].
  - cbn. now rewrite !app_nil_r.
  - cbn [fold_left]. rewrite IH. clear IH.
    unfold scan_line, all_values. cbn [all_matches last_value].
    destruct (re_match CYC_RE (strip l)) as [ mc | ] eqn:Ec.
    + rewrite (CYC_not_IPC _ _ Ec), (CYC_not_SIM _ _ Ec).
      cbn [cycles ipc_vals insts map]. unfold append. rewrite <- app_assoc.
      destruct (last_value SIM_INS_RE ls); reflexivity.
    + destruct (re_match IPC_RE (strip l)) as [ mi | ] eqn:Ei.
      * rewrite (IPC_not_SIM _ _ Ei).
        cbn [cycles ipc_vals insts map]. unfold append. rewrite <- app_assoc.
        destruct (last_value SIM_INS_RE ls); reflexivity.
      * destruct (re_match SIM_INS_RE (strip l)) as [ ms | ] eqn:Es;
          cbn [cycles ipc_vals insts];
          destruct (last_value SIM_INS_RE ls); reflexivity.
Qed.

Lemma scan_spec (f : TextFile) :
  scan f =
  {| cycles := all_values CYC_RE (lines f);
     ipc_vals := map ipc_of (all_matches IPC_RE (lines f));
     insts := last_or_zero SIM_INS_RE (lines f) |}.
Proof. unfold scan. now rewrite scan_lines. Qed.

End A15IpcFacts.

Lemma all_matches_nil (re : regex) (ls : list string) :
  all_matches re ls = [] <-> no_line re ls.
Proof.
  unfold no_line. induction ls as [ | l ls IH ]; cbn.
  - split; auto.
  - destruct (re_match re (strip l)) eqn:E.
    + split; [ discriminate | ]. intros H. apply Forall_inv in H. congruence.
    + rewrite IH. split; intros H.
      * now constructor.
      * now apply Forall_inv_tail in H.
Qed.

Lemma all_values_nil (re : regex) (ls : list string) :
  all_values re ls = [] <-> no_line re ls.
Proof.
  rewrite <- all_matches_nil. unfold all_values.
  destruct (all_matches re ls); cbn; split; auto; discriminate.
Qed.

Section ScanCycles.
Import TicksScan.
Variables NUM SIM CPU SYS : regex.
Hypothesis NUM_empty : re_match NUM "" = None.

Lemma scan_line_cycles (st : Scan) (l : string) :
  cpu_cycles (scan_line NUM SIM CPU SYS st l) =
  (cpu_cycles st ++ all_values NUM [l])%list.
Proof.
  unfold scan_line, all_values. cbn [all_matches].
  destruct (String.eqb (strip l) "") eqn:Ee.
  - apply String.eqb_eq in Ee. rewrite Ee, NUM_empty. cbn. now rewrite app_nil_r.
  - destruct (re_match NUM (strip l)); [ reflexivity | ].
    cbn [map]. rewrite app_nil_r.
    unfold try_sim_ticks, try_cpu_clock, try_sys_clock.
    destruct (is_None (sim_ticks st)), (re_match SIM (strip l)); try reflexivity;
      destruct (is_None (cpu_clock st)), (re_match CPU (strip l)); try reflexivity;
      destruct (is_None (sys_clock st)), (re_match SYS (strip l)); reflexivity.
Qed.

Lemma all_values_cons (re : regex) (l : string) (ls : list string) :
  all_values re (l :: ls) = (all_values re [l] ++ all_values re ls)%list.
Proof.
  unfold all_values. cbn [all_matches].
  destruct (re_match re (strip l)); reflexivity.
Qed.

Lemma scan_lines_cycles (ls : list string) :
  forall st,
    cpu_cycles (fold_left (scan_line NUM SIM CPU SYS) ls st) =
    (cpu_cycles st ++ all_values NUM ls)%list.
Proof.
  induction ls as [ | l ls IH ]; intros st.
  - cbn. now rewrite app_nil_r.
  - cbn [fold_left]. rewrite IH, scan_line_cycles, (all_values_cons NUM l ls).
    now rewrite app_assoc.
Qed.

End ScanCycles.

Module A15ParseFacts.
Import A15Performance A15ParseSpec.

Lemma scan_cycles (f : TextFile) :
  TicksScan.cpu_cycles (scan f) = all_values NUM_CYCLES_RE (lines f).
Proof.
  unfold scan, TicksScan.scan. rewrite scan_lines_cycles; reflexivity.
Qed.

Lemma usable_period_none (o : option Z) :
  TicksScan.usable_period o = None <-> (forall p, o = Some p -> p <= 0).
Proof.
  unfold TicksScan.usable_period. destruct o as [ p | ].
  - destruct (p =? 0) eqn:E0; cbn.
    + apply Z.eqb_eq in E0. split; [ intros _ q [= <-]; lia | reflexivity ].
    + destruct (0 <? p) eqn:E1.
      * apply Z.ltb_lt in E1. split; [ discriminate | ].
        intros H. specialize (H p eq_refl). lia.
      * apply Z.ltb_ge in E1. split; [ intros _ q [= <-]; lia | reflexivity ].
  - split; [ intros _ q; discriminate | reflexivity ].
Qed.

Lemma parse_cycles_value_error (stats_path : string) (f : TextFile) :
  (exists msg, parse_cycles stats_path f = Raise (ValueError msg)) <->
  no_line NUM_CYCLES_RE (lines f) /\ no_fallback (lines f).
Proof.
  unfold parse_cycles, no_fallback.
  destruct (all_values NUM_CYCLES_RE (lines f)) as [ | c cs ] eqn:Ev.
  - apply all_values_nil in Ev.
    rewrite (A15ScanFacts.a15_scan_no_cycles f Ev).
    cbn [TicksScan.cpu_cycles TicksScan.sim_ticks TicksScan.cpu_clock
         TicksScan.sys_clock].
    change (match first_value CPU_CLOCK_RE (lines f) with
            | Some c => Some c
            | None => first_value SYS_CLOCK_RE (lines f)
            end) with (clock_period CPU_CLOCK_RE SYS_CLOCK_RE (lines f)).
    destruct (first_value SIM_TICKS_RE (lines f)) as [ t | ].
    + destruct (TicksScan.usable_period _) as [ p | ] eqn:Eu.
      * split.
        -- intros [msg H]. exfalso.
           destruct (int_truediv t p) as [ q | e ] eqn:Eq; cbn [bind] in H.
           ++ destruct (FloatFacts.round_int_truediv _ _ _ Eq) as [n Hn].
              congruence.
           ++ injection H as ->. apply int_truediv_arith in Eq.
              destruct Eq; discriminate.
        -- intros [_ [ H | H ]]; [ discriminate | ].
           apply usable_period_none in H. congruence.
      * split; [ | intros _; eexists; reflexivity ].
        intros _. split; [ exact Ev | right ].
        now apply usable_period_none.
    + split; [ | intros _; eexists; reflexivity ].
      intros _. split; [ exact Ev | left; reflexivity ].
  - rewrite scan_cycles, Ev. split.
    + intros [msg H]. discriminate.
    + intros [H _]. apply all_values_nil in H. congruence.
Qed.

End A15ParseFacts.

Module A15StatsFacts.
Import A15Ipc A15ParseSpec.

Lemma parse_stats_value_error (stats_path : string) (f : TextFile) :
  (exists msg, parse_stats stats_path f = Raise (ValueError msg)) <->
  unusable (lines f).
Proof.
  unfold parse_stats, unusable. rewrite A15IpcFacts.scan_spec.
  cbn [cycles ipc_vals insts].
  rewrite <- (all_values_nil CYC_RE), <- (all_matches_nil IPC_RE).
  destruct (all_values CYC_RE (lines f)) as [ | c cs ] eqn:Ec.
  { split; [ auto | intros _; eexists; reflexivity ]. }
  destruct (all_matches IPC_RE (lines f)) as [ | i ivs ] eqn:Ei; cbn [map].
  { split; [ auto | intros _; eexists; reflexivity ]. }
  destruct (last_or_zero SIM_INS_RE (lines f) <=? 0) eqn:En.
  { apply Z.leb_le in En. split; [ auto | intros _; eexists; reflexivity ]. }
  apply Z.leb_gt in En.
  destruct (max_int (c :: cs) <=? 0) eqn:Em.
  { apply Z.leb_le in Em. split; [ auto | intros _; eexists; reflexivity ]. }
  apply Z.leb_gt in Em. split.
  - intros [msg H]. exfalso.
    destruct (int_truediv _ _) as [ q | e ] eqn:Eq; cbn [bind] in H;
      [ discriminate | ].
    injection H as ->. apply int_truediv_arith in Eq. destruct Eq; discriminate.
  - intros [ H | [ H | [ H | H ] ] ]; try discriminate; lia.
Qed.

Lemma parse_stats_returns (stats_path : string) (f : TextFile)
  (ipc_max ipc_global : float) (n c : Z) :
  parse_stats stats_path f = Return (ipc_max, ipc_global, n, c) ->
  c = max_int (all_values CYC_RE (lines f)) /\ 0 < c /\
  n = last_or_zero SIM_INS_RE (lines f) /\ 0 < n.
Proof.
  unfold parse_stats. rewrite A15IpcFacts.scan_spec.
  cbn [cycles ipc_vals insts].
  destruct (all_values CYC_RE (lines f)) as [ | c0 cs ]; [ discriminate | ].
  destruct (map ipc_of _) as [ | i ivs ]; [ discriminate | ].
  destruct (last_or_zero SIM_INS_RE (lines f) <=? 0) eqn:En; [ discriminate | ].
  destruct (max_int (c0 :: cs) <=? 0) eqn:Em; [ discriminate | ].
  apply Z.leb_gt in En, Em.
  destruct (int_truediv _ _); cbn [bind]; [ | discriminate ].
  intros [= _ _ <- <-]. auto.
Qed.

End A15StatsFacts.

(** C5, as amended. [parse_stats] of the IPC script fails with
    [ValueError] exactly when the log has no cycle-count line, or no IPC
    line, or no instruction count with a positive last value, or a
    largest cycle count that is not positive; when it returns, its cycle
    count is the largest of the log and is positive.  [parse_cycles] of
    the performance script fails with [ValueError] when the log has no
    cycle-count line and the fallback has no ticks or no clock
    period > 0; it returns the cycle count whenever the cycle-count
    lines, or without them the fallback, give a positive one. *)
Theorem parse_failure_conditions :
  (forall stats_path f,
     (exists msg, A15Ipc.parse_stats stats_path f = Raise (ValueError msg)) <->
     A15ParseSpec.unusable (lines f)) /\
  (forall stats_path f ipc_max ipc_global n c,
     A15Ipc.parse_stats stats_path f = Return (ipc_max, ipc_global, n, c) ->
     c = max_int (all_values A15Ipc.CYC_RE (lines f)) /\ 0 < c) /\
  (forall stats_path f,
     no_line A15Performance.NUM_CYCLES_RE (lines f) ->
     A15ParseSpec.no_fallback (lines f) ->
     exists msg,
       A15Performance.parse_cycles stats_path f = Raise (ValueError msg)) /\
  (forall stats_path f v vs,
     all_values A15Performance.NUM_CYCLES_RE (lines f) = v :: vs ->
     0 < max_int (v :: vs) ->
     A15Performance.parse_cycles stats_path f = Return (max_int (v :: vs))) /\
  (forall stats_path f ticks period c,
     no_line A15Performance.NUM_CYCLES_RE (lines f) ->
     first_value A15Performance.SIM_TICKS_RE (lines f) = Some ticks ->
     clock_period A15Performance.CPU_CLOCK_RE A15Performance.SYS_CLOCK_RE
       (lines f) = Some period ->
     0 < period ->
     (q <- int_truediv ticks period ;; round q) = Return c ->
     0 < c ->
     A15Performance.parse_cycles stats_path f = Return c).
Proof.
  split; [ | split; [ | split; [ | split ] ] ].
  - exact A15StatsFacts.parse_stats_value_error.
  - intros stats_path f ipc_max ipc_global n c H.
    apply A15StatsFacts.parse_stats_returns in H. tauto.
  - intros stats_path f Hn Hf.
    apply A15ParseFacts.parse_cycles_value_error. split; assumption.
  - intros stats_path f v vs Hv _.
    unfold A15Performance.parse_cycles.
    rewrite A15ParseFacts.scan_cycles, Hv. reflexivity.
  - intros stats_path f ticks period c Hn Ht Hp Hpos Hq _.
    unfold A15Performance.parse_cycles.
    rewrite (A15ScanFacts.a15_scan_no_cycles f Hn).
    cbn [TicksScan.cpu_cycles TicksScan.sim_ticks TicksScan.cpu_clock
         TicksScan.sys_clock].
    rewrite Ht. unfold clock_period, or_else in Hp.
    rewrite Hp, (usable_period_pos _ Hpos). exact Hq.
Qed.

Lemma parse_failure_conditions_witness :
  (exists ipc_max ipc_global,
     A15Ipc.parse_stats "m16/w2_t1/stats.txt" two_insts_log =
     Return (ipc_max, ipc_global, 200, 600) /\
     600 = max_int (all_values A15Ipc.CYC_RE (lines two_insts_log)) /\ 0 < 600) /\
  (exists msg,
     A15Performance.parse_cycles "m16/w2_t1/stats.txt"
       {| st_size := 10; lines := ["sim_seconds 1"] |}
     = Raise (ValueError msg)) /\
  A15Performance.parse_cycles "m16/w2_t1/stats.txt" no_ipc_log = Return 600 /\
  A15Performance.parse_cycles "m16/w2_t1/stats.txt" ticks_log = Return 500.
Proof.
  split; [ | split; [ | split ] ].
  - eexists. eexists. split; [ reflexivity | ].
    eapply (proj1 (proj2 parse_failure_conditions) "m16/w2_t1/stats.txt"
              two_insts_log).
    reflexivity.
  - apply (proj1 (proj2 (proj2 parse_failure_conditions))).
    + repeat constructor.
    + left. reflexivity.
  - apply (proj1 (proj2 (proj2 (proj2 parse_failure_conditions)))
             "m16/w2_t1/stats.txt" no_ipc_log 600 []).
    + reflexivity.
    + reflexivity.
  - apply (proj2 (proj2 (proj2 (proj2 parse_failure_conditions)))
             "m16/w2_t1/stats.txt" ticks_log 500000 1000 500).
    + repeat constructor.
    + reflexivity.
    + reflexivity.
    + lia.
    + reflexivity.
    + lia.
Defined.

(** C5, the claim as stated fails.  The log [no_ipc_log] gives a cycle
    count (600) and a positive instruction count (1200), and still
    [parse_stats] fails: it also wants an IPC line. *)
Lemma parse_stats_fails_without_ipc_line :
  all_values A15Ipc.CYC_RE (lines no_ipc_log) = [600] /\
  last_value A15Ipc.SIM_INS_RE (lines no_ipc_log) = Some 1200 /\
  A15Ipc.parse_stats "m16/w2_t1/stats.txt" no_ipc_log =
  Raise (ValueError "Aucune ligne IPC dans m16/w2_t1/stats.txt").
Proof. repeat split. Qed.

(** [parse_cycles] does not check that the count it returns is positive:
    the scripts that use it divide by a zero cycle count later on. *)
Example parse_cycles_returns_zero :
  A15Performance.parse_cycles "m16/w2_t1/stats.txt" zero_cycles_log = Return 0 /\
  A15Ipc.parse_stats "m16/w2_t1/stats.txt"
    {| st_size := 60;
       lines := ["system.cpu.numCycles 0"; "system.cpu.ipc 0.5"; "sim_insts 7"] |}
  = Raise (ValueError "Aucun cycle valide dans m16/w2_t1/stats.txt").
Proof. split; reflexivity. Qed.

(** ** The instruction count is the one of the last matching line *)

Lemma last_value_no_line (re : regex) (ls : list string) :
  no_line re ls -> last_value re ls = None.
Proof.
  induction 1 as [ | l ls Hl Hls IH ]; cbn; [ reflexivity | ].
  now rewrite IH, Hl.
Qed.

Lemma last_value_last_match (re : regex) (l : string) (m : groups)
  (post : list string) :
  re_match re (strip l) = Some m -> no_line re post ->
  forall pre,
    last_value re (pre ++ l :: post)%list = Some (group_int m "value").
Proof.
  intros Hm Hp pre. induction pre as [ | x pre IH ]; cbn [app last_value].
  - now rewrite (last_value_no_line _ _ Hp), Hm.
  - now rewrite IH.
Qed.

Module A7IpcMaxFacts.
Import A7IpcMax.

Lemma a7_CYC_not_SIM (s : string) (m : groups) :
  re_match CYC_RE s = Some m -> re_match SIM_INS_RE s = None.
Proof. intros H. other_head H "system.cpu". Qed.

Lemma a7_scan_lines_insts (ls : list string) :
  forall st,
    snd (fold_left scan_line ls st) =
    match last_value SIM_INS_RE ls with
    | Some v => v
    | None => snd st
    end.
Proof.
  induction ls as [ | l ls IH ]; intros [cy n]; [ reflexivity | ].
  cbn [fold_left last_value]. rewrite IH. clear IH. unfold scan_line.
  destruct (re_match CYC_RE (strip l)) as [ mc | ] eqn:Ec.
  - rewrite (a7_CYC_not_SIM _ _ Ec).
    destruct (last_value SIM_INS_RE ls); reflexivity.
  - destruct (re_match SIM_INS_RE (strip l));
      destruct (last_value SIM_INS_RE ls); reflexivity.
Qed.

Lemma a7_scan_insts (f : TextFile) :
  snd (scan f) = last_or_zero SIM_INS_RE (lines f).
Proof. unfold scan. now rewrite a7_scan_lines_insts. Qed.

Lemma parse_config_insts (stats_path : string) (f : TextFile)
  (ipc_global : float) (n c : Z) :
  parse_config stats_path f = Return (ipc_global, n, c) ->
  n = last_or_zero SIM_INS_RE (lines f).
Proof.
  unfold parse_config. rewrite <- a7_scan_insts.
  destruct (scan f) as [cy k]. cbn [snd].
  destruct cy; [ discriminate | ].
  destruct (k <=? 0); [ discriminate | ].
  destruct (max_int _ <=? 0); [ discriminate | ].
  destruct (int_truediv _ _); cbn [bind]; [ | discriminate ].
  now intros [= _ <- _].
Qed.

End A7IpcMaxFacts.

(** C6. When the instruction-count label is on several lines of the
    log, the count that [parse_stats] (Cortex-A15) and [parse_config]
    (Cortex-A7) keep, and return, is the value of the last of these
    lines, not a sum: for the lines [sim_insts 100] and [sim_insts 200]
    it is 200. *)
Theorem instruction_count_last_line_wins :
  forall stats_path f pre l post m,
    lines f = (pre ++ l :: post)%list ->
    re_match A15Ipc.SIM_INS_RE (strip l) = Some m ->
    no_line A15Ipc.SIM_INS_RE post ->
    A15Ipc.insts (A15Ipc.scan f) = group_int m "value" /\
    snd (A7IpcMax.scan f) = group_int m "value" /\
    (forall ipc_max ipc_global n c,
       A15Ipc.parse_stats stats_path f = Return (ipc_max, ipc_global, n, c) ->
       n = group_int m "value") /\
    (forall ipc_global n c,
       A7IpcMax.parse_config stats_path f = Return (ipc_global, n, c) ->
       n = group_int m "value").
Proof.
  intros stats_path f pre l post m Hl Hm Hp.
  assert (Hv : last_or_zero A15Ipc.SIM_INS_RE (lines f) = group_int m "value").
  { unfold last_or_zero. now rewrite Hl, (last_value_last_match _ _ _ _ Hm Hp). }
  repeat split.
  - now rewrite A15IpcFacts.scan_spec.
  - rewrite A7IpcMaxFacts.a7_scan_insts. exact Hv.
  - intros ipc_max ipc_global n c H.
    apply A15StatsFacts.parse_stats_returns in H.
    destruct H as (_ & _ & -> & _). exact Hv.
  - intros ipc_global n c H.
    apply A7IpcMaxFacts.parse_config_insts in H. subst n. exact Hv.
Qed.

Lemma instruction_count_last_line_wins_witness :
  A15Ipc.insts (A15Ipc.scan two_insts_log) = 200 /\
  snd (A7IpcMax.scan two_insts_log) = 200 /\
  (forall ipc_max ipc_global n c,
     A15Ipc.parse_stats "m16/w2_t1/stats.txt" two_insts_log
       = Return (ipc_max, ipc_global, n, c) -> n = 200) /\
  (forall ipc_global n c,
     A7IpcMax.parse_config "m16/w2_t1/stats.txt" two_insts_log
       = Return (ipc_global, n, c) -> n = 200).
Proof.
  pose proof (instruction_count_last_line_wins "m16/w2_t1/stats.txt"
                two_insts_log
                ["sim_insts 100"; "system.cpu.numCycles 600"; "system.cpu.ipc 0.5"]
                "sim_insts 200" [] [("value", "200")]
                eq_refl eq_refl (Forall_nil _)) as (H1 & H2 & H3 & H4).
  split; [ exact H1 | split; [ exact H2 | split; [ exact H3 | exact H4 ] ] ].
Defined.

(** ** Greedy runs of digits *)

Import DirSpec.

Lemma consumed_app (ds r : string) : consumed (ds ++ r) r = ds.
Proof.
  unfold consumed.
  replace (String.length (ds ++ r) - String.length r)%nat with (String.length ds).
  - induction ds as [ | a ds IH ]; cbn.
    + destruct r; reflexivity.
    + now rewrite IH.
  - induction ds as [ | a ds IH ]; cbn [String.length String.append].
    + now rewrite Nat.sub_diag.
    + rewrite Nat.sub_succ_l; [ now rewrite <- IH | ].
      clear IH. induction ds as [ | b ds IHd ]; cbn; [ apply le_n | ].
      now apply le_S.
Qed.

Lemma star_digits_greedy (k : option ascii -> string -> option groups)
  (r : string) (g : groups) :
  digit_ahead r = false ->
  (forall p, k p r = Some g) ->
  forall ds prev,
    all_digits ds = true -> star Digit prev (ds ++ r) k = Some g.
Proof.
  intros Hr Hk ds. induction ds as [ | a ds IH ]; intros prev Hd.
  - cbn [String.append]. destruct r as [ | b r ]; cbn [star]; [ apply Hk | ].
    cbn in Hr. cbn [in_class]. rewrite Hr. apply Hk.
  - cbn in Hd. apply andb_prop in Hd. destruct Hd as [Ha Hd].
    cbn [String.append star in_class]. rewrite Ha, (IH _ Hd). reflexivity.
Qed.

(** A group [(\d+)] in front of a number takes the whole number when
    the rest of the expression accepts what follows. *)
Lemma run_group_number (name ds r : string) (g g' : groups) (k : cont) :
  number ds -> digit_ahead r = false ->
  (forall p, k p r ((name, ds) :: g) = Some g') ->
  forall prev, run (Group name (Plus Digit)) prev (ds ++ r) g k = Some g'.
Proof.
  intros [Hd Hne] Hr Hk prev. cbn [run].
  destruct ds as [ | a ds ]; [ now contradict Hne | ].
  cbn in Hd. apply andb_prop in Hd. destruct Hd as [Ha Hd].
  cbn [String.append in_class]. rewrite Ha.
  apply star_digits_greedy; [ assumption | | assumption ].
  intros p. change (String a (ds ++ r)) with (String a ds ++ r).
  rewrite consumed_app. apply Hk.
Qed.

Lemma lit_none (p : string) :
  forall prev s, String.prefix p s = false -> lit p prev s = None.
Proof.
  induction p as [ | a p IH ]; intros prev s H.
  - destruct s; discriminate.
  - destruct s as [ | b s ]; [ reflexivity | ].
    cbn [String.prefix] in H. cbn [lit].
    destruct (Ascii.ascii_dec a b) as [ -> | Hn ].
    + rewrite Ascii.eqb_refl. now apply IH.
    + apply Ascii.eqb_neq in Hn. now rewrite Hn.
Qed.

(** One step of [run] at a time. *)

Lemma run_seq (r1 r2 : regex) prev s g k :
  run (Seq r1 r2) prev s g k =
  run r1 prev s g (fun prev' s' g' => run r2 prev' s' g' k).
Proof. reflexivity. Qed.

Lemma lit_app (p : string) :
  forall prev s, lit p prev (p ++ s) = Some (last_read p prev, s).
Proof.
  induction p as [ | a p IH ]; intros prev s; cbn; [ reflexivity | ].
  now rewrite Ascii.eqb_refl, IH.
Qed.

Lemma run_lit_app (p : string) prev s g k :
  run (Lit p) prev (p ++ s) g k = k (last_read p prev) s g.
Proof. cbn [run]. now rewrite lit_app. Qed.

Lemma run_lit_none (p : string) prev s g k :
  String.prefix p s = false -> run (Lit p) prev s g k = None.
Proof. intros H. cbn [run]. now rewrite lit_none. Qed.

Lemma run_opt_some (r : regex) prev s g k g' :
  run r prev s g k = Some g' -> run (Opt r) prev s g k = Some g'.
Proof. intros H. cbn [run]. now rewrite H. Qed.

Lemma run_opt_none (r : regex) prev s g k :
  run r prev s g k = None -> run (Opt r) prev s g k = k prev s g.
Proof. intros H. cbn [run]. now rewrite H. Qed.

Lemma run_alt_some (r1 r2 : regex) prev s g k g' :
  run r1 prev s g k = Some g' -> run (Alt r1 r2) prev s g k = Some g'.
Proof. intros H. cbn [run]. now rewrite H. Qed.

Module A7DirFacts.

Lemma speedup_cpus_name (t n rest : string) :
  number t -> number n ->
  re_match A7Speedup.DIR_RE (cpus_name t n rest)
  = Some [("cpus", n); ("threads", t)].
Proof.
  intros Ht Hn. unfold re_match, A7Speedup.DIR_RE, cpus_name. cbn [seq].
  rewrite run_seq, run_lit_app, run_seq.
  apply run_group_number; [ assumption | reflexivity | ].
  intros p. rewrite run_seq. apply run_opt_some.
  rewrite run_seq, run_lit_app.
  apply run_group_number; [ assumption | reflexivity | ].
  intros q. now rewrite run_lit_app.
Qed.

Lemma cycles_cpus_name (t n rest : string) :
  number t -> number n ->
  re_match A7Cycles.DIR_RE (cpus_name t n rest)
  = Some [("cpus", n); ("threads", t)].
Proof.
  intros Ht Hn. unfold re_match, A7Cycles.DIR_RE, cpus_name. cbn [seq].
  rewrite run_seq, run_lit_app, run_seq.
  apply run_group_number; [ assumption | reflexivity | ].
  intros p. rewrite run_seq. apply run_opt_some.
  rewrite run_seq, run_lit_app.
  apply run_group_number; [ assumption | reflexivity | ].
  intros q. apply run_alt_some. now rewrite run_lit_app.
Qed.

Lemma speedup_plain_name (t rest : string) :
  number t -> String.prefix "cpus" rest = false ->
  re_match A7Speedup.DIR_RE (plain_name t rest) = Some [("threads", t)].
Proof.
  intros Ht Hr. unfold re_match, A7Speedup.DIR_RE, plain_name. cbn [seq].
  rewrite run_seq, run_lit_app, run_seq.
  apply run_group_number; [ assumption | reflexivity | ].
  intros p. rewrite run_seq, run_opt_none.
  - now rewrite run_lit_app.
  - rewrite run_seq. apply run_lit_none. exact Hr.
Qed.

Lemma cycles_plain_name (t rest : string) :
  number t -> String.prefix "cpus" rest = false ->
  re_match A7Cycles.DIR_RE (plain_name t rest) = Some [("threads", t)].
Proof.
  intros Ht Hr. unfold re_match, A7Cycles.DIR_RE, plain_name. cbn [seq].
  rewrite run_seq, run_lit_app, run_seq.
  apply run_group_number; [ assumption | reflexivity | ].
  intros p. rewrite run_seq, run_opt_none.
  - apply run_alt_some. now rewrite run_lit_app.
  - rewrite run_seq. apply run_lit_none. exact Hr.
Qed.

End A7DirFacts.

(** ** The stable sort *)

Import OrderSpec.

Section SortFacts.
Context {A : Type} (lt : A -> A -> bool).
Hypothesis lt_asym : forall x y, lt x y = true -> lt y x = false.

Lemma insert_hd (x y : A) (l : list A) :
  (before lt) y x -> HdRel (before lt) y l -> HdRel (before lt) y (Seqs.insert lt x l).
Proof.
  intros Hyx Hl. destruct l as [ | z l ]; cbn.
  - now constructor.
  - apply HdRel_inv in Hl. destruct (lt z x); now constructor.
Qed.

Lemma insert_sorted (x : A) (l : list A) :
  Sorted (before lt) l -> Sorted (before lt) (Seqs.insert lt x l).
Proof.
  induction 1 as [ | y l Hs IH Hh ]; cbn.
  - repeat constructor.
  - destruct (lt y x) eqn:E.
    + constructor; [ exact IH | ].
      apply insert_hd; [ | exact Hh ]. unfold before. now apply lt_asym.
    + repeat constructor; assumption.
Qed.

Lemma sort_sorted (l : list A) : Sorted (before lt) (Seqs.sort lt l).
Proof.
  induction l as [ | x l IH ]; cbn; [ constructor | ].
  now apply insert_sorted.
Qed.

Lemma insert_perm (x : A) (l : list A) :
  Permutation (x :: l) (Seqs.insert lt x l).
Proof.
  induction l as [ | y l IH ]; cbn; [ reflexivity | ].
  destruct (lt y x); [ | reflexivity ].
  rewrite perm_swap. now constructor.
Qed.

Lemma sort_perm (l : list A) : Permutation l (Seqs.sort lt l).
Proof.
  induction l as [ | x l IH ]; cbn; [ constructor | ].
  rewrite <- insert_perm. now constructor.
Qed.

(** Items that the order does not tell apart keep their order. *)
Section Stable.
Variable P : A -> bool.
Hypothesis P_ties : forall x y, P x = true -> P y = true -> lt x y = false.

Lemma insert_filter (x : A) (l : list A) :
  filter P (Seqs.insert lt x l) = filter P (x :: l).
Proof.
  induction l as [ | y l IH ]; [ reflexivity | ].
  cbn [Seqs.insert]. destruct (lt y x) eqn:E; [ | reflexivity ].
  cbn [filter] in *. rewrite IH.
  destruct (P x) eqn:Px; [ | reflexivity ].
  destruct (P y) eqn:Py; [ | reflexivity ].
  rewrite (P_ties y x Py Px) in E. discriminate.
Qed.

Lemma sort_filter (l : list A) : filter P (Seqs.sort lt l) = filter P l.
Proof.
  induction l as [ | x l IH ]; [ reflexivity | ].
  cbn [Seqs.sort]. rewrite insert_filter. cbn [filter]. now rewrite IH.
Qed.

End Stable.
End SortFacts.

(** ** The order of names *)

Import OrderSpec.

Lemma ascii_compare_trans (a b c : ascii) (o : comparison) :
  Ascii.compare a b = o -> Ascii.compare b c = o -> Ascii.compare a c = o.
Proof.
  unfold Ascii.compare. destruct o.
  - rewrite !N.compare_eq_iff. congruence.
  - rewrite !N.compare_lt_iff. lia.
  - rewrite !N.compare_gt_iff. lia.
Qed.

Lemma ascii_compare_eq (a b : ascii) : Ascii.compare a b = Eq -> a = b.
Proof.
  unfold Ascii.compare. rewrite N.compare_eq_iff. intros H.
  rewrite <- (ascii_N_embedding a), <- (ascii_N_embedding b). now rewrite H.
Qed.

Lemma string_lt_trans (s1 : string) :
  forall s2 s3,
    String.compare s1 s2 = Lt -> String.compare s2 s3 = Lt ->
    String.compare s1 s3 = Lt.
Proof.
  induction s1 as [ | a s1 IH ]; intros [ | b s2 ] [ | c s3 ]; cbn;
    try discriminate; try reflexivity.
  destruct (Ascii.compare a b) eqn:Eab; try discriminate;
    destruct (Ascii.compare b c) eqn:Ebc; try discriminate; intros H1 H2.
  - apply ascii_compare_eq in Eab, Ebc. subst.
    rewrite (proj2 (N.compare_eq_iff _ _) eq_refl : Ascii.compare c c = Eq).
    eapply IH; eassumption.
  - apply ascii_compare_eq in Eab. subst. now rewrite Ebc.
  - apply ascii_compare_eq in Ebc. subst. now rewrite Eab.
  - now rewrite (ascii_compare_trans _ _ _ _ Eab Ebc).
Qed.

Lemma name_le_trans (a b c : string) : name_le a b -> name_le b c -> name_le a c.
Proof.
  unfold name_le, String.leb. intros Hab Hbc.
  destruct (String.compare a c) eqn:Eac; try reflexivity. exfalso.
  assert (Hca : String.compare c a = Lt).
  { rewrite String.compare_antisym, Eac. reflexivity. }
  destruct (String.compare a b) eqn:Eab; try discriminate.
  - apply String.compare_eq_iff in Eab. subst b. now rewrite Eac in Hbc.
  - destruct (String.compare b c) eqn:Ebc; try discriminate.
    + apply String.compare_eq_iff in Ebc. subst c. congruence.
    + pose proof (string_lt_trans _ _ _ Eab Ebc). congruence.
Qed.

Lemma ltb_false_name_le (a b : string) : String.ltb b a = false -> name_le a b.
Proof.
  unfold String.ltb, name_le, String.leb.
  rewrite (String.compare_antisym a b).
  destruct (String.compare b a); cbn; congruence.
Qed.

Lemma ltb_asym (a b : string) : String.ltb a b = true -> String.ltb b a = false.
Proof.
  unfold String.ltb. rewrite (String.compare_antisym a b).
  destruct (String.compare b a); cbn; congruence.
Qed.

(** ** The loop over the directories *)

Import SweepSpec.

Section SweepFacts.
Context {P : Type}.
Variable visit : list P * list string -> Entry -> result (list P * list string).
Variable folder : P -> string.

(** A visit only appends to the two lists. *)
Hypothesis visit_shift :
  forall p0 w0 e,
    visit (p0, w0) e =
    (d <- visit ([], []) e ;; Return ((p0 ++ fst d)%list, (w0 ++ snd d)%list)).

Lemma for_each_shift (es : list Entry) :
  forall p0 w0,
    for_each visit es (p0, w0) =
    (d <- sweep visit es ;; Return ((p0 ++ fst d)%list, (w0 ++ snd d)%list)).
Proof.
  unfold sweep. induction es as [ | e es IH ]; intros p0 w0.
  - cbn. now rewrite !app_nil_r.
  - cbn [for_each]. rewrite (visit_shift p0 w0 e).
    destruct (visit ([], []) e) as [ [dp dw] | x ]; cbn [bind fst snd]; [ | reflexivity ].
    rewrite (IH (p0 ++ dp)%list (w0 ++ dw)%list), (IH dp dw).
    destruct (for_each visit es ([], [])) as [ [ep ew] | x ]; cbn [bind fst snd];
      [ | reflexivity ].
    now rewrite !app_assoc.
Qed.

Lemma sweep_app (l1 l2 : list Entry) :
  sweep visit (l1 ++ l2) =
  (d1 <- sweep visit l1 ;; d2 <- sweep visit l2 ;;
   Return ((fst d1 ++ fst d2)%list, (snd d1 ++ snd d2)%list)).
Proof.
  unfold sweep at 1 2. generalize (@nil P, @nil string).
  induction l1 as [ | e l1 IH ]; intros [p0 w0].
  - cbn [app for_each bind]. apply for_each_shift.
  - cbn [app for_each]. destruct (visit (p0, w0) e) as [ st | x ]; cbn [bind];
      [ apply IH | reflexivity ].
Qed.

(** A directory that only gives a warning leaves the rest of the sweep
    as it is. *)
Lemma sweep_around (pre post : list Entry) (e : Entry) (w : string) :
  visit ([], []) e = Return ([], [w]) ->
  sweep visit (pre ++ e :: post) = around visit pre w post.
Proof.
  intros He. unfold around. rewrite sweep_app.
  destruct (sweep visit pre) as [ [p1 w1] | x ]; cbn [bind fst snd]; [ | reflexivity ].
  unfold sweep at 1. cbn [for_each]. rewrite He. cbn [bind].
  rewrite for_each_shift.
  destruct (sweep visit post) as [ [p2 w2] | x ]; reflexivity.
Qed.

(** A visit gives at most one point, named after the directory. *)
Hypothesis visit_point :
  forall e d,
    visit ([], []) e = Return d ->
    fst d = [] \/ exists p, fst d = [p] /\ folder p = name e.

Lemma sweep_folders (es : list Entry) :
  forall d,
    sweep visit es = Return d -> subseq (map folder (fst d)) (map name es).
Proof.
  induction es as [ | e es IH ]; intros d H.
  - injection H as <-. constructor.
  - change (e :: es) with ([e] ++ es)%list in H. rewrite sweep_app in H.
    unfold sweep at 1 in H. cbn [for_each] in H.
    destruct (visit ([], []) e) as [ d1 | x ] eqn:Ev; [ | discriminate ].
    cbn [bind] in H.
    destruct (sweep visit es) as [ d2 | x ]; [ | discriminate ].
    cbn [bind] in H. injection H as <-. cbn [fst map].
    specialize (IH _ eq_refl).
    destruct (visit_point _ _ Ev) as [ -> | (p & -> & Hp) ]; cbn [app map].
    + now constructor.
    + rewrite Hp. now constructor.
Qed.

End SweepFacts.

Lemma subseq_forall {A : Type} (Q : A -> Prop) (l1 l2 : list A) :
  subseq l1 l2 -> Forall Q l2 -> Forall Q l1.
Proof.
  induction 1 as [ | x l1 l2 Hs IH | x l1 l2 Hs IH ]; intros H.
  - constructor.
  - apply IH. now apply Forall_inv_tail in H.
  - constructor; [ now apply Forall_inv in H | ].
    apply IH. now apply Forall_inv_tail in H.
Qed.

Lemma subseq_strongly_sorted {A : Type} (R : A -> A -> Prop) (l1 l2 : list A) :
  subseq l1 l2 -> StronglySorted R l2 -> StronglySorted R l1.
Proof.
  induction 1 as [ | x l1 l2 Hs IH | x l1 l2 Hs IH ]; intros H.
  - constructor.
  - apply StronglySorted_inv in H. tauto.
  - apply StronglySorted_inv in H. destruct H as [H1 H2].
    constructor; [ auto | ]. eapply subseq_forall; eassumption.
Qed.

Lemma subseq_filter {A : Type} (f : A -> bool) (l : list A) :
  subseq (filter f l) l.
Proof.
  induction l as [ | x l IH ]; cbn; [ constructor | ].
  destruct (f x); now constructor.
Qed.

Lemma strongly_sorted_map {A B : Type} (R : B -> B -> Prop) (f : A -> B)
  (l : list A) :
  StronglySorted R (map f l) -> StronglySorted (fun x y => R (f x) (f y)) l.
Proof.
  induction l as [ | x l IH ]; cbn; intros H; [ constructor | ].
  apply StronglySorted_inv in H. destruct H as [H1 H2].
  constructor; [ auto | ]. now rewrite Forall_map in H2.
Qed.

(** The entries are visited in the order of their names. *)
Lemma sorted_entries_names (l : list Entry) :
  StronglySorted name_le (map name (sorted_entries l)).
Proof.
  unfold sorted_entries.
  pose proof (sort_sorted (fun a b => String.ltb (name a) (name b))
                (fun x y => ltb_asym _ _) l) as H.
  apply Sorted_StronglySorted in H.
  - induction H as [ | x l' Hs IH Hf ]; cbn; constructor; [ exact IH | ].
    rewrite Forall_map. eapply Forall_impl; [ | exact Hf ].
    intros y Hy. now apply ltb_false_name_le.
  - intros x y z. unfold before. intros H1 H2.
    apply ltb_false_name_le in H1, H2.
    pose proof (name_le_trans _ _ _ H1 H2) as H3.
    unfold name_le, String.leb in H3. unfold String.ltb.
    rewrite (String.compare_antisym (name z) (name x)).
    destruct (String.compare (name x) (name z)); cbn; congruence.
Qed.

Lemma sorted_impl {A : Type} (R1 R2 : A -> A -> Prop) (l : list A) :
  (forall x y, R1 x y -> R2 x y) -> Sorted R1 l -> Sorted R2 l.
Proof.
  intros Hr. induction 1 as [ | x l Hs IH Hh ]; constructor; [ exact IH | ].
  destruct Hh; constructor; auto.
Qed.

Ltac shift_done :=
  cbn [bind fst snd]; unfold append; cbn [app]; rewrite ?app_nil_r; reflexivity.

Module A7SweepFacts.
Import A7Speedup PointOrder.

Lemma a7_visit_shift (p0 : list Point) (w0 : list string) (e : Entry) :
  visit (p0, w0) e =
  (d <- visit ([], []) e ;; Return ((p0 ++ fst d)%list, (w0 ++ snd d)%list)).
Proof.
  unfold visit.
  destruct (negb (is_dir e)); [ shift_done | ].
  destruct (re_match DIR_RE (name e)); [ | shift_done ].
  destruct (stats_txt e) as [ f | ]; [ | shift_done ].
  destruct (st_size f =? 0); [ shift_done | ].
  destruct (parse_cycles _ f) as [ c | [ msg | msg | | | ] ]; shift_done.
Qed.

Lemma a7_visit_point (e : Entry) (d : State) :
  visit ([], []) e = Return d ->
  fst d = [] \/ exists p, fst d = [p] /\ folder p = name e.
Proof.
  unfold visit. cbv beta iota.
  destruct (negb (is_dir e)); [ intros [= <-]; now left | ].
  destruct (re_match DIR_RE (name e)); [ | intros [= <-]; now left ].
  destruct (stats_txt e) as [ f | ]; [ | intros [= <-]; now left ].
  destruct (st_size f =? 0); [ intros [= <-]; now left | ].
  destruct (parse_cycles _ f) as [ c | [ msg | msg | | | ] ];
    intros [= <-]; cbn; eauto.
Qed.

Lemma a7_collect_sweep (root : Root) (pts : list Point) (ws : list string) :
  collect_points root = Return (pts, ws) ->
  exists l visited,
    listing root = Some l /\
    sweep visit (sorted_entries l) = Return (visited, ws) /\
    pts = sort_points visited.
Proof.
  unfold collect_points. destruct (listing root) as [ l | ]; [ | discriminate ].
  destruct (for_each visit (sorted_entries l) ([], [])) as [ [visited ws'] | x ] eqn:E;
    cbn [bind fst snd]; [ | discriminate ].
  intros [= <- <-]. exists l, visited. auto.
Qed.

Lemma a7_visited_by_folder (l : list Entry) (d : State) :
  sweep visit (sorted_entries l) = Return d ->
  StronglySorted a7_by_folder (fst d).
Proof.
  intros H. apply (sweep_folders visit folder a7_visit_shift a7_visit_point) in H.
  apply (strongly_sorted_map name_le folder).
  eapply subseq_strongly_sorted; [ exact H | apply sorted_entries_names ].
Qed.

End A7SweepFacts.

Module A15SweepFacts.
Import A15Performance PointOrder.

Lemma a15_visit_shift (mt : option Z) (p0 : list Point) (w0 : list string)
  (e : Entry) :
  visit mt (p0, w0) e =
  (d <- visit mt ([], []) e ;; Return ((p0 ++ fst d)%list, (w0 ++ snd d)%list)).
Proof.
  unfold visit.
  destruct (negb (is_dir e)); [ shift_done | ].
  destruct (parse_dir_name (name e)) as [ [w t] | ]; [ | shift_done ].
  destruct (over_max mt t); [ shift_done | ].
  destruct (bad_status e); [ shift_done | ].
  destruct (stats_txt e) as [ f | ]; [ | shift_done ].
  destruct (st_size f =? 0); [ shift_done | ].
  destruct (parse_cycles _ f) as [ c | [ msg | msg | | | ] ]; shift_done.
Qed.

Lemma a15_visit_point (mt : option Z) (e : Entry) (d : State) :
  visit mt ([], []) e = Return d ->
  fst d = [] \/ exists p, fst d = [p] /\ folder p = name e.
Proof.
  unfold visit. cbv beta iota.
  destruct (negb (is_dir e)); [ intros [= <-]; now left | ].
  destruct (parse_dir_name (name e)) as [ [w t] | ]; [ | intros [= <-]; now left ].
  destruct (over_max mt t); [ intros [= <-]; now left | ].
  destruct (bad_status e); [ intros [= <-]; now left | ].
  destruct (stats_txt e) as [ f | ]; [ | intros [= <-]; now left ].
  destruct (st_size f =? 0); [ intros [= <-]; now left | ].
  destruct (parse_cycles _ f) as [ c | [ msg | msg | | | ] ];
    intros [= <-]; cbn; eauto.
Qed.

Lemma a15_collect_sweep (root : Root) (mt : option Z) (pts : list Point)
  (ws : list string) :
  collect_points root mt = Return (pts, ws) ->
  exists l visited,
    listing root = Some l /\
    sweep (visit mt) (sorted_entries l) = Return (visited, ws) /\
    pts = sort_points visited.
Proof.
  unfold collect_points. destruct (listing root) as [ l | ]; [ | discriminate ].
  destruct (for_each (visit mt) (sorted_entries l) ([], [])) as [ [visited ws'] | x ] eqn:E;
    cbn [bind fst snd]; [ | discriminate ].
  intros [= <- <-]. exists l, visited. auto.
Qed.

Lemma a15_visited_by_folder (mt : option Z) (l : list Entry) (d : State) :
  sweep (visit mt) (sorted_entries l) = Return d ->
  StronglySorted a15_by_folder (fst d).
Proof.
  intros H.
  apply (sweep_folders (visit mt) folder (a15_visit_shift mt) (a15_visit_point mt)) in H.
  apply (strongly_sorted_map name_le folder).
  eapply subseq_strongly_sorted; [ exact H | apply sorted_entries_names ].
Qed.

Lemma key_ltb_asym (p q : Point) : key_ltb p q = true -> key_ltb q p = false.
Proof.
  unfold key_ltb. intros H.
  apply orb_true_iff in H. apply orb_false_iff.
  rewrite andb_false_iff, Z.ltb_ge, Z.eqb_neq, Z.ltb_ge.
  rewrite andb_true_iff, Z.ltb_lt, Z.eqb_eq, Z.ltb_lt in H. lia.
Qed.

Lemma key_before (p q : Point) : before key_ltb p q -> a15_by_key p q.
Proof.
  unfold before, key_ltb, a15_by_key. intros H.
  apply orb_false_iff in H.
  rewrite andb_false_iff, Z.ltb_ge, Z.eqb_neq, Z.ltb_ge in H. lia.
Qed.

End A15SweepFacts.

(** C7, the claim as stated fails.  The directories [t10_run] and
    [t2_run] are in this order by name, and the scanner puts the point
    of [t2_run] first; so for [w10_t1] and [w2_t1]. *)
Lemma collected_points_not_in_name_order :
  String.ltb "t10_run" "t2_run" = true /\
  (exists pts,
     A7Speedup.collect_points PointOrder.a7_root = Return (pts, []) /\
     map A7Speedup.folder pts = ["t2_run"; "t10_run"]) /\
  String.ltb "w10_t1" "w2_t1" = true /\
  (exists pts,
     A15Performance.collect_points PointOrder.a15_root None = Return (pts, []) /\
     map A15Performance.folder pts = ["w2_t1"; "w10_t1"]).
Proof.
  split; [ reflexivity | split ].
  - eexists. split; vm_compute; reflexivity.
  - split; [ reflexivity | ]. eexists. split; vm_compute; reflexivity.
Qed.

Import StatusSpec.

Lemma strip_keeps_ok (text : string) :
  startswith text "OK" = true -> startswith (strip text) "OK" = true.
Proof.
  unfold startswith.
  destruct text as [ | a [ | b r ] ]; cbn [String.prefix]; try discriminate.
  { destruct (Ascii.ascii_dec "O" a); discriminate. }
  destruct (Ascii.ascii_dec "O" a) as [ <- | ]; [ | discriminate ].
  destruct (Ascii.ascii_dec "K" b) as [ <- | ]; [ | discriminate ].
  intros _. unfold strip. cbn [lstrip isspace]. cbn.
  destruct (rstrip r); reflexivity.
Qed.

Module A15IpcSweepFacts.
Import A15Ipc.

Lemma ipc_visit_shift (sim : string) (mt : option Z) (p0 : list Point)
  (w0 : list string) (e : Entry) :
  visit sim mt (p0, w0) e =
  (d <- visit sim mt ([], []) e ;;
   Return ((p0 ++ fst d)%list, (w0 ++ snd d)%list)).
Proof.
  unfold visit.
  destruct (negb (is_dir e)); [ shift_done | ].
  destruct (re_match DIR_RE (name e)); [ | shift_done ].
  destruct (A15Performance.over_max mt _); [ shift_done | ].
  destruct (A15Performance.bad_status e); [ shift_done | ].
  destruct (stats_txt e) as [ f | ]; [ | shift_done ].
  destruct (st_size f =? 0); [ shift_done | ].
  destruct (parse_stats _ f) as [ [[[a b] c] d] | [ msg | msg | | | ] ]; shift_done.
Qed.

End A15IpcSweepFacts.

Lemma bad_status_some (e : Entry) (text : string) :
  status_txt e = Some text -> startswith (strip text) "OK" = false ->
  A15Performance.bad_status e = Some (strip text).
Proof.
  intros He Hs. unfold A15Performance.bad_status. now rewrite He, Hs.
Qed.

Lemma bad_status_ok (e : Entry) (text : string) :
  status_txt e = Some text -> startswith (strip text) "OK" = true ->
  A15Performance.bad_status e = None.
Proof.
  intros He Hs. unfold A15Performance.bad_status. now rewrite He, Hs.
Qed.

(** C8, as amended. For a configuration directory of a Cortex-A15 sweep
    (its name follows the grammar and its thread count is within the
    bound) that holds a status marker: when the text of the marker,
    stripped of the white space around it, does not begin with [OK],
    the directory gives no point and the one warning
    [<name>: ignore (<stripped text>)], and the sweep goes on; when the
    stripped text begins with [OK], which it does when the text itself
    begins with [OK], the directory is treated as if it had no
    marker. *)
Theorem failed_status_marker_excludes :
  forall max_threads e text,
    status_txt e = Some text ->
    (in_sweep max_threads e ->
     (startswith (strip text) "OK" = false ->
      A15Performance.visit max_threads ([], []) e
        = Return ([], [ignore_warning e (strip text)]) /\
      forall pre post,
        sweep (A15Performance.visit max_threads) (pre ++ e :: post) =
        around (A15Performance.visit max_threads) pre
          (ignore_warning e (strip text)) post) /\
     (startswith (strip text) "OK" = true ->
      forall st,
        A15Performance.visit max_threads st e =
        A15Performance.visit max_threads st (without_status e))) /\
    (forall simulation,
       in_ipc_sweep max_threads e ->
       (startswith (strip text) "OK" = false ->
        A15Ipc.visit simulation max_threads ([], []) e
          = Return ([], [simulation ++ "/" ++ ignore_warning e (strip text)]) /\
        forall pre post,
          sweep (A15Ipc.visit simulation max_threads) (pre ++ e :: post) =
          around (A15Ipc.visit simulation max_threads) pre
            (simulation ++ "/" ++ ignore_warning e (strip text)) post) /\
       (startswith (strip text) "OK" = true ->
        forall st,
          A15Ipc.visit simulation max_threads st e =
          A15Ipc.visit simulation max_threads st (without_status e))) /\
    (startswith text "OK" = true -> startswith (strip text) "OK" = true).
Proof.
  intros mt e text He. split; [ | split; [ | apply strip_keeps_ok ] ].
  - intros (Hd & w & t & Hn & Hm). split.
    + intros Hs.
      assert (Hv : A15Performance.visit mt ([], []) e
                   = Return ([], [ignore_warning e (strip text)])).
      { unfold A15Performance.visit.
        rewrite Hd, Hn, Hm, (bad_status_some e text He Hs). reflexivity. }
      split; [ exact Hv | ]. intros pre post.
      apply sweep_around; [ apply A15SweepFacts.a15_visit_shift | exact Hv ].
    + intros Hs [pts ws]. unfold A15Performance.visit.
      cbn [name is_dir stats_txt path without_status].
      rewrite (bad_status_ok e text He Hs). reflexivity.
  - intros sim (Hd & m & Hn & Hm). split.
    + intros Hs.
      assert (Hv : A15Ipc.visit sim mt ([], []) e
                   = Return ([], [sim ++ "/" ++ ignore_warning e (strip text)])).
      { unfold A15Ipc.visit.
        rewrite Hd, Hn, Hm, (bad_status_some e text He Hs). reflexivity. }
      split; [ exact Hv | ]. intros pre post.
      apply sweep_around; [ apply A15IpcSweepFacts.ipc_visit_shift | exact Hv ].
    + intros Hs [pts ws]. unfold A15Ipc.visit.
      cbn [name is_dir stats_txt path without_status].
      rewrite (bad_status_ok e text He Hs). reflexivity.
Qed.

Lemma failed_status_marker_excludes_witness :
  A15Performance.visit (Some 8) ([], []) failed_dir
  = Return ([], ["w1_t4: ignore (FAILED: oom)"]).
Proof.
  refine (proj1 (proj1 (proj1 (failed_status_marker_excludes (Some 8) failed_dir
                                 _ eq_refl) _) eq_refl)).
  split; [ reflexivity | ]. exists 1, 4. split; reflexivity.
Defined.

(** C8, the claim as stated fails.  The marker of [w1_t2] is [OK] after
    a blank: its content does not begin with [OK], and the directory is
    kept, without a warning. *)
Lemma marker_after_blank_is_accepted :
  in_sweep None blank_ok_dir /\
  status_txt blank_ok_dir = Some " OK" /\
  startswith " OK" "OK" = false /\
  A15Performance.collect_points blank_ok_root None
  = Return ([A15Performance.new_point 1 2 600 "w1_t2"], []).
Proof.
  split; [ | repeat split ].
  split; [ reflexivity | ]. exists 1, 2. split; reflexivity.
Qed.

(** Every entry of the directory is visited. *)
Lemma sorted_entries_split (l : list Entry) (e : Entry) :
  In e l -> exists pre post, sorted_entries l = (pre ++ e :: post)%list.
Proof.
  intros H. apply in_split. unfold sorted_entries.
  eapply Permutation_in; [ apply sort_perm | exact H ].
Qed.

Module A7ZeroFacts.
Import A7Speedup.

Lemma a7_visit_empty_log (e : Entry) (f : TextFile) :
  in_a7_sweep e -> stats_txt e = Some f -> st_size f = 0 ->
  visit ([], []) e = Return ([], [empty_warning e]).
Proof.
  intros (Hd & m & Hm) Hf Hz. unfold visit.
  rewrite Hd, Hm, Hf, Hz. reflexivity.
Qed.

Lemma a7_collect_unfold (root : Root) (l : list Entry) :
  listing root = Some l ->
  collect_points root =
  (st <- sweep visit (sorted_entries l) ;; Return (sort_points (fst st), snd st)).
Proof. intros H. unfold collect_points. now rewrite H. Qed.

End A7ZeroFacts.

Module A15ZeroFacts.
Import A15Performance.

Lemma a15_visit_empty_log (mt : option Z) (e : Entry) (f : TextFile) :
  in_sweep mt e -> stats_txt e = Some f -> st_size f = 0 ->
  exists w,
    visit mt ([], []) e = Return ([], [w]) /\
    (bad_status e = None -> w = empty_warning e).
Proof.
  intros (Hd & w & t & Hn & Hm) Hf Hz. unfold visit.
  rewrite Hd, Hn, Hm. cbn [negb].
  destruct (bad_status e) as [ status | ].
  - eexists. split; [ reflexivity | discriminate ].
  - rewrite Hf, Hz. eexists. split; reflexivity.
Qed.

Lemma a15_collect_unfold (root : Root) (mt : option Z) (l : list Entry) :
  listing root = Some l ->
  collect_points root mt =
  (st <- sweep (visit mt) (sorted_entries l) ;;
   Return (sort_points (fst st), snd st)).
Proof. intros H. unfold collect_points. now rewrite H. Qed.

End A15ZeroFacts.

(** C9. A configuration directory whose [stats.txt] has size zero gives
    one warning and no point, whatever reading the file would yield,
    and the sweep goes on: the outcome of [collect_points] is made of
    what the directories visited before it and after it give, with that
    warning in between.  The warning is [<name>: stats.txt vide], not a
    message of the parser (in the Cortex-A15 script, unless the status
    marker of the directory already excluded it with its own
    warning). *)
Theorem zero_byte_log_warns_and_continues :
  forall root l e f,
    listing root = Some l -> In e l ->
    stats_txt e = Some f -> st_size f = 0 ->
    exists pre post,
      sorted_entries l = (pre ++ e :: post)%list /\
      (in_a7_sweep e ->
       A7Speedup.visit ([], []) e = Return ([], [empty_warning e]) /\
       A7Speedup.collect_points root =
       (st <- around A7Speedup.visit pre (empty_warning e) post ;;
        Return (A7Speedup.sort_points (fst st), snd st))) /\
      (forall max_threads,
         in_sweep max_threads e ->
         exists w,
           A15Performance.visit max_threads ([], []) e = Return ([], [w]) /\
           (A15Performance.bad_status e = None -> w = empty_warning e) /\
           A15Performance.collect_points root max_threads =
           (st <- around (A15Performance.visit max_threads) pre w post ;;
            Return (A15Performance.sort_points (fst st), snd st))).
Proof.
  intros root l e f Hl Hin Hf Hz.
  destruct (sorted_entries_split l e Hin) as (pre & post & Hs).
  exists pre, post. split; [ exact Hs | split ].
  - intros He.
    pose proof (A7ZeroFacts.a7_visit_empty_log e f He Hf Hz) as Hv.
    split; [ exact Hv | ].
    rewrite (A7ZeroFacts.a7_collect_unfold root l Hl), Hs.
    now rewrite (sweep_around _ A7SweepFacts.a7_visit_shift pre post e _ Hv).
  - intros mt He.
    destruct (A15ZeroFacts.a15_visit_empty_log mt e f He Hf Hz) as (w & Hv & Hw).
    exists w. split; [ exact Hv | split; [ exact Hw | ] ].
    rewrite (A15ZeroFacts.a15_collect_unfold root mt l Hl), Hs.
    now rewrite (sweep_around _ (A15SweepFacts.a15_visit_shift mt) pre post e _ Hv).
Qed.

Lemma zero_byte_log_warns_and_continues_witness :
  exists pre post,
    sorted_entries empty_log_listing = (pre ++ empty_log_dir "t2_run" :: post)%list /\
    A7Speedup.visit ([], []) (empty_log_dir "t2_run")
      = Return ([], ["t2_run: stats.txt vide"]) /\
    A7Speedup.collect_points empty_log_root =
    (st <- around A7Speedup.visit pre "t2_run: stats.txt vide" post ;;
     Return (A7Speedup.sort_points (fst st), snd st)).
Proof.
  destruct (zero_byte_log_warns_and_continues empty_log_root empty_log_listing
              (empty_log_dir "t2_run") {| st_size := 0; lines := [] |}
              eq_refl (or_intror (or_introl eq_refl)) eq_refl eq_refl)
    as (pre & post & Hs & Ha7 & _).
  exists pre, post. split; [ exact Hs | ].
  apply Ha7. split; [ reflexivity | ]. eexists. reflexivity.
Defined.

Module A7PointFacts.

Lemma speedup_visit_point (st st' : A7Speedup.State) (e : Entry) (m : groups) :
  re_match A7Speedup.DIR_RE (name e) = Some m ->
  A7Speedup.visit st e = Return st' ->
  fst st' = fst st \/
  exists c,
    fst st' = (fst st ++ [A7Speedup.new_point (A7Speedup.dir_threads m) c (name e)])%list.
Proof.
  intros Hm. destruct st as [pts ws]. unfold A7Speedup.visit. rewrite Hm.
  destruct (negb (is_dir e)); [ intros [= <-]; now left | ].
  destruct (stats_txt e) as [ f | ]; [ | intros [= <-]; now left ].
  destruct (st_size f =? 0); [ intros [= <-]; now left | ].
  destruct (A7Speedup.parse_cycles _ f) as [ c | [ msg | msg | | | ] ];
    intros [= <-]; cbn; unfold append; eauto.
Qed.

Lemma cycles_visit_point (st st' : A7Cycles.State) (e : Entry) (m : groups) :
  re_match A7Cycles.DIR_RE (name e) = Some m ->
  A7Cycles.visit st e = Return st' ->
  fst st' = fst st \/
  exists c, fst st' = (fst st ++ [(A7Cycles.dir_cpus m, c, name e)])%list.
Proof.
  intros Hm. destruct st as [pts ws]. unfold A7Cycles.visit. rewrite Hm.
  destruct (negb (is_dir e)); [ intros [= <-]; now left | ].
  destruct (stats_txt e) as [ f | ]; [ | intros [= <-]; now left ].
  destruct (st_size f =? 0); [ intros [= <-]; now left | ].
  destruct (A7Cycles.parse_cycles f) as [ [c src] | [ msg | msg | | | ] ];
    intros [= <-]; cbn; unfold append; eauto.
Qed.

End A7PointFacts.

(** * Further properties of the scripts *)

(** ** The floats that the metrics can be *)

Module MetricFloatFacts.
Import FloatSpec.

Lemma div_core_same (p : positive) :
  SFdiv_core_binary 53 1024 (Zpos p) 0 (Zpos p) 0 = (2 ^ 53, -53, loc_Exact).
Proof.
  unfold SFdiv_core_binary.
  replace (Z.sub (Z.add (Zdigits2 (Zpos p)) 0) (Z.add (Zdigits2 (Zpos p)) 0))
    with 0 by lia.
  change (Z.min (fexp 53 1024 0) (Z.sub 0 0)) with (-53).
  change (Z.sub (Z.sub 0 0) (-53)) with 53.
  cbv iota.
  rewrite Z.shiftl_mul_pow2 by lia.
  assert (H : Z.div_eucl (Z.pos p * 2 ^ 53) (Z.pos p) = (2 ^ 53, 0)).
  { rewrite (surjective_pairing (Z.div_eucl _ _)).
    change (fst (Z.div_eucl ?a ?b)) with (a / b).
    change (snd (Z.div_eucl ?a ?b)) with (a mod b).
    rewrite Z.mul_comm, Z.div_mul, Z.mod_mul by lia. reflexivity. }
  rewrite H. unfold new_location.
  destruct (Z.even (Z.pos p)); reflexivity.
Qed.

(** An int divided by itself is exactly [1.0]. *)
Lemma int_truediv_same (c : Z) : c <> 0 -> int_truediv c c = Return one.
Proof.
  intros Hc. unfold int_truediv.
  replace (c =? 0) with false by (symmetry; now apply Z.eqb_neq).
  destruct c as [ | p | p ]; [ now contradict Hc | | ];
    unfold fdiv; cbn [Z2SF SFdiv]; rewrite div_core_same; reflexivity.
Qed.

Lemma int_truediv_nonzero (a b : Z) (q : float) :
  int_truediv a b = Return q -> b <> 0.
Proof.
  unfold int_truediv. destruct (b =? 0) eqn:E; [ discriminate | ].
  intros _. now apply Z.eqb_neq.
Qed.

Lemma div_core_sign (mx my : positive) (ex ey : Z) :
  0 <= fst (fst (SFdiv_core_binary 53 1024 (Zpos mx) ex (Zpos my) ey)).
Proof.
  unfold SFdiv_core_binary.
  set (sh := Z.sub (Z.sub ex ey) _).
  set (m' := match sh with
             | Zpos _ => Z.shiftl (Zpos mx) sh
             | Z0 => Zpos mx
             | Zneg _ => Z0
             end).
  assert (Hm : 0 <= m').
  { subst m'. destruct sh; try lia. apply Z.shiftl_nonneg. lia. }
  pose proof (Z_div_mod m' (Zpos my) eq_refl) as Hd.
  destruct (Z.div_eucl m' (Zpos my)) as [q r]. cbn [fst].
  destruct Hd as [Hq Hr]. nia.
Qed.

(** A number divided by a non-zero number is not NaN. *)
Lemma fdiv_not_nan (x y : float) :
  not_nan x -> number y -> is_zero y = false -> not_nan (fdiv x y).
Proof.
  unfold not_nan, number, fdiv. intros Hx Hy Hz.
  destruct y as [ sy | sy | | sy my ey ]; try discriminate.
  destruct x as [ sx | sx | | sx mx ex ]; try discriminate; try reflexivity.
  cbn [SFdiv].
  pose proof (div_core_sign mx my ex ey) as Hq.
  destruct (SFdiv_core_binary 53 1024 (Zpos mx) ex (Zpos my) ey) as [[mz ez] lz].
  cbn [fst] in Hq.
  pose proof (FloatFacts.binary_round_aux_not_nan (xorb sx sy) mz ez lz Hq) as Hn.
  destruct (binary_round_aux 53 1024 (xorb sx sy) mz ez lz); try reflexivity.
  now contradict Hn.
Qed.

Lemma binary_normalize_not_nan (m e : Z) (sz : bool) :
  not_nan (binary_normalize 53 1024 m e sz).
Proof.
  unfold not_nan, binary_normalize, binary_round.
  destruct m as [ | p | p ]; [ reflexivity | | ];
    destruct (shl_align p e _) as [mz ez];
    match goal with
    | |- is_nan (binary_round_aux 53 1024 ?s (Zpos mz) ez loc_Exact) = false =>
        pose proof (FloatFacts.binary_round_aux_not_nan s (Zpos mz) ez loc_Exact
                      ltac:(lia)) as Hn;
        destruct (binary_round_aux 53 1024 s (Zpos mz) ez loc_Exact);
        try reflexivity; now contradict Hn
    end.
Qed.

(** The difference of two numbers is not NaN. *)
Lemma fsub_not_nan (x y : float) : number x -> number y -> not_nan (fsub x y).
Proof.
  unfold number, fsub. intros Hx Hy.
  destruct x as [ sx | sx | | sx mx ex ], y as [ sy | sy | | sy my ey ];
    try discriminate; cbn [SFsub]; try reflexivity.
  - destruct sx, sy; reflexivity.
  - apply binary_normalize_not_nan.
Qed.

Lemma int_truediv_number (a b : Z) (q : float) :
  int_truediv a b = Return q -> number q.
Proof.
  unfold int_truediv, number. destruct (b =? 0) eqn:Eb; [ discriminate | ].
  apply Z.eqb_neq in Eb. pose proof (FloatFacts.fdiv_ints_not_nan a b Eb) as Hn.
  destruct (fdiv (Z2SF a) (Z2SF b)) as [ s | s | | s m e ]; cbn;
    try discriminate; intros [= <-]; try reflexivity.
  now contradict Hn.
Qed.

Lemma float_of_int_number (n : Z) (y : float) :
  float_of_int n = Return y -> number y.
Proof.
  unfold float_of_int, number.
  pose proof (binary_normalize_not_nan n 0 false) as Hn. unfold not_nan in Hn.
  destruct (binary_normalize 53 1024 n 0 false); cbn in *;
    try discriminate; intros [= <-]; reflexivity.
Qed.

Lemma number_not_nan (x : float) : number x -> not_nan x.
Proof. unfold number, not_nan. destruct x; cbn; congruence. Qed.

Lemma float_truediv_not_nan (x y q : float) :
  not_nan x -> number y -> float_truediv x y = Return q -> not_nan q.
Proof.
  intros Hx Hy. unfold float_truediv.
  destruct (is_zero y) eqn:Ez; [ discriminate | ].
  intros [= <-]. now apply fdiv_not_nan.
Qed.

Lemma float_div_int_not_nan (x q : float) (n : Z) :
  not_nan x -> float_div_int x n = Return q -> not_nan q.
Proof.
  intros Hx. unfold float_div_int.
  destruct (float_of_int n) as [ y | e ] eqn:Ey; cbn [bind]; [ | discriminate ].
  apply float_truediv_not_nan; [ exact Hx | ].
  eapply float_of_int_number; eassumption.
Qed.

End MetricFloatFacts.

Lemma forall2_in_left {A B : Type} (R : A -> B -> Prop) (l1 : list A) (l2 : list B) (a : A) :
  Forall2 R l1 l2 -> In a l1 -> exists b, In b l2 /\ R a b.
Proof.
  induction 1 as [ | x y l1 l2 Hxy Hl IH ]; intros Hin; [ contradiction | ].
  destruct Hin as [ -> | Hin ].
  - exists y. split; [ now left | exact Hxy ].
  - destruct (IH Hin) as (b & Hb & Hr). exists b. split; [ now right | exact Hr ].
Qed.

Lemma is_baseline_in {P : Type} (threads : P -> Z) (pts : list P) (b : P) :
  Spec.is_baseline threads pts b -> In b pts.
Proof.
  intros [ (pre & post & -> & _) | [_ H] ].
  - apply in_or_app. right. now left.
  - destruct pts; [ discriminate | ]. injection H as ->. now left.
Qed.

Lemma speedup_of_same_cycles (c : Z) (s : float) :
  int_truediv c c = Return s -> s = FloatSpec.one.
Proof.
  intros H. pose proof (MetricFloatFacts.int_truediv_nonzero _ _ _ H) as Hc.
  rewrite (MetricFloatFacts.int_truediv_same c Hc) in H. now injection H.
Qed.

Lemma efficiency_of_one_thread (e : float) :
  float_div_int FloatSpec.one 1 = Return e -> e = FloatSpec.one.
Proof. intros H. vm_compute in H. now injection H. Qed.

(** X1. The baseline of a series has speedup exactly 1.0, and so has
    every point of the series with as many cycles; a baseline that ran
    on one thread has efficiency exactly 1.0.  This holds for the
    series of the Cortex-A7 script and for the series of each width of
    the Cortex-A15 script. *)
Theorem baseline_speedup_is_one :
  (forall pts out,
     A7Speedup.compute_metrics pts = Return out ->
     exists b o,
       Spec.is_baseline A7Speedup.threads pts b /\
       In o out /\ A7Metrics.same_run b o /\
       A7Speedup.speedup o = FloatSpec.one /\
       (A7Speedup.threads b = 1 -> A7Speedup.efficiency o = FloatSpec.one) /\
       Forall (fun o' => A7Speedup.cycles o' = A7Speedup.cycles b ->
                         A7Speedup.speedup o' = FloatSpec.one) out) /\
  (forall pts grouped,
     A15Performance.compute_metrics pts = Return grouped ->
     Forall2 (fun g out =>
                exists b o,
                  Spec.is_baseline A15Performance.threads
                    (A15Metrics.series (snd g)) b /\
                  In o (snd out) /\ A15Metrics.same_run b o /\
                  A15Performance.speedup o = FloatSpec.one /\
                  (A15Performance.threads b = 1 ->
                   A15Performance.efficiency o = FloatSpec.one) /\
                  Forall (fun o' =>
                            A15Performance.cycles o' = A15Performance.cycles b ->
                            A15Performance.speedup o' = FloatSpec.one)
                    (snd out))
       (A15Performance.group_points pts) grouped).
Proof.
  split.
  - intros pts out H. unfold A7Speedup.compute_metrics in H. bind_inv H.
    pose proof (A7MetricsFacts.a7_baseline_is_baseline _ _ E) as Hb.
    destruct (A7MetricsFacts.a7_metrics_loop_metrics _ _ _ _ H) as [Hs Hm].
    destruct (forall2_in_left _ _ _ a Hs (is_baseline_in _ _ _ Hb))
      as (o & Ho & Hr).
    assert (Hall : Forall (fun o' => A7Speedup.cycles o' = A7Speedup.cycles a ->
                                     A7Speedup.speedup o' = FloatSpec.one) out).
    { eapply Forall_impl; [ | exact Hm ]. intros o' [H1 _] Hc.
      rewrite Hc in H1. apply (speedup_of_same_cycles _ _ H1). }
    exists a, o. repeat split; try assumption; try apply Hr.
    + rewrite Forall_forall in Hall. apply Hall; [ exact Ho | apply Hr ].
    + intros Ht. rewrite Forall_forall in Hall, Hm.
      destruct (Hm o Ho) as [_ H2].
      rewrite (Hall o Ho (proj1 (proj2 Hr))) in H2.
      destruct Hr as (Hrt & _). rewrite Hrt, Ht in H2.
      now apply efficiency_of_one_thread.
  - intros pts grouped H.
    apply A15MetricsFacts.groups_loop_series in H.
    eapply Forall2_impl; [ | exact H ].
    intros g out (_ & b & Hb & Hs & Hm).
    destruct (forall2_in_left _ _ _ b Hs (is_baseline_in _ _ _ Hb))
      as (o & Ho & Hr).
    assert (Hall : Forall (fun o' =>
                             A15Performance.cycles o' = A15Performance.cycles b ->
                             A15Performance.speedup o' = FloatSpec.one)
                     (snd out)).
    { eapply Forall_impl; [ | exact Hm ]. intros o' [H1 _] Hc.
      rewrite Hc in H1. apply (speedup_of_same_cycles _ _ H1). }
    rewrite Forall_forall in Hm. destruct (Hm o Ho) as [H1 H2].
    destruct Hr as (Hw & Ht & Hc & Hf).
    assert (Hone : A15Performance.speedup o = FloatSpec.one).
    { rewrite Hc in H1. apply (speedup_of_same_cycles _ _ H1). }
    exists b, o.
    split; [ exact Hb | split; [ exact Ho | split; [ | split; [ exact Hone | split ] ] ] ].
    + repeat split; assumption.
    + intros Hb1. rewrite Hone, Ht, Hb1 in H2.
      now apply efficiency_of_one_thread.
    + exact Hall.
Qed.

Lemma baseline_speedup_is_one_witness :
  (exists out b o,
     A7Speedup.compute_metrics A7Metrics.example_series = Return out /\
     Spec.is_baseline A7Speedup.threads A7Metrics.example_series b /\
     In o out /\ A7Speedup.speedup o = FloatSpec.one) /\
  (exists grouped,
     A15Performance.compute_metrics A15Metrics.example_series = Return grouped /\
     Forall2 (fun g out =>
                exists b o,
                  Spec.is_baseline A15Performance.threads
                    (A15Metrics.series (snd g)) b /\
                  In o (snd out) /\ A15Metrics.same_run b o /\
                  A15Performance.speedup o = FloatSpec.one /\
                  (A15Performance.threads b = 1 ->
                   A15Performance.efficiency o = FloatSpec.one) /\
                  Forall (fun o' =>
                            A15Performance.cycles o' = A15Performance.cycles b ->
                            A15Performance.speedup o' = FloatSpec.one)
                    (snd out))
       (A15Performance.group_points A15Metrics.example_series) grouped).
Proof.
  split.
  - destruct (proj1 baseline_speedup_is_one A7Metrics.example_series _ eq_refl)
      as (b & o & Hb & Ho & _ & Hs & _).
    eexists. exists b, o. split; [ reflexivity | ]. auto.
  - eexists. split; [ vm_compute; reflexivity | ].
    apply (proj2 baseline_speedup_is_one A15Metrics.example_series).
    vm_compute. reflexivity.
Defined.

(** X2. The Cortex-A7 [compute_metrics] never stores a NaN: every
    speedup and local speedup it returns is a number (neither NaN nor
    an infinity), and every efficiency, local efficiency and marginal
    efficiency is not NaN. *)
Theorem compute_metrics_stores_no_nan :
  forall pts out,
    A7Speedup.compute_metrics pts = Return out ->
    Forall (fun o => FloatSpec.number (A7Speedup.speedup o) /\
                     FloatSpec.not_nan (A7Speedup.efficiency o)) out /\
    forall pre prev p post,
      out = (pre ++ prev :: p :: post)%list ->
      FloatSpec.when_set FloatSpec.number (A7Speedup.local_speedup p) /\
      FloatSpec.when_set FloatSpec.not_nan (A7Speedup.local_efficiency p) /\
      FloatSpec.when_set FloatSpec.not_nan (A7Speedup.marginal_efficiency p).
Proof.
  intros pts out H. unfold A7Speedup.compute_metrics in H. bind_inv H.
  destruct (A7MetricsFacts.a7_metrics_loop_metrics _ _ _ _ H) as [_ Hm].
  assert (Hnum : Forall (fun o => FloatSpec.number (A7Speedup.speedup o) /\
                                  FloatSpec.not_nan (A7Speedup.efficiency o)) out).
  { eapply Forall_impl; [ | exact Hm ]. intros o [H1 H2].
    pose proof (MetricFloatFacts.int_truediv_number _ _ _ H1) as Hs.
    split; [ exact Hs | ].
    eapply MetricFloatFacts.float_div_int_not_nan; [ | exact H2 ].
    now apply MetricFloatFacts.number_not_nan. }
  split; [ exact Hnum | ].
  intros pre prev p post Heq.
  assert (Hl : A7Metrics.has_local prev p).
  { destruct pts as [ | p0 pts ].
    - cbn in H. injection H as <-. destruct pre; discriminate.
    - apply A7MetricsFacts.metrics_loop_first in H.
      destruct H as (o & rest & -> & _ & Hc).
      destruct pre as [ | x pre ]; cbn in Heq; injection Heq as -> ->.
      + destruct Hc as [Hl _]. exact Hl.
      + eapply A7MetricsFacts.chain_adjacent; [ exact Hc | reflexivity ]. }
  rewrite Forall_forall in Hnum.
  assert (Hp : In p out) by (subst out; apply in_or_app; right; right; now left).
  assert (Hv : In prev out) by (subst out; apply in_or_app; right; now left).
  destruct (Hnum p Hp) as [Hsp _]. destruct (Hnum prev Hv) as [Hsv _].
  destruct Hl as (ls & le & me & E1 & E2 & E3 & D1 & D2 & D3).
  assert (Hls : FloatSpec.number ls)
    by (eapply MetricFloatFacts.int_truediv_number; exact D1).
  unfold FloatSpec.when_set. rewrite E1, E2, E3.
  split; [ | split ]; intros x [= <-].
  - exact Hls.
  - destruct (int_truediv (A7Speedup.threads p) (A7Speedup.threads prev))
      as [ ratio | e ] eqn:Er; cbn [bind] in D2; [ | discriminate ].
    eapply MetricFloatFacts.float_truediv_not_nan; [ | | exact D2 ].
    + now apply MetricFloatFacts.number_not_nan.
    + eapply MetricFloatFacts.int_truediv_number; exact Er.
  - eapply MetricFloatFacts.float_div_int_not_nan; [ | exact D3 ].
    now apply MetricFloatFacts.fsub_not_nan.
Qed.

Lemma compute_metrics_stores_no_nan_witness :
  exists out,
    A7Speedup.compute_metrics A7Metrics.example_series = Return out /\
    Forall (fun o => FloatSpec.number (A7Speedup.speedup o) /\
                     FloatSpec.not_nan (A7Speedup.efficiency o)) out.
Proof.
  eexists. split; [ reflexivity | ].
  apply (compute_metrics_stores_no_nan A7Metrics.example_series).
  reflexivity.
Defined.

(** ** Statistic lines *)

Module LineFacts.
Import LineSpec.

(** A greedy run over [a] continues after [a] when nothing shorter is
    accepted. *)
Lemma star_exact (c : charclass) (k : option ascii -> string -> option groups)
  (b : string) :
  class_ahead c b = false ->
  forall a prev,
    all_in c a = true ->
    (forall a1 a2, a = a1 ++ a2 -> a2 <> "" ->
                   k (last_read a1 prev) (a2 ++ b) = None) ->
    star c prev (a ++ b) k = k (last_read a prev) b.
Proof.
  intros Hb a. induction a as [ | x a IH ]; intros prev Ha Hk.
  - cbn [String.append last_read]. destruct b as [ | y b ]; [ reflexivity | ].
    cbn [star]. cbn in Hb. now rewrite Hb.
  - cbn in Ha. apply andb_prop in Ha. destruct Ha as [Hx Ha].
    cbn [String.append star last_read]. rewrite Hx.
    rewrite (IH (Some x) Ha).
    + destruct (k (last_read a (Some x)) b) eqn:E; [ reflexivity | ].
      exact (Hk "" (String x a) eq_refl ltac:(discriminate)).
    + intros a1 a2 -> Hne. exact (Hk (String x a1) a2 eq_refl Hne).
Qed.

Lemma all_in_app (c : charclass) (a1 a2 : string) :
  all_in c (a1 ++ a2) = true -> all_in c a2 = true.
Proof.
  induction a1 as [ | x a1 IH ]; cbn; [ auto | ].
  intros H. apply andb_prop in H. tauto.
Qed.

Lemma digit_is_word (x : ascii) : isdigit x = true -> isword x = true.
Proof. unfold isword. intros ->. now rewrite orb_true_r. Qed.

Lemma digit_not_space (x : ascii) : isdigit x = true -> isspace x = false.
Proof.
  unfold isdigit, isspace. intros H. apply andb_prop in H.
  rewrite !Z.leb_le in H. apply orb_false_iff.
  rewrite !andb_false_iff, !Z.leb_gt. lia.
Qed.

Lemma space_not_digit (x : ascii) : isspace x = true -> isdigit x = false.
Proof.
  intros H. destruct (isdigit x) eqn:E; [ | reflexivity ].
  apply digit_not_space in E. congruence.
Qed.

Lemma digit_not_dot (x : ascii) : isdigit x = true -> Ascii.eqb "." x = false.
Proof.
  intros H. destruct (Ascii.eqb_spec "."%char x) as [ <- | ]; [ | reflexivity ].
  discriminate H.
Qed.

Lemma word_before_last_read (a : string) :
  forall prev,
    word_before prev = true -> all_in Digit a = true ->
    word_before (last_read a prev) = true.
Proof.
  induction a as [ | x a IH ]; intros prev Hp Ha; [ exact Hp | ].
  cbn in Ha. apply andb_prop in Ha. destruct Ha as [Hx Ha].
  cbn [last_read]. apply IH; [ | exact Ha ]. cbn. now apply digit_is_word.
Qed.

Lemma run_plus_cons (c : charclass) (a : ascii) (s : string) prev g k :
  run (Plus c) prev (String a s) g k =
  if in_class c a then star c (Some a) s (fun prev' s' => k prev' s' g) else None.
Proof. reflexivity. Qed.

Lemma run_group (name : string) (r : regex) prev s g k :
  run (Group name r) prev s g k =
  run r prev s g (fun prev' s' g' => k prev' s' ((name, consumed s s') :: g')).
Proof. reflexivity. Qed.

Lemma run_wordb prev s g k :
  run WordB prev s g k =
  if xorb (word_before prev) (word_after s) then k prev s g else None.
Proof. reflexivity. Qed.

(** The value group followed by the word boundary. *)
Lemma run_value (ds rest : string) (g : groups) :
  value_before ds rest ->
  forall prev,
    run (Seq (Group "value" (Plus Digit)) WordB) prev (ds ++ rest) g
      (fun _ _ g' => Some g')
    = if word_after rest then None else Some (("value", ds) :: g).
Proof.
  intros (Hd & Hne & Hr) prev.
  destruct ds as [ | d ds ]; [ now contradict Hne | ].
  cbn in Hd. apply andb_prop in Hd. destruct Hd as [Hx Hd].
  rewrite run_seq, run_group. cbn [String.append]. rewrite run_plus_cons.
  cbn [in_class] in *. rewrite Hx.
  rewrite (star_exact Digit _ rest Hr ds (Some d) Hd).
  - change (String d (ds ++ rest)) with (String d ds ++ rest).
    rewrite consumed_app, run_wordb.
    rewrite (word_before_last_read ds (Some d)); [ | now apply digit_is_word | exact Hd ].
    destruct (word_after rest); reflexivity.
  - intros a1 a2 -> Hne2. rewrite run_wordb.
    assert (Ha1 : all_in Digit a1 = true).
    { clear - Hd. induction a1 as [ | y a1 IH ]; [ reflexivity | ].
      cbn in *. apply andb_prop in Hd. destruct Hd as [-> Hd]. now apply IH. }
    apply all_in_app in Hd.
    rewrite (word_before_last_read a1 (Some d)); [ | now apply digit_is_word | exact Ha1 ].
    destruct a2 as [ | y a2 ]; [ now contradict Hne2 | ].
    cbn in Hd. apply andb_prop in Hd. destruct Hd as [Hy _].
    cbn [String.append word_after]. now rewrite (digit_is_word _ Hy).
Qed.

(** Blanks, then the value. *)
Lemma run_blank_value (ws ds rest : string) (g : groups) :
  blank ws -> value_before ds rest ->
  forall prev,
    run (seq [Plus Space; Group "value" (Plus Digit); WordB]) prev
      (ws ++ ds ++ rest) g (fun _ _ g' => Some g')
    = if word_after rest then None else Some (("value", ds) :: g).
Proof.
  intros (Hw & Hne) Hv prev.
  destruct ws as [ | w ws ]; [ now contradict Hne | ].
  cbn in Hw. apply andb_prop in Hw. destruct Hw as [Hx Hw].
  cbn [seq]. rewrite run_seq. cbn [String.append]. rewrite run_plus_cons.
  cbn [in_class] in *. rewrite Hx.
  assert (Hahead : class_ahead Space (ds ++ rest) = false).
  { destruct Hv as (Hd & Hdn & _). destruct ds as [ | d ds ]; [ now contradict Hdn | ].
    cbn in *. apply andb_prop in Hd. destruct Hd as [Hd _].
    now apply digit_not_space. }
  rewrite (star_exact Space _ (ds ++ rest) Hahead ws (Some w) Hw).
  - cbv beta. now apply run_value.
  - intros a1 a2 -> Hne2. apply all_in_app in Hw.
    destruct a2 as [ | y a2 ]; [ now contradict Hne2 | ].
    cbn in Hw. apply andb_prop in Hw. destruct Hw as [Hy _].
    rewrite run_seq, run_group. cbn [String.append]. rewrite run_plus_cons.
    cbn [in_class]. now rewrite (space_not_digit _ Hy).
Qed.

Lemma label_line_match (label ws ds rest : string) :
  blank ws -> value_before ds rest ->
  re_match (stat_line (Lit label)) (label_line label ws ds rest)
  = value_match ds rest.
Proof.
  intros Hw Hv. unfold re_match, stat_line, label_line, value_match.
  change (seq [Lit label; Plus Space; Group "value" (Plus Digit); WordB])
    with (Seq (Lit label) (seq [Plus Space; Group "value" (Plus Digit); WordB])).
  rewrite run_seq, run_lit_app. cbv beta. now apply run_blank_value.
Qed.

Lemma cycles_line_match (idx ws ds rest : string) :
  all_in Digit idx = true -> blank ws -> value_before ds rest ->
  re_match (stat_line (seq [Lit "system.cpu"; Star Digit; Lit ".numCycles"]))
    (cycles_line idx ws ds rest)
  = value_match ds rest.
Proof.
  intros Hi Hw Hv. unfold re_match, stat_line, cycles_line, value_match.
  change (seq [seq [Lit "system.cpu"; Star Digit; Lit ".numCycles"];
               Plus Space; Group "value" (Plus Digit); WordB])
    with (Seq (Seq (Lit "system.cpu") (Seq (Star Digit) (Lit ".numCycles")))
              (seq [Plus Space; Group "value" (Plus Digit); WordB])).
  rewrite !run_seq, run_lit_app. cbv beta. rewrite run_seq.
  change (run (Star Digit) ?p ?s ?g ?k) with (star Digit p s (fun p' s' => k p' s' g)).
  rewrite (star_exact Digit _ (".numCycles" ++ ws ++ ds ++ rest) eq_refl idx _ Hi).
  - rewrite run_lit_app. now apply run_blank_value.
  - intros a1 a2 -> Hne. apply all_in_app in Hi.
    destruct a2 as [ | y a2 ]; [ now contradict Hne | ].
    cbn in Hi. apply andb_prop in Hi. destruct Hi as [Hy _].
    apply run_lit_none. cbn [String.append String.prefix].
    destruct (Ascii.ascii_dec "." y) as [ <- | ]; [ discriminate Hy | reflexivity ].
Qed.

End LineFacts.

(** X3. A statistic line is recognised by its label, any run of white
    space and the run of digits that follows, whatever comes after the
    digits, as long as it is not a letter, a digit or an underscore
    (then the line is rejected); the index after [system.cpu] may be
    any run of digits, also none.  The scanner of the speedup script
    appends the value of such a line to its cycle counts. *)
Theorem statistic_line_is_recognised :
  forall idx ws ds rest,
    LineSpec.all_in Digit idx = true ->
    LineSpec.blank ws -> LineSpec.value_before ds rest ->
    re_match A7Speedup.NUM_CYCLES_RE (LineSpec.cycles_line idx ws ds rest)
      = LineSpec.value_match ds rest /\
    re_match A15Ipc.SIM_INS_RE (LineSpec.label_line "sim_insts" ws ds rest)
      = LineSpec.value_match ds rest /\
    re_match A15Performance.SIM_TICKS_RE (LineSpec.label_line "sim_ticks" ws ds rest)
      = LineSpec.value_match ds rest /\
    re_match A15Performance.CPU_CLOCK_RE
      (LineSpec.label_line "system.cpu_clk_domain.clock" ws ds rest)
      = LineSpec.value_match ds rest /\
    re_match A15Performance.SYS_CLOCK_RE
      (LineSpec.label_line "system.clk_domain.clock" ws ds rest)
      = LineSpec.value_match ds rest /\
    (forall cycles line,
       strip line = LineSpec.cycles_line idx ws ds rest ->
       A7Speedup.scan_line cycles line =
       if word_after rest then cycles else append cycles (int ds)).
Proof.
  intros idx ws ds rest Hi Hw Hv.
  pose proof (LineFacts.cycles_line_match idx ws ds rest Hi Hw Hv) as Hc.
  split; [ exact Hc | ].
  split; [ exact (LineFacts.label_line_match "sim_insts" ws ds rest Hw Hv) | ].
  split; [ exact (LineFacts.label_line_match "sim_ticks" ws ds rest Hw Hv) | ].
  split; [ exact (LineFacts.label_line_match "system.cpu_clk_domain.clock"
                    ws ds rest Hw Hv) | ].
  split; [ exact (LineFacts.label_line_match "system.clk_domain.clock"
                    ws ds rest Hw Hv) | ].
  intros cycles line Hs. unfold A7Speedup.scan_line. rewrite Hs.
  unfold A7Speedup.NUM_CYCLES_RE. rewrite Hc. unfold LineSpec.value_match.
  destruct (word_after rest); reflexivity.
Qed.

Lemma statistic_line_is_recognised_witness :
  re_match A7Speedup.NUM_CYCLES_RE
    (LineSpec.cycles_line "12" "   " "600" "  # cycles")
  = Some [("value", "600")].
Proof.
  refine (proj1 (statistic_line_is_recognised "12" "   " "600" "  # cycles"
                   eq_refl _ _)).
  - split; [ reflexivity | discriminate ].
  - split; [ reflexivity | split; [ discriminate | reflexivity ] ].
Defined.

(** ** The largest cycle count *)

Lemma max_fold (l : list Z) :
  forall x,
    let m := fold_left (fun m y => if m <? y then y else m) l x in
    x <= m /\ Forall (fun y => y <= m) l /\ (m = x \/ In m l).
Proof.
  induction l as [ | y l IH ]; intros x; cbn.
  - repeat split; [ lia | constructor | now left ].
  - destruct (IH (if x <? y then y else x)) as (H1 & H2 & H3).
    destruct (x <? y) eqn:E; [ apply Z.ltb_lt in E | apply Z.ltb_ge in E ].
    + repeat split; [ lia | constructor; [ lia | exact H2 ] | ].
      destruct H3 as [ -> | H3 ]; right; [ now left | now right ].
    + repeat split; [ lia | constructor; [ lia | exact H2 ] | ].
      destruct H3 as [ H3 | H3 ]; [ now left | right; now right ].
Qed.

(** [max] of a non-empty list is one of its items and bounds them. *)
Lemma max_int_largest (v : Z) (vs : list Z) :
  In (max_int (v :: vs)) (v :: vs) /\
  Forall (fun y => y <= max_int (v :: vs)) (v :: vs).
Proof.
  unfold max_int. destruct (max_fold vs v) as (H1 & H2 & H3). split.
  - destruct H3 as [ -> | H3 ]; [ now left | now right ].
  - now constructor.
Qed.

Module A7ParseFacts.
Import A7Speedup.

Lemma a7_scan_values (ls : list string) :
  forall cs, fold_left scan_line ls cs = (cs ++ all_values NUM_CYCLES_RE ls)%list.
Proof.
  induction ls as [ | l ls IH ]; intros cs.
  - cbn. now rewrite app_nil_r.
  - cbn [fold_left]. rewrite IH. unfold scan_line, all_values.
    cbn [all_matches].
    destruct (re_match NUM_CYCLES_RE (strip l)); [ | reflexivity ].
    unfold append. cbn [map]. now rewrite <- app_assoc.
Qed.

Lemma a7_parse_cycles_values (stats_path : string) (f : TextFile) :
  parse_cycles stats_path f =
  match all_values NUM_CYCLES_RE (lines f) with
  | [] => Raise (ValueError ("Aucune ligne numCycles trouvee dans " ++ stats_path))
  | v :: vs => Return (max_int (v :: vs))
  end.
Proof.
  unfold parse_cycles. rewrite a7_scan_values. cbn [app].
  destruct (all_values NUM_CYCLES_RE (lines f)); reflexivity.
Qed.

End A7ParseFacts.

(** X4. The cycle count of a log that has cycle-count lines is the
    largest of their values, in the three [parse_cycles]; the ticks and
    clock lines of the log play no part then.  Without such a line the
    speedup script has no fallback and fails. *)
Theorem cycle_count_is_the_largest :
  forall stats_path f v vs,
    (all_values A7Speedup.NUM_CYCLES_RE (lines f) = v :: vs ->
     exists c,
       A7Speedup.parse_cycles stats_path f = Return c /\
       In c (v :: vs) /\ Forall (fun y => y <= c) (v :: vs)) /\
    (all_values A15Performance.NUM_CYCLES_RE (lines f) = v :: vs ->
     exists c,
       A15Performance.parse_cycles stats_path f = Return c /\
       In c (v :: vs) /\ Forall (fun y => y <= c) (v :: vs)) /\
    (all_values A7Cycles.NUM_CYCLES_RE (lines f) = v :: vs ->
     exists c,
       A7Cycles.parse_cycles f = Return (c, "max(system.cpu*.numCycles)") /\
       In c (v :: vs) /\ Forall (fun y => y <= c) (v :: vs)) /\
    (no_line A7Speedup.NUM_CYCLES_RE (lines f) ->
     A7Speedup.parse_cycles stats_path f =
     Raise (ValueError ("Aucune ligne numCycles trouvee dans " ++ stats_path))).
Proof.
  intros stats_path f v vs.
  destruct (max_int_largest v vs) as [Hin Hle].
  split; [ | split; [ | split ] ].
  - intros Hv. exists (max_int (v :: vs)).
    rewrite A7ParseFacts.a7_parse_cycles_values, Hv. auto.
  - intros Hv. exists (max_int (v :: vs)).
    unfold A15Performance.parse_cycles.
    rewrite A15ParseFacts.scan_cycles, Hv. auto.
  - intros Hv. exists (max_int (v :: vs)).
    unfold A7Cycles.parse_cycles, A7Cycles.scan, TicksScan.scan.
    rewrite (scan_lines_cycles A7Cycles.NUM_CYCLES_RE A7Cycles.SIM_TICKS_RE
               A7Cycles.CPU_CLOCK_RE A7Cycles.SYS_CLOCK_RE eq_refl).
    cbn [TicksScan.cpu_cycles TicksScan.scan0 app]. rewrite Hv. auto.
  - intros Hn. apply all_values_nil in Hn.
    now rewrite A7ParseFacts.a7_parse_cycles_values, Hn.
Qed.

Lemma cycle_count_is_the_largest_witness :
  exists c,
    A7Speedup.parse_cycles "m16/t2_run/stats.txt"
      {| st_size := 60;
         lines := ["system.cpu0.numCycles 580"; "sim_ticks 7";
                   "system.cpu1.numCycles 600"] |} = Return c /\
    In c [580; 600] /\ Forall (fun y => y <= c) [580; 600].
Proof.
  refine (proj1 (cycle_count_is_the_largest "m16/t2_run/stats.txt"
                   {| st_size := 60;
                      lines := ["system.cpu0.numCycles 580"; "sim_ticks 7";
                                "system.cpu1.numCycles 600"] |} 580 [600]) eq_refl).
Defined.

(** ** Instructions per cycle *)

Lemma max_float_fold (l : list float) :
  forall x,
    let m := fold_left (fun m y => if fltb m y then y else m) l x in
    m = x \/ In m l.
Proof.
  induction l as [ | y l IH ]; intros x; cbn; [ now left | ].
  destruct (IH (if fltb x y then y else x)) as [ H | H ].
  - destruct (fltb x y); [ right; left; now symmetry | now left ].
  - right. now right.
Qed.

Lemma max_float_in (x : float) (l : list float) :
  In (max_float (x :: l)) (x :: l).
Proof.
  unfold max_float. destruct (max_float_fold l x) as [ -> | H ];
    [ now left | now right ].
Qed.

(** X5. What [parse_stats] returns: the global IPC is the quotient of
    the last instruction count by the largest cycle count, and is a
    number; the maximal IPC is one of the IPC readings of the log. *)
Theorem ipc_global_is_instructions_over_cycles :
  forall stats_path f ipc_max ipc_global n c,
    A15Ipc.parse_stats stats_path f = Return (ipc_max, ipc_global, n, c) ->
    int_truediv (last_or_zero A15Ipc.SIM_INS_RE (lines f))
      (max_int (all_values A15Ipc.CYC_RE (lines f))) = Return ipc_global /\
    FloatSpec.number ipc_global /\
    In ipc_max (map A15ParseSpec.ipc_of (all_matches A15Ipc.IPC_RE (lines f))).
Proof.
  intros stats_path f ipc_max ipc_global n c.
  unfold A15Ipc.parse_stats. rewrite A15IpcFacts.scan_spec.
  cbn [A15Ipc.cycles A15Ipc.ipc_vals A15Ipc.insts].
  destruct (all_values A15Ipc.CYC_RE (lines f)) as [ | c0 cs ]; [ discriminate | ].
  destruct (map A15ParseSpec.ipc_of _) as [ | i ivs ]; [ discriminate | ].
  destruct (_ <=? 0); [ discriminate | ].
  destruct (_ <=? 0); [ discriminate | ].
  destruct (int_truediv _ _) as [ q | e ] eqn:Eq; cbn [bind]; [ | discriminate ].
  intros [= <- <- _ _]. split; [ reflexivity | split ].
  - eapply MetricFloatFacts.int_truediv_number; exact Eq.
  - apply max_float_in.
Qed.

Lemma ipc_global_is_instructions_over_cycles_witness :
  exists ipc_max ipc_global,
    A15Ipc.parse_stats "m16/w2_t1/stats.txt" two_insts_log
      = Return (ipc_max, ipc_global, 200, 600) /\
    int_truediv 200 600 = Return ipc_global.
Proof.
  eexists. eexists. split; [ reflexivity | ].
  eapply (ipc_global_is_instructions_over_cycles "m16/w2_t1/stats.txt"
            two_insts_log).
  reflexivity.
Defined.

(** ** The per-core counts *)

Module DictFacts.
Import A7IpcMax DictSpec.

Lemma dict_get_set (d : list (string * Z)) (k k' : string) (v : Z) :
  dict_get (dict_set d k v) k' =
  if String.eqb k k' then Some v else dict_get d k'.
Proof.
  induction d as [ | [k0 v0] d IH ]; cbn.
  - destruct (String.eqb k k'); reflexivity.
  - destruct (String.eqb k0 k) eqn:E0; cbn.
    + apply String.eqb_eq in E0. subst k0.
      destruct (String.eqb k k'); reflexivity.
    + rewrite IH. destruct (String.eqb k0 k') eqn:E1; [ | reflexivity ].
      apply String.eqb_eq in E1. subst k0. now rewrite String.eqb_sym, E0.
Qed.

Lemma dict_set_keys (d : list (string * Z)) (k : string) (v : Z) (x : string) :
  In x (map fst (dict_set d k v)) <-> x = k \/ In x (map fst d).
Proof.
  induction d as [ | [k0 v0] d IH ]; cbn.
  - intuition.
  - destruct (String.eqb k0 k) eqn:E0; cbn.
    + apply String.eqb_eq in E0. subst k0. intuition.
    + rewrite IH. intuition.
Qed.

Lemma dict_set_nodup (d : list (string * Z)) (k : string) (v : Z) :
  NoDup (map fst d) -> NoDup (map fst (dict_set d k v)).
Proof.
  induction d as [ | [k0 v0] d IH ]; cbn; intros H.
  - repeat constructor. intros [].
  - apply NoDup_cons_iff in H. destruct H as [H1 H2].
    destruct (String.eqb k0 k) eqn:E0; cbn.
    + now constructor.
    + constructor; [ | now apply IH ].
      rewrite dict_set_keys. intros [ -> | H ]; [ | contradiction ].
      now rewrite String.eqb_refl in E0.
Qed.

Lemma dict_get_in (d : list (string * Z)) (k : string) (v : Z) :
  dict_get d k = Some v -> In v (map snd d).
Proof.
  induction d as [ | [k0 v0] d IH ]; cbn; [ discriminate | ].
  destruct (String.eqb k0 k); [ intros [= ->]; now left | auto ].
Qed.

Lemma dict_in_get (d : list (string * Z)) (v : Z) :
  NoDup (map fst d) -> In v (map snd d) -> exists k, dict_get d k = Some v.
Proof.
  induction d as [ | [k0 v0] d IH ]; cbn; intros Hn Hin; [ contradiction | ].
  apply NoDup_cons_iff in Hn. destruct Hn as [H1 H2].
  destruct Hin as [ -> | Hin ].
  - exists k0. now rewrite String.eqb_refl.
  - destruct (IH H2 Hin) as [k Hk]. exists k.
    destruct (String.eqb k0 k) eqn:E; [ | exact Hk ].
    apply String.eqb_eq in E. subst k0. exfalso. apply H1.
    clear - Hk. induction d as [ | [k1 v1] d IH ]; cbn in *; [ discriminate | ].
    destruct (String.eqb k1 k) eqn:E; [ left; now apply String.eqb_eq | right; auto ].
Qed.

Lemma scan_lines_dict (ls : list string) (cpu : string) :
  forall st,
    dict_get (fst (fold_left scan_line ls st)) cpu =
    match last_cpu_value cpu ls with
    | Some v => Some v
    | None => dict_get (fst st) cpu
    end.
Proof.
  induction ls as [ | l ls IH ]; intros [d n]; [ reflexivity | ].
  cbn [fold_left last_cpu_value]. rewrite IH. clear IH.
  destruct (last_cpu_value cpu ls); [ reflexivity | ].
  unfold scan_line.
  destruct (re_match CYC_RE (strip l)) as [ m | ].
  - cbn [fst]. rewrite dict_get_set.
    destruct (String.eqb (group_str m "cpu") cpu); reflexivity.
  - destruct (re_match SIM_INS_RE (strip l)); reflexivity.
Qed.

Lemma scan_lines_nodup (ls : list string) :
  forall st,
    NoDup (map fst (fst st)) ->
    NoDup (map fst (fst (fold_left scan_line ls st))).
Proof.
  induction ls as [ | l ls IH ]; intros [d n] H; [ exact H | ].
  cbn [fold_left]. apply IH. unfold scan_line.
  destruct (re_match CYC_RE (strip l)) as [ m | ].
  - cbn [fst]. now apply dict_set_nodup.
  - destruct (re_match SIM_INS_RE (strip l)); exact H.
Qed.

End DictFacts.

(** X6. [parse_config] keeps one cycle count per core: the count on the
    last cycle-count line of that core.  The cycle count it returns is
    the largest of these, so an earlier, larger count of a core that
    reported again is not taken into account. *)
Theorem per_core_count_is_the_last :
  forall stats_path f,
    (forall cpu,
       DictSpec.dict_get (fst (A7IpcMax.scan f)) cpu
       = DictSpec.last_cpu_value cpu (lines f)) /\
    NoDup (map fst (fst (A7IpcMax.scan f))) /\
    (forall ipc_global n c,
       A7IpcMax.parse_config stats_path f = Return (ipc_global, n, c) ->
       (exists cpu, DictSpec.last_cpu_value cpu (lines f) = Some c) /\
       (forall cpu v, DictSpec.last_cpu_value cpu (lines f) = Some v -> v <= c) /\
       int_truediv n c = Return ipc_global).
Proof.
  intros stats_path f.
  assert (Hget : forall cpu,
             DictSpec.dict_get (fst (A7IpcMax.scan f)) cpu
             = DictSpec.last_cpu_value cpu (lines f)).
  { intros cpu. unfold A7IpcMax.scan. rewrite DictFacts.scan_lines_dict.
    destruct (DictSpec.last_cpu_value cpu (lines f)); reflexivity. }
  assert (Hnd : NoDup (map fst (fst (A7IpcMax.scan f)))).
  { unfold A7IpcMax.scan. apply DictFacts.scan_lines_nodup. constructor. }
  split; [ exact Hget | split; [ exact Hnd | ] ].
  intros ipc_global n c. unfold A7IpcMax.parse_config.
  destruct (A7IpcMax.scan f) as [d k]. cbn [fst] in Hget, Hnd.
  destruct d as [ | [k0 v0] d ]; [ discriminate | ].
  destruct (k <=? 0); [ discriminate | ].
  destruct (max_int _ <=? 0); [ discriminate | ].
  destruct (int_truediv _ _) as [ q | e ] eqn:Eq; cbn [bind]; [ | discriminate ].
  intros [= <- <- <-].
  destruct (max_int_largest v0 (map snd d)) as [Hin Hle].
  change (v0 :: map snd d) with (map snd ((k0, v0) :: d)) in Hin, Hle.
  split; [ | split; [ | exact Eq ] ].
  - destruct (DictFacts.dict_in_get _ _ Hnd Hin) as [cpu Hc].
    exists cpu. now rewrite <- Hget.
  - intros cpu v Hv. rewrite <- Hget in Hv.
    apply DictFacts.dict_get_in in Hv.
    rewrite Forall_forall in Hle. now apply Hle.
Qed.

Lemma per_core_count_is_the_last_witness :
  exists ipc_global,
    A7IpcMax.parse_config "m16/t2_run/stats.txt" DictSpec.two_reports_log
      = Return (ipc_global, 1000, 500) /\
    DictSpec.last_cpu_value "0" (lines DictSpec.two_reports_log) = Some 100 /\
    (forall cpu v,
       DictSpec.last_cpu_value cpu (lines DictSpec.two_reports_log) = Some v ->
       v <= 500).
Proof.
  eexists. split; [ reflexivity | split; [ reflexivity | ] ].
  eapply (proj2 (proj2 (per_core_count_is_the_last "m16/t2_run/stats.txt"
                          DictSpec.two_reports_log))).
  reflexivity.
Defined.

(** ** What the sweep collects *)

Lemma permutation_filter {A : Type} (f : A -> bool) (l l' : list A) :
  Permutation l l' -> Permutation (filter f l) (filter f l').
Proof.
  induction 1 as [ | x l l' Hp IH | x y l | l l' l'' H1 IH1 H2 IH2 ]; cbn.
  - constructor.
  - destruct (f x); [ now constructor | exact IH ].
  - destruct (f x), (f y); try reflexivity. apply perm_swap.
  - now transitivity (filter f l').
Qed.

Section SweepContents.
Context {P : Type}.
Variable visit : list P * list string -> Entry -> result (list P * list string).
Hypothesis visit_shift :
  forall p0 w0 e,
    visit (p0, w0) e =
    (d <- visit ([], []) e ;; Return ((p0 ++ fst d)%list, (w0 ++ snd d)%list)).

Lemma sweep_cons (e : Entry) (es : list Entry) :
  sweep visit (e :: es) =
  (d1 <- visit ([], []) e ;; d2 <- sweep visit es ;;
   Return ((fst d1 ++ fst d2)%list, (snd d1 ++ snd d2)%list)).
Proof.
  unfold sweep at 1. cbn [for_each].
  destruct (visit ([], []) e) as [ [p1 w1] | x ]; cbn [bind fst snd]; [ | reflexivity ].
  apply for_each_shift. exact visit_shift.
Qed.

Variable counted : Entry -> bool.
Hypothesis visit_one :
  forall e d,
    visit ([], []) e = Return d ->
    (List.length (fst d) + List.length (snd d))%nat = if counted e then 1%nat else 0%nat.

Lemma sweep_count (es : list Entry) :
  forall d,
    sweep visit es = Return d ->
    (List.length (fst d) + List.length (snd d))%nat
    = List.length (filter counted es).
Proof.
  induction es as [ | e es IH ]; intros d H.
  - injection H as <-. reflexivity.
  - rewrite sweep_cons in H.
    destruct (visit ([], []) e) as [ d1 | x ] eqn:E1; [ | discriminate ].
    cbn [bind] in H.
    destruct (sweep visit es) as [ d2 | x ]; [ | discriminate ].
    cbn [bind] in H. injection H as <-. cbn [fst snd filter].
    rewrite !length_app. specialize (IH _ eq_refl).
    pose proof (visit_one _ _ E1) as H1.
    destruct (counted e); cbn [List.length]; lia.
Qed.

Variable yields : Entry -> P -> Prop.
Hypothesis visit_yields :
  forall e d,
    visit ([], []) e = Return d -> forall p, In p (fst d) <-> yields e p.

Lemma sweep_yields (es : list Entry) :
  forall d,
    sweep visit es = Return d ->
    forall p, In p (fst d) <-> exists e, In e es /\ yields e p.
Proof.
  induction es as [ | e es IH ]; intros d H p.
  - injection H as <-. cbn. split; [ contradiction | intros (e & [] & _) ].
  - rewrite sweep_cons in H.
    destruct (visit ([], []) e) as [ d1 | x ] eqn:E1; [ | discriminate ].
    cbn [bind] in H.
    destruct (sweep visit es) as [ d2 | x ]; [ | discriminate ].
    cbn [bind] in H. injection H as <-. cbn [fst].
    rewrite in_app_iff, (visit_yields _ _ E1 p), (IH _ eq_refl p). split.
    + intros [ Hy | (e' & He' & Hy) ].
      * exists e. split; [ now left | exact Hy ].
      * exists e'. split; [ now right | exact Hy ].
    + intros (e' & [ <- | He' ] & Hy); [ now left | right; eauto ].
Qed.

Variable Q : P -> Prop.
Hypothesis visit_keeps :
  forall e d, visit ([], []) e = Return d -> Forall Q (fst d).

Lemma sweep_keeps (es : list Entry) :
  forall d, sweep visit es = Return d -> Forall Q (fst d).
Proof.
  induction es as [ | e es IH ]; intros d H.
  - injection H as <-. constructor.
  - rewrite sweep_cons in H.
    destruct (visit ([], []) e) as [ d1 | x ] eqn:E1; [ | discriminate ].
    cbn [bind] in H.
    destruct (sweep visit es) as [ d2 | x ]; [ | discriminate ].
    cbn [bind] in H. injection H as <-. cbn [fst].
    apply Forall_app. split; [ eapply visit_keeps; eassumption | now apply IH ].
Qed.

End SweepContents.

Lemma sorted_entries_perm (l : list Entry) : Permutation l (sorted_entries l).
Proof. unfold sorted_entries. apply sort_perm. Qed.

Module A7CollectFacts.
Import A7Speedup CollectSpec.

Lemma a7_visit_one (e : Entry) (d : State) :
  visit ([], []) e = Return d ->
  (List.length (fst d) + List.length (snd d))%nat
  = if a7_counted e then 1%nat else 0%nat.
Proof.
  unfold visit, a7_counted. cbv beta iota.
  destruct (is_dir e); cbn [negb andb]; [ | intros [= <-]; reflexivity ].
  destruct (re_match DIR_RE (name e)); cbn [is_some];
    [ | intros [= <-]; reflexivity ].
  destruct (stats_txt e) as [ f | ]; [ | intros [= <-]; reflexivity ].
  destruct (st_size f =? 0); [ intros [= <-]; reflexivity | ].
  destruct (parse_cycles _ f) as [ c | [ msg | msg | | | ] ];
    intros [= <-]; reflexivity.
Qed.

Lemma a7_visit_yields (e : Entry) (d : State) :
  visit ([], []) e = Return d -> forall p, In p (fst d) <-> a7_yields e p.
Proof.
  unfold visit, a7_yields. cbv beta iota.
  destruct (is_dir e); cbn [negb].
  2: { intros [= <-] p. cbn. split; [ contradiction | intros [H _]; discriminate ]. }
  destruct (re_match DIR_RE (name e)) as [ m | ].
  2: { intros [= <-] p. cbn. split; [ contradiction | ].
       intros (_ & m & f & c & H & _). discriminate. }
  destruct (stats_txt e) as [ f | ].
  2: { intros [= <-] p. cbn. split; [ contradiction | ].
       intros (_ & m' & f & c & _ & H & _). discriminate. }
  destruct (st_size f =? 0) eqn:Ez.
  { intros [= <-] p. cbn. split; [ contradiction | ].
    intros (_ & m' & f' & c & _ & [= <-] & Hz & _).
    apply Z.eqb_eq in Ez. contradiction. }
  apply Z.eqb_neq in Ez.
  destruct (parse_cycles _ f) as [ c | [ msg | msg | | | ] ] eqn:Ep;
    intros [= <-] p; cbn; (split; [ | intros (_ & m' & f' & c' & [= <-] & [= <-] & _ & Hp & ->) ]);
      try contradiction; try congruence.
  - intros [ <- | [] ]. split; [ reflexivity | ]. exists m, f, c. auto.
  - left. congruence.
Qed.

End A7CollectFacts.

Module A15CollectFacts.
Import A15Performance CollectSpec.

Lemma a15_visit_one (mt : option Z) (e : Entry) (d : State) :
  visit mt ([], []) e = Return d ->
  (List.length (fst d) + List.length (snd d))%nat
  = if a15_counted mt e then 1%nat else 0%nat.
Proof.
  unfold visit, a15_counted. cbv beta iota.
  destruct (is_dir e); cbn [negb andb]; [ | intros [= <-]; reflexivity ].
  destruct (parse_dir_name (name e)) as [ [w t] | ];
    [ | intros [= <-]; reflexivity ].
  destruct (over_max mt t); cbn [negb]; [ intros [= <-]; reflexivity | ].
  destruct (bad_status e); [ intros [= <-]; reflexivity | ].
  destruct (stats_txt e) as [ f | ]; [ | intros [= <-]; reflexivity ].
  destruct (st_size f =? 0); [ intros [= <-]; reflexivity | ].
  destruct (parse_cycles _ f) as [ c | [ msg | msg | | | ] ];
    intros [= <-]; reflexivity.
Qed.

Lemma a15_visit_yields (mt : option Z) (e : Entry) (d : State) :
  visit mt ([], []) e = Return d ->
  forall p, In p (fst d) <-> a15_yields mt e p.
Proof.
  unfold visit, a15_yields. cbv beta iota.
  destruct (is_dir e); cbn [negb].
  2: { intros [= <-] p. cbn. split; [ contradiction | intros [H _]; discriminate ]. }
  destruct (parse_dir_name (name e)) as [ [w t] | ].
  2: { intros [= <-] p. cbn. split; [ contradiction | ].
       intros (_ & w & t & f & c & H & _). discriminate. }
  destruct (over_max mt t) eqn:Eo.
  { intros [= <-] p. cbn. split; [ contradiction | ].
    intros (_ & w' & t' & f & c & [= <- <-] & H & _). congruence. }
  destruct (bad_status e) as [ status | ].
  { intros [= <-] p. cbn. split; [ contradiction | ].
    intros (_ & w' & t' & f & c & _ & _ & H & _). discriminate. }
  destruct (stats_txt e) as [ f | ].
  2: { intros [= <-] p. cbn. split; [ contradiction | ].
       intros (_ & w' & t' & f & c & _ & _ & _ & H & _). discriminate. }
  destruct (st_size f =? 0) eqn:Ez.
  { intros [= <-] p. cbn. split; [ contradiction | ].
    intros (_ & w' & t' & f' & c & _ & _ & _ & [= <-] & Hz & _).
    apply Z.eqb_eq in Ez. contradiction. }
  apply Z.eqb_neq in Ez.
  destruct (parse_cycles _ f) as [ c | [ msg | msg | | | ] ] eqn:Ep;
    intros [= <-] p; cbn;
    (split; [ | intros (_ & w' & t' & f' & c' & [= <- <-] & _ & _ & [= <-] & _ & Hp & ->) ]);
      try contradiction; try congruence.
  - intros [ <- | [] ]. split; [ reflexivity | ]. exists w, t, f, c. auto 10.
  - left. congruence.
Qed.

Lemma a15_visit_keeps (mt : option Z) (e : Entry) (d : State) :
  visit mt ([], []) e = Return d ->
  Forall (fun p => over_max mt (threads p) = false) (fst d).
Proof.
  intros H. rewrite Forall_forall. intros p Hp.
  apply (a15_visit_yields mt e d H) in Hp.
  destruct Hp as (_ & w & t & f & c & _ & Ho & _ & _ & _ & _ & ->). exact Ho.
Qed.

End A15CollectFacts.

Module A15IpcCollectFacts.
Import A15Ipc.

Lemma ipc_visit_keeps (sim : string) (mt : option Z) (e : Entry) (d : State) :
  visit sim mt ([], []) e = Return d ->
  Forall (fun p => A15Performance.over_max mt (threads p) = false
                   /\ simulation p = sim) (fst d).
Proof.
  unfold visit. cbv beta iota.
  destruct (negb (is_dir e)); [ intros [= <-]; constructor | ].
  destruct (re_match DIR_RE (name e)); [ | intros [= <-]; constructor ].
  destruct (A15Performance.over_max mt _) eqn:Eo; [ intros [= <-]; constructor | ].
  destruct (A15Performance.bad_status e); [ intros [= <-]; constructor | ].
  destruct (stats_txt e) as [ f | ]; [ | intros [= <-]; constructor ].
  destruct (st_size f =? 0); [ intros [= <-]; constructor | ].
  destruct (parse_stats _ f) as [ [[[a b] c] d'] | [ msg | msg | | | ] ];
    intros [= <-]; cbn; repeat constructor. exact Eo.
Qed.

Lemma ipc_collect_sweep (root : Root) (sim : string) (mt : option Z)
  (l : list Entry) (pts : list Point) (ws : list string) :
  listing root = Some l ->
  collect root sim mt = Return (pts, ws) ->
  exists visited,
    sweep (visit sim mt) (sorted_entries l) = Return (visited, ws) /\
    pts = sort_points visited.
Proof.
  unfold collect. intros ->.
  destruct (for_each (visit sim mt) (sorted_entries l) ([], []))
    as [ [visited ws'] | x ] eqn:E; cbn [bind fst snd]; [ | discriminate ].
  intros [= <- <-]. exists visited. auto.
Qed.

End A15IpcCollectFacts.

(** X7. The points of a sweep are exactly what its directories give.
    A point is returned by the Cortex-A7 [collect_points] if and only if
    some entry of the root is a directory whose name follows the
    grammar and whose log, present and not empty, gives a cycle count;
    the point then carries the thread count of the name, that cycle
    count and the name.  The same holds for the Cortex-A15
    [collect_points], where the entry must also be within the thread
    bound and not excluded by its status marker. *)
Theorem collected_points_are_the_parsed_directories :
  (forall root pts ws,
     A7Speedup.collect_points root = Return (pts, ws) ->
     exists l,
       listing root = Some l /\
       forall p, In p pts <-> exists e, In e l /\ CollectSpec.a7_yields e p) /\
  (forall root mt pts ws,
     A15Performance.collect_points root mt = Return (pts, ws) ->
     exists l,
       listing root = Some l /\
       forall p, In p pts <-> exists e, In e l /\ CollectSpec.a15_yields mt e p).
Proof.
  split.
  - intros root pts ws H.
    destruct (A7SweepFacts.a7_collect_sweep _ _ _ H) as (l & visited & Hl & Hs & ->).
    exists l. split; [ exact Hl | ]. intros p.
    pose proof (sweep_yields A7Speedup.visit A7SweepFacts.a7_visit_shift
                  CollectSpec.a7_yields A7CollectFacts.a7_visit_yields
                  _ _ Hs p) as Hy.
    cbn [fst] in Hy. unfold A7Speedup.sort_points. split.
    + intros Hp.
      apply (Permutation_in p (Permutation_sym (sort_perm _ visited))) in Hp.
      apply Hy in Hp. destruct Hp as (e & He & Hp). exists e. split; [ | exact Hp ].
      apply (Permutation_in e (Permutation_sym (sorted_entries_perm l))). exact He.
    + intros (e & He & Hp).
      apply (Permutation_in p (sort_perm _ visited)). apply Hy.
      exists e. split; [ | exact Hp ].
      apply (Permutation_in e (sorted_entries_perm l)). exact He.
  - intros root mt pts ws H.
    destruct (A15SweepFacts.a15_collect_sweep _ _ _ _ H) as (l & visited & Hl & Hs & ->).
    exists l. split; [ exact Hl | ]. intros p.
    pose proof (sweep_yields (A15Performance.visit mt)
                  (A15SweepFacts.a15_visit_shift mt)
                  (CollectSpec.a15_yields mt) (A15CollectFacts.a15_visit_yields mt)
                  _ _ Hs p) as Hy.
    cbn [fst] in Hy. unfold A15Performance.sort_points. split.
    + intros Hp.
      apply (Permutation_in p (Permutation_sym (sort_perm _ visited))) in Hp.
      apply Hy in Hp. destruct Hp as (e & He & Hp). exists e. split; [ | exact Hp ].
      apply (Permutation_in e (Permutation_sym (sorted_entries_perm l))). exact He.
    + intros (e & He & Hp).
      apply (Permutation_in p (sort_perm _ visited)). apply Hy.
      exists e. split; [ | exact Hp ].
      apply (Permutation_in e (sorted_entries_perm l)). exact He.
Qed.

(** X8. Every directory of a sweep is accounted for once: when
    [collect_points] returns, the number of points plus the number of
    warnings is the number of entries of the root that are directories
    whose name follows the grammar (for the Cortex-A15, and whose
    thread count is within the bound). *)
Theorem every_directory_gives_a_point_or_a_warning :
  (forall root pts ws,
     A7Speedup.collect_points root = Return (pts, ws) ->
     exists l,
       listing root = Some l /\
       (List.length pts + List.length ws)%nat
       = List.length (filter CollectSpec.a7_counted l)) /\
  (forall root mt pts ws,
     A15Performance.collect_points root mt = Return (pts, ws) ->
     exists l,
       listing root = Some l /\
       (List.length pts + List.length ws)%nat
       = List.length (filter (CollectSpec.a15_counted mt) l)).
Proof.
  split.
  - intros root pts ws H.
    destruct (A7SweepFacts.a7_collect_sweep _ _ _ H) as (l & visited & Hl & Hs & ->).
    exists l. split; [ exact Hl | ].
    pose proof (sweep_count A7Speedup.visit A7SweepFacts.a7_visit_shift
                  CollectSpec.a7_counted A7CollectFacts.a7_visit_one _ _ Hs) as Hc.
    cbn [fst snd] in Hc. unfold A7Speedup.sort_points.
    rewrite <- (Permutation_length (sort_perm _ visited)), Hc.
    symmetry. apply Permutation_length, permutation_filter, sorted_entries_perm.
  - intros root mt pts ws H.
    destruct (A15SweepFacts.a15_collect_sweep _ _ _ _ H) as (l & visited & Hl & Hs & ->).
    exists l. split; [ exact Hl | ].
    pose proof (sweep_count (A15Performance.visit mt)
                  (A15SweepFacts.a15_visit_shift mt)
                  (CollectSpec.a15_counted mt) (A15CollectFacts.a15_visit_one mt)
                  _ _ Hs) as Hc.
    cbn [fst snd] in Hc. unfold A15Performance.sort_points.
    rewrite <- (Permutation_length (sort_perm _ visited)), Hc.
    symmetry. apply Permutation_length, permutation_filter, sorted_entries_perm.
Qed.

Lemma collected_points_are_the_parsed_directories_witness :
  exists l,
    listing StatusSpec.empty_log_root = Some l /\
    forall p,
      In p [A7Speedup.new_point 1 1000 "t1_run";
            A7Speedup.new_point 4 400 "t4_run"]
      <-> exists e, In e l /\ CollectSpec.a7_yields e p.
Proof.
  refine (proj1 collected_points_are_the_parsed_directories
            StatusSpec.empty_log_root _ ["t2_run: stats.txt vide"] _).
  vm_compute. reflexivity.
Defined.

Lemma every_directory_gives_a_point_or_a_warning_witness :
  exists l,
    listing StatusSpec.empty_log_root = Some l /\
    (List.length [A7Speedup.new_point 1 1000 "t1_run";
                  A7Speedup.new_point 4 400 "t4_run"]
     + List.length ["t2_run: stats.txt vide"])%nat
    = List.length (filter CollectSpec.a7_counted l).
Proof.
  refine (proj1 every_directory_gives_a_point_or_a_warning
            StatusSpec.empty_log_root _ _ _).
  vm_compute. reflexivity.
Defined.

(** X9. The thread bound is kept: with [max_threads] set to [m], every
    point that the Cortex-A15 [collect_points] and the IPC [collect]
    return has at most [m] threads. *)
Theorem collected_points_respect_max_threads :
  (forall root m pts ws,
     A15Performance.collect_points root (Some m) = Return (pts, ws) ->
     Forall (fun p => A15Performance.threads p <= m) pts) /\
  (forall root simulation m pts ws,
     A15Ipc.collect root simulation (Some m) = Return (pts, ws) ->
     Forall (fun p => A15Ipc.threads p <= m) pts).
Proof.
  split.
  - intros root m pts ws H.
    destruct (A15SweepFacts.a15_collect_sweep _ _ _ _ H) as (l & visited & Hl & Hs & ->).
    pose proof (sweep_keeps (A15Performance.visit (Some m))
                  (A15SweepFacts.a15_visit_shift (Some m)) _
                  (A15CollectFacts.a15_visit_keeps (Some m)) _ _ Hs) as Hk.
    cbn [fst] in Hk. unfold A15Performance.sort_points.
    rewrite Forall_forall in *. intros p Hp.
    apply (Permutation_in p (Permutation_sym (sort_perm _ visited))) in Hp.
    apply Hk in Hp. cbn in Hp. apply Z.ltb_ge in Hp. exact Hp.
  - intros root sim m pts ws H.
    destruct (listing root) as [ l | ] eqn:El.
    + destruct (A15IpcCollectFacts.ipc_collect_sweep _ _ _ _ _ _ El H)
        as (visited & Hs & ->).
      pose proof (sweep_keeps (A15Ipc.visit sim (Some m))
                    (A15IpcSweepFacts.ipc_visit_shift sim (Some m)) _
                    (A15IpcCollectFacts.ipc_visit_keeps sim (Some m)) _ _ Hs) as Hk.
      cbn [fst] in Hk. unfold A15Ipc.sort_points.
      rewrite Forall_forall in *. intros p Hp.
      apply (Permutation_in p (Permutation_sym (sort_perm _ visited))) in Hp.
      apply Hk in Hp. destruct Hp as [Hp _]. cbn in Hp. apply Z.ltb_ge in Hp. exact Hp.
    + unfold A15Ipc.collect in H. rewrite El in H. injection H as <- <-. constructor.
Qed.

Lemma collected_points_respect_max_threads_witness :
  Forall (fun p => A15Performance.threads p <= 2)
    [A15Performance.new_point 1 2 600 "w1_t2"].
Proof.
  refine (proj1 collected_points_respect_max_threads
            {| root_path := "m16";
               listing := Some [PointOrder.run_dir "w1_t4" "400";
                                PointOrder.run_dir "w1_t2" "600"] |} 2 _ [] _).
  vm_compute. reflexivity.
Defined.

(** ** Grouping by width *)

Lemma sort_id {A : Type} (lt : A -> A -> bool) (l : list A) :
  Sorted (before lt) l -> Seqs.sort lt l = l.
Proof.
  induction 1 as [ | x l Hs IH Hh ]; [ reflexivity | ].
  cbn [Seqs.sort]. rewrite IH.
  destruct Hh as [ | y l' Hxy ]; [ reflexivity | ].
  cbn [Seqs.insert]. unfold before in Hxy. now rewrite Hxy.
Qed.

Lemma strongly_sorted_filter_rel {A : Type} (R R' : A -> A -> Prop)
  (P : A -> bool) (l : list A) :
  (forall x y, P x = true -> P y = true -> R x y -> R' x y) ->
  StronglySorted R l -> StronglySorted R' (filter P l).
Proof.
  intros Hr. induction 1 as [ | x l Hs IH Hx ]; cbn [filter]; [ constructor | ].
  destruct (P x) eqn:Ex; [ | exact IH ].
  constructor; [ exact IH | ].
  rewrite Forall_forall in *. intros y Hy. apply filter_In in Hy.
  destruct Hy as [Hy Py]. auto.
Qed.

Lemma filter_none {A : Type} (f : A -> bool) (l : list A) :
  (forall x, In x l -> f x = false) -> filter f l = [].
Proof.
  induction l as [ | x l IH ]; intros H; [ reflexivity | ].
  cbn [filter]. rewrite (H x (or_introl eq_refl)). apply IH.
  intros y Hy. apply H. now right.
Qed.

Section GroupFacts.
Context {P : Type} (width : P -> Z).
Variable group_add : list (Z * list P) -> P -> list (Z * list P).
Hypothesis group_add_nil : forall p, group_add [] p = [(width p, [p])].
Hypothesis group_add_cons :
  forall w vs rest p,
    group_add ((w, vs) :: rest) p =
    if w =? width p then (w, append vs p) :: rest
    else (w, vs) :: group_add rest p.

Lemma group_add_keys (g : list (Z * list P)) (p : P) :
  forall w, In w (map fst (group_add g p)) <-> In w (map fst g) \/ w = width p.
Proof.
  induction g as [ | [w0 vs0] g IH ]; intros w.
  - rewrite group_add_nil. cbn. intuition congruence.
  - rewrite group_add_cons. destruct (w0 =? width p) eqn:E.
    + apply Z.eqb_eq in E. cbn. intuition congruence.
    + cbn. rewrite IH. tauto.
Qed.

Lemma group_add_nodup (g : list (Z * list P)) (p : P) :
  NoDup (map fst g) -> NoDup (map fst (group_add g p)).
Proof.
  induction g as [ | [w0 vs0] g IH ]; intros H.
  - rewrite group_add_nil. cbn. constructor; [ intros [] | constructor ].
  - rewrite group_add_cons. destruct (w0 =? width p) eqn:E; [ exact H | ].
    cbn in *. apply NoDup_cons_iff in H. destruct H as [H1 H2].
    constructor; [ | auto ].
    rewrite group_add_keys. apply Z.eqb_neq in E. tauto.
Qed.

Lemma group_add_in (g : list (Z * list P)) (p : P) :
  NoDup (map fst g) ->
  forall w vs,
    In (w, vs) (group_add g p) ->
    (w <> width p /\ In (w, vs) g) \/
    (w = width p /\
     ((exists vs', In (w, vs') g /\ vs = append vs' p) \/
      (~ In w (map fst g) /\ vs = [p]))).
Proof.
  induction g as [ | [w0 vs0] g IH ]; intros Hn w vs H.
  - rewrite group_add_nil in H. destruct H as [ [= <- <-] | [] ].
    right. split; [ reflexivity | ]. right. split; [ intros [] | reflexivity ].
  - rewrite group_add_cons in H. cbn [map fst] in Hn.
    apply NoDup_cons_iff in Hn. destruct Hn as [Hn1 Hn2].
    destruct (w0 =? width p) eqn:E.
    + apply Z.eqb_eq in E. destruct H as [ [= <- <-] | H ].
      * right. split; [ exact E | ]. left. exists vs0. split; [ now left | reflexivity ].
      * left. split; [ | now right ].
        intros ->. apply Hn1. rewrite E. apply (in_map fst _ _ H).
    + apply Z.eqb_neq in E. destruct H as [ [= <- <-] | H ].
      * left. split; [ exact E | now left ].
      * destruct (IH Hn2 _ _ H) as [ [H1 H2] | [H1 [ (vs' & H2 & H3) | [H2 H3] ] ] ].
        -- left. split; [ exact H1 | now right ].
        -- right. split; [ exact H1 | ]. left. exists vs'. split; [ now right | exact H3 ].
        -- right. split; [ exact H1 | ]. right. split; [ | exact H3 ].
           cbn. intros [ H4 | H4 ]; [ congruence | contradiction ].
Qed.

Lemma group_add_grouped (g : list (Z * list P)) (l : list P) (p : P) :
  GroupSpec.grouped_by width g l -> GroupSpec.grouped_by width (group_add g p) (l ++ [p]).
Proof.
  intros (Hn & Hc & Hg). split; [ now apply group_add_nodup | split ].
  - intros q Hq. rewrite group_add_keys. apply in_app_iff in Hq.
    destruct Hq as [ Hq | [ <- | [] ] ]; [ left; auto | now right ].
  - intros w vs H. rewrite filter_app. cbn [filter].
    destruct (group_add_in g p Hn _ _ H)
      as [ [H1 H2] | [H1 [ (vs' & H2 & H3) | [H2 H3] ] ] ].
    + destruct (Hg _ _ H2) as [Hne Hf].
      assert (E : (width p =? w) = false) by (apply Z.eqb_neq; congruence).
      rewrite E, app_nil_r. split; assumption.
    + destruct (Hg _ _ H2) as [Hne Hf].
      assert (E : (width p =? w) = true) by (apply Z.eqb_eq; congruence).
      rewrite E, H3. unfold append. split; [ | now rewrite Hf ].
      destruct vs'; discriminate.
    + assert (E : (width p =? w) = true) by (apply Z.eqb_eq; congruence).
      rewrite E, H3. split; [ discriminate | ].
      replace (filter (fun q => width q =? w) l) with (@nil P); [ reflexivity | ].
      symmetry. apply filter_none. intros q Hq. apply Z.eqb_neq.
      intros Hw. apply H2. rewrite <- Hw. auto.
Qed.

Lemma fold_group_add_grouped (l : list P) :
  forall g l0,
    GroupSpec.grouped_by width g l0 ->
    GroupSpec.grouped_by width (fold_left group_add l g) (l0 ++ l).
Proof.
  induction l as [ | p l IH ]; intros g l0 H; cbn [fold_left].
  - now rewrite app_nil_r.
  - replace (l0 ++ p :: l)%list with ((l0 ++ [p]) ++ l)%list
      by (now rewrite <- app_assoc).
    apply IH. now apply group_add_grouped.
Qed.

Lemma group_all_grouped (l : list P) :
  GroupSpec.grouped_by width (fold_left group_add l []) l.
Proof.
  apply (fold_group_add_grouped l [] []).
  split; [ constructor | split ]; intros; contradiction.
Qed.

End GroupFacts.

Module A15GroupFacts.
Import A15Performance Spec A15Metrics.

Lemma a15_group_points_grouped (pts : list Point) :
  GroupSpec.grouped_by width (group_points pts) pts.
Proof.
  unfold group_points. apply (group_all_grouped width group_add).
  - reflexivity.
  - reflexivity.
Qed.

Lemma forall2_keys (g out : list (Z * list Point)) :
  Forall2 series_done g out -> map fst out = map fst g.
Proof.
  induction 1 as [ | x y g out Hxy H IH ]; [ reflexivity | ].
  cbn [map]. destruct Hxy as [-> _]. now rewrite IH.
Qed.

Lemma forall2_in_right (g out : list (Z * list Point)) (y : Z * list Point) :
  Forall2 series_done g out -> In y out ->
  exists x, In x g /\ series_done x y.
Proof.
  induction 1 as [ | x y' g out Hxy H IH ]; intros Hy; [ contradiction | ].
  destruct Hy as [ <- | Hy ].
  - exists x. split; [ now left | exact Hxy ].
  - destruct (IH Hy) as (x' & Hx' & Hd). exists x'. split; [ now right | exact Hd ].
Qed.

End A15GroupFacts.

Lemma insert_not_nil {A : Type} (lt : A -> A -> bool) (x : A) (l : list A) :
  Seqs.insert lt x l <> [].
Proof. destruct l as [ | y l ]; cbn; [ | destruct (lt y x) ]; discriminate. Qed.

Lemma sort_not_nil {A : Type} (lt : A -> A -> bool) (l : list A) :
  l <> [] -> Seqs.sort lt l <> [].
Proof.
  destruct l as [ | x l ]; [ contradiction | ].
  intros _. cbn [Seqs.sort]. apply insert_not_nil.
Qed.

(** X10. [compute_metrics] of the Cortex-A15 script makes one series
    per width: no width has two series, every input point has the
    series of its width, no series is empty, and the series of a width
    holds the input points of that width, sorted by thread count (equal
    counts in input order), with only the metric fields changed. *)
Theorem compute_metrics_makes_one_series_per_width (pts : list A15Performance.Point)
  (out : list (Z * list A15Performance.Point)) :
  A15Performance.compute_metrics pts = Return out ->
  NoDup (map fst out) /\
  (forall p, In p pts -> In (A15Performance.width p) (map fst out)) /\
  (forall w vs,
     In (w, vs) out ->
     vs <> [] /\
     Forall2 A15Metrics.same_run
       (A15Metrics.series
          (filter (fun p => A15Performance.width p =? w) pts)) vs).
Proof.
  unfold A15Performance.compute_metrics. intros H.
  apply A15MetricsFacts.groups_loop_series in H.
  destruct (A15GroupFacts.a15_group_points_grouped pts) as (Hn & Hc & Hg).
  rewrite <- (A15GroupFacts.forall2_keys _ _ H) in Hn, Hc.
  split; [ exact Hn | split; [ exact Hc | ] ].
  intros w vs Hin.
  destruct (A15GroupFacts.forall2_in_right _ _ _ H Hin) as ([w0 vs0] & Hin0 & Hd).
  destruct Hd as (Hw & b & _ & Hf & _). cbn [fst snd] in Hw, Hf. subst w0.
  destruct (Hg _ _ Hin0) as [Hne Hvs]. rewrite <- Hvs. split; [ | exact Hf ].
  intros ->. inversion Hf as [ E | ]. revert E.
  apply not_eq_sym. unfold A15Metrics.series. now apply sort_not_nil.
Qed.

Lemma compute_metrics_makes_one_series_per_width_witness :
  exists out,
    A15Performance.compute_metrics
      [A15Performance.new_point 4 2 600 "w4_t2";
       A15Performance.new_point 2 1 900 "w2_t1";
       A15Performance.new_point 4 1 1000 "w4_t1"] = Return out /\
    NoDup (map fst out) /\
    map fst out = [4; 2].
Proof.
  eexists. split; [ vm_compute; reflexivity | ].
  split; [ | reflexivity ].
  refine (proj1 (compute_metrics_makes_one_series_per_width
                   [A15Performance.new_point 4 2 600 "w4_t2";
                    A15Performance.new_point 2 1 900 "w2_t1";
                    A15Performance.new_point 4 1 1000 "w4_t1"] _ _)).
  vm_compute. reflexivity.
Defined.

(** ** How the metrics fail *)

Module MetricFailFacts.
Import Spec.

Lemma int_truediv_raise (a b : Z) (e : exn) :
  int_truediv a b = Raise e -> arithmetic e.
Proof.
  unfold int_truediv, arithmetic. destruct (b =? 0); [ intros [= <-]; now left | ].
  destruct (is_infinity _); [ intros [= <-]; now right | discriminate ].
Qed.

Lemma float_truediv_raise (x y : float) (e : exn) :
  float_truediv x y = Raise e -> arithmetic e.
Proof.
  unfold float_truediv, arithmetic.
  destruct (is_zero y); [ intros [= <-]; now left | discriminate ].
Qed.

Lemma float_div_int_raise (x : float) (n : Z) (e : exn) :
  float_div_int x n = Raise e -> arithmetic e.
Proof.
  unfold float_div_int, float_of_int.
  destruct (is_infinity _); cbn [bind].
  - intros [= <-]. now right.
  - apply float_truediv_raise.
Qed.

Ltac bind_raise H lem :=
  match type of H with
  | bind ?c _ = Raise _ =>
      let E := fresh "E" in
      destruct c eqn:E; cbn [bind] in H;
      [ | injection H as <-; eapply lem; exact E ]
  end.

Lemma a7_metrics_loop_raise (bc : Z) (pts : list A7Speedup.Point) :
  forall prev e,
    A7Speedup.metrics_loop bc prev pts = Raise e -> arithmetic e.
Proof.
  induction pts as [ | p pts IH ]; intros prev e H; [ discriminate | ].
  cbn [A7Speedup.metrics_loop] in H.
  bind_raise H int_truediv_raise. bind_raise H float_div_int_raise.
  destruct prev as [ prev | ].
  - bind_raise H int_truediv_raise. bind_raise H int_truediv_raise.
    bind_raise H float_truediv_raise. bind_raise H float_div_int_raise.
    match type of H with
    | bind ?c _ = _ => destruct c eqn:Er; cbn [bind] in H; [ discriminate | ]
    end.
    injection H as <-. eapply IH. exact Er.
  - match type of H with
    | bind ?c _ = _ => destruct c eqn:E3; cbn [bind] in H; [ discriminate | ]
    end.
    injection H as <-. eapply IH. exact E3.
Qed.

Lemma a15_metrics_loop_raise (bc : Z) (pts : list A15Performance.Point) :
  forall e, A15Performance.metrics_loop bc pts = Raise e -> arithmetic e.
Proof.
  induction pts as [ | p pts IH ]; intros e H; [ discriminate | ].
  cbn [A15Performance.metrics_loop] in H.
  destruct (A15Performance.set_metrics bc p) as [ p' | x ] eqn:E; cbn [bind] in H.
  - destruct (A15Performance.metrics_loop bc pts) as [ r | x ] eqn:E3;
      cbn [bind] in H; [ discriminate | ].
    injection H as <-. now apply IH.
  - injection H as <-. unfold A15Performance.set_metrics in E.
    bind_raise E int_truediv_raise. bind_raise E float_div_int_raise.
    discriminate.
Qed.

Lemma a15_groups_loop_raise (g : list (Z * list A15Performance.Point)) :
  (forall w vs, In (w, vs) g -> vs <> []) ->
  forall e, A15Performance.groups_loop g = Raise e -> arithmetic e.
Proof.
  induction g as [ | [w vs] g IH ]; intros Hne e H; [ discriminate | ].
  cbn [A15Performance.groups_loop] in H.
  destruct (A15Performance.series_metrics vs) as [ vs' | x ] eqn:E; cbn [bind] in H.
  - destruct (A15Performance.groups_loop g) as [ r | x ] eqn:E3;
      cbn [bind] in H; [ discriminate | ].
    injection H as <-. apply IH; [ | reflexivity ].
    intros w' vs'' Hin. apply (Hne w'). now right.
  - injection H as <-. unfold A15Performance.series_metrics in E.
    pose proof (sort_not_nil (fun p q => A15Performance.threads p <? A15Performance.threads q)
                  vs (Hne w vs (or_introl eq_refl))) as Hs.
    destruct (Seqs.sort _ vs) as [ | p0 sorted ] eqn:Es; [ contradiction | ].
    unfold A15Performance.baseline in E.
    destruct (find _ (p0 :: sorted)); cbn [bind] in E;
      eapply a15_metrics_loop_raise; exact E.
Qed.

End MetricFailFacts.

(** X11. How [compute_metrics] fails.  The Cortex-A7 function raises
    [IndexError] exactly on the empty list, and otherwise fails only
    with a division by zero or an overflow.  The Cortex-A15 function
    never raises [IndexError]: it fails only with a division by zero or
    an overflow, and returns no series for no point. *)
Theorem compute_metrics_failure_modes :
  (forall pts, A7Speedup.compute_metrics pts = Raise IndexError <-> pts = []) /\
  (forall pts e,
     A7Speedup.compute_metrics pts = Raise e ->
     e = IndexError \/ Spec.arithmetic e) /\
  (forall pts e,
     A15Performance.compute_metrics pts = Raise e -> Spec.arithmetic e) /\
  A15Performance.compute_metrics [] = Return [].
Proof.
  split; [ | split; [ | split; [ | reflexivity ] ] ].
  - intros pts. split; [ | intros ->; reflexivity ].
    destruct pts as [ | p pts ]; [ reflexivity | ].
    unfold A7Speedup.compute_metrics, A7Speedup.baseline.
    destruct (find _ (p :: pts)); cbn [bind]; intros H;
      apply MetricFailFacts.a7_metrics_loop_raise in H;
      destruct H; discriminate.
  - intros pts e. destruct pts as [ | p pts ]; [ intros [= <-]; now left | ].
    unfold A7Speedup.compute_metrics, A7Speedup.baseline.
    destruct (find _ (p :: pts)); cbn [bind]; intros H; right;
      eapply MetricFailFacts.a7_metrics_loop_raise; exact H.
  - intros pts e. unfold A15Performance.compute_metrics.
    apply MetricFailFacts.a15_groups_loop_raise.
    intros w vs Hin.
    destruct (A15GroupFacts.a15_group_points_grouped pts) as (_ & _ & Hg).
    apply (Hg w vs Hin).
Qed.

Lemma compute_metrics_failure_modes_witness :
  ZeroDivisionError = IndexError \/ Spec.arithmetic ZeroDivisionError.
Proof.
  refine (proj1 (proj2 compute_metrics_failure_modes)
            [A7Speedup.new_point 1 1000 "t1_run"; A7Speedup.new_point 2 0 "t2_run"]
            ZeroDivisionError _).
  vm_compute. reflexivity.
Defined.

Module A15IpcGroupFacts.
Import A15Ipc.

Lemma ipc_grouped (pts : list Point) :
  GroupSpec.grouped_by width (fold_left group_add pts []) pts.
Proof.
  apply (group_all_grouped width group_add).
  - reflexivity.
  - reflexivity.
Qed.

Lemma ipc_key_ltb_asym (x y : Point) : key_ltb x y = true -> key_ltb y x = false.
Proof.
  unfold key_ltb. intros H. apply orb_true_iff in H.
  rewrite andb_true_iff, !Z.ltb_lt, Z.eqb_eq in H.
  apply orb_false_iff. rewrite andb_false_iff, !Z.ltb_ge, Z.eqb_neq. lia.
Qed.

Lemma ipc_before_trans (x y z : Point) :
  before key_ltb x y -> before key_ltb y z -> before key_ltb x z.
Proof.
  unfold before, key_ltb. intros H1 H2.
  apply orb_false_iff in H1, H2. apply orb_false_iff.
  rewrite andb_false_iff, !Z.ltb_ge, Z.eqb_neq in *. lia.
Qed.

Lemma ipc_sorted_points (l : list Point) :
  StronglySorted (before key_ltb) (sort_points l).
Proof.
  apply Sorted_StronglySorted.
  - intros x y z. apply ipc_before_trans.
  - unfold sort_points. apply sort_sorted. exact ipc_key_ltb_asym.
Qed.

Lemma ipc_series_sorted (w : Z) (pts : list Point) :
  StronglySorted (before key_ltb) pts ->
  Seqs.sort (fun p q => threads p <? threads q)
    (filter (fun p => width p =? w) pts)
  = filter (fun p => width p =? w) pts.
Proof.
  intros H. apply sort_id. apply StronglySorted_Sorted.
  eapply strongly_sorted_filter_rel; [ | exact H ].
  cbv beta. unfold before, key_ltb. intros x y Hx Hy Hxy.
  apply Z.eqb_eq in Hx, Hy. apply orb_false_iff in Hxy.
  rewrite andb_false_iff, !Z.ltb_ge, Z.eqb_neq in Hxy.
  apply Z.ltb_ge. lia.
Qed.

End A15IpcGroupFacts.

(** X12. [group_by_width] of the IPC script makes one list per width:
    no width has two lists, every point has the list of its width, no
    list is empty, and the list of a width is the points of that width
    sorted by thread count, equal counts in input order.  On the points
    that [collect] returns the sort changes nothing: the list of a
    width is the points of that width as [collect] ordered them. *)
Theorem group_by_width_gives_the_series :
  (forall pts,
     NoDup (map fst (A15Ipc.group_by_width pts)) /\
     (forall p,
        In p pts -> In (A15Ipc.width p) (map fst (A15Ipc.group_by_width pts))) /\
     (forall w vs,
        In (w, vs) (A15Ipc.group_by_width pts) ->
        vs <> [] /\
        vs = Seqs.sort (fun p q => A15Ipc.threads p <? A15Ipc.threads q)
               (filter (fun p => A15Ipc.width p =? w) pts))) /\
  (forall root simulation max_threads pts ws,
     A15Ipc.collect root simulation max_threads = Return (pts, ws) ->
     forall w vs,
       In (w, vs) (A15Ipc.group_by_width pts) ->
       vs = filter (fun p => A15Ipc.width p =? w) pts).
Proof.
  assert (G : forall pts,
     NoDup (map fst (A15Ipc.group_by_width pts)) /\
     (forall p,
        In p pts -> In (A15Ipc.width p) (map fst (A15Ipc.group_by_width pts))) /\
     (forall w vs,
        In (w, vs) (A15Ipc.group_by_width pts) ->
        vs <> [] /\
        vs = Seqs.sort (fun p q => A15Ipc.threads p <? A15Ipc.threads q)
               (filter (fun p => A15Ipc.width p =? w) pts))).
  { intros pts. unfold A15Ipc.group_by_width.
    destruct (A15IpcGroupFacts.ipc_grouped pts) as (Hn & Hc & Hg).
    rewrite map_map. cbn [fst].
    split; [ exact Hn | split; [ exact Hc | ] ].
    intros w vs Hin. apply in_map_iff in Hin.
    destruct Hin as ([w0 vs0] & [= <- <-] & Hin). cbn [fst snd].
    destruct (Hg _ _ Hin) as [Hne Hvs]. split.
    - now apply sort_not_nil.
    - now rewrite <- Hvs. }
  split; [ exact G | ].
  intros root sim mt pts ws H w vs Hin.
  destruct (G pts) as (_ & _ & Hg). destruct (Hg _ _ Hin) as [_ ->].
  apply A15IpcGroupFacts.ipc_series_sorted.
  destruct (listing root) as [ l | ] eqn:El.
  - destruct (A15IpcCollectFacts.ipc_collect_sweep _ _ _ _ _ _ El H)
      as (visited & _ & ->).
    apply A15IpcGroupFacts.ipc_sorted_points.
  - unfold A15Ipc.collect in H. rewrite El in H. injection H as <- <-. constructor.
Qed.

Lemma group_by_width_gives_the_series_witness :
  exists pts,
    A15Ipc.collect
      {| root_path := "m16";
         listing := Some [{| name := "w2_t1"; path := "m16/w2_t1";
                             is_dir := true; status_txt := None;
                             stats_txt := Some ScanSpec.two_insts_log |}] |}
      "m16" None = Return (pts, []) /\
    forall w vs,
      In (w, vs) (A15Ipc.group_by_width pts) ->
      vs = filter (fun p => A15Ipc.width p =? w) pts.
Proof.
  eexists. split; [ vm_compute; reflexivity | ].
  refine (proj2 group_by_width_gives_the_series
            {| root_path := "m16";
               listing := Some [{| name := "w2_t1"; path := "m16/w2_t1";
                                   is_dir := true; status_txt := None;
                                   stats_txt := Some ScanSpec.two_insts_log |}] |}
            "m16" None _ [] _).
  vm_compute. reflexivity.
Defined.

(** ** Directory names of a Cortex-A15 sweep *)

Module A15DirFacts.
Import A15DirSpec.

Lemma digit_not_underscore (x : ascii) :
  isdigit x = true -> Ascii.eqb "_" x = false.
Proof.
  intros H. destruct (Ascii.eqb_spec "_"%char x) as [ <- | ]; [ | reflexivity ].
  discriminate H.
Qed.

Lemma digit_not_newline (x : ascii) : isdigit x = true -> (code x =? 10) = false.
Proof.
  unfold isdigit. intros H. apply andb_prop in H. destruct H as [H _].
  apply Z.leb_le in H. apply Z.eqb_neq. lia.
Qed.

Lemma star_digits_none (k : option ascii -> string -> option groups) (r : string) :
  (forall p s, digit_ahead s = true -> k p s = None) ->
  (forall p, k p r = None) ->
  digit_ahead r = false ->
  forall ds prev, all_digits ds = true -> star Digit prev (ds ++ r) k = None.
Proof.
  intros Hd Hr Hn ds. induction ds as [ | a ds IH ]; intros prev H.
  - cbn [String.append]. destruct r as [ | b r ]; cbn [star]; [ apply Hr | ].
    cbn in Hn. cbn [in_class]. rewrite Hn. apply Hr.
  - cbn in H. apply andb_prop in H. destruct H as [Ha H].
    cbn [String.append star in_class]. rewrite Ha, (IH _ H).
    apply Hd. exact Ha.
Qed.

Lemma run_group_number_none (name ds r : string) (g : groups) (k : cont) :
  number ds -> digit_ahead r = false ->
  (forall p s g', digit_ahead s = true -> k p s g' = None) ->
  (forall p g', k p r g' = None) ->
  forall prev, run (Group name (Plus Digit)) prev (ds ++ r) g k = None.
Proof.
  intros [Hd Hne] Hr Hk1 Hk2 prev. cbn [run].
  destruct ds as [ | a ds ]; [ now contradict Hne | ].
  cbn in Hd. apply andb_prop in Hd. destruct Hd as [Ha Hd].
  cbn [String.append in_class]. rewrite Ha.
  apply star_digits_none; [ | | assumption | assumption ].
  - intros p s Hs. now apply Hk1.
  - intros p. apply Hk2.
Qed.

Lemma lit_digit_ahead (a : ascii) (p s : string) prev :
  (forall x, isdigit x = true -> Ascii.eqb a x = false) ->
  digit_ahead s = true -> lit (String a p) prev s = None.
Proof.
  intros Ha Hs. destruct s as [ | b s ]; [ discriminate | ].
  cbn in Hs. cbn [lit]. now rewrite (Ha b Hs).
Qed.

Lemma at_end_digit_ahead (s : string) : digit_ahead s = true -> at_end s = false.
Proof.
  destruct s as [ | a s ]; [ discriminate | ]. cbn. intros Ha.
  destruct s; [ now apply digit_not_newline | reflexivity ].
Qed.

Lemma append_empty (s : string) : s ++ "" = s.
Proof. induction s as [ | a s IH ]; cbn; [ reflexivity | now rewrite IH ]. Qed.

Lemma modern_width_first (w t : string) :
  number w -> number t ->
  re_match (seq [Lit "w"; Group "width" (Plus Digit); Lit "_t";
                 Group "threads" (Plus Digit); Eos])
    (width_first w t "")
  = Some [("threads", t); ("width", w)].
Proof.
  intros Hw Ht. unfold re_match, width_first. cbn [seq].
  rewrite run_seq, run_lit_app, run_seq.
  apply run_group_number; [ assumption | reflexivity | ].
  intros p. rewrite run_seq, run_lit_app.
  rewrite run_seq.
  apply run_group_number; [ assumption | reflexivity | ].
  intros q. reflexivity.
Qed.

Lemma modern_width_first_suffix (w t rest : string) :
  number w -> number t ->
  re_match (seq [Lit "w"; Group "width" (Plus Digit); Lit "_t";
                 Group "threads" (Plus Digit); Eos])
    (width_first w t ("_" ++ rest))
  = None.
Proof.
  intros Hw Ht. unfold re_match, width_first. cbn [seq].
  rewrite run_seq, run_lit_app, run_seq.
  apply run_group_number_none; [ assumption | reflexivity | | ].
  - intros p s g' Hs. rewrite run_seq. cbn [run].
    rewrite lit_digit_ahead; [ reflexivity | exact digit_not_underscore | exact Hs ].
  - intros p g'. rewrite run_seq, run_lit_app, run_seq.
    apply run_group_number_none; [ assumption | reflexivity | | ].
    + intros q s g'' Hs. cbn [run]. now rewrite at_end_digit_ahead.
    + intros q g''. cbn [run]. destruct rest; reflexivity.
Qed.

Lemma legacy_threads_first (t w rest : string) :
  number t -> number w -> rest = "" \/ (exists r, rest = "_" ++ r) ->
  re_match (seq [Lit "t"; Group "threads" (Plus Digit); Lit "_w";
                 Group "width" (Plus Digit); Alt (Lit "_") Eos])
    (threads_first t w rest)
  = Some [("width", w); ("threads", t)].
Proof.
  intros Ht Hw Hr. unfold re_match, threads_first. cbn [seq].
  rewrite run_seq, run_lit_app, run_seq.
  apply run_group_number; [ assumption | reflexivity | ].
  intros p. rewrite run_seq, run_lit_app, run_seq.
  apply run_group_number; [ assumption | | ].
  - destruct Hr as [ -> | [r ->] ]; reflexivity.
  - intros q. destruct Hr as [ -> | [r ->] ]; reflexivity.
Qed.

End A15DirFacts.

(** X13. The directory names that the Cortex-A15 scripts take, for a
    width [w] and a thread count [t] written as non-empty runs of
    digits.  [parse_dir_name] gives [(int(w), int(t))] for
    [w<w>_t<t>], for [t<t>_w<w>] and for [t<t>_w<w>_<rest>]; it gives
    nothing for [w<w>_t<t>_<rest>].  The IPC script takes [w<w>_t<t>]
    and no name that starts with [t]. *)
Theorem parse_dir_name_forms (w t rest : string) :
  number w -> number t ->
  A15Performance.parse_dir_name (A15DirSpec.width_first w t "")
    = Some (int w, int t) /\
  A15Performance.parse_dir_name (A15DirSpec.threads_first t w "")
    = Some (int w, int t) /\
  A15Performance.parse_dir_name (A15DirSpec.threads_first t w ("_" ++ rest))
    = Some (int w, int t) /\
  A15Performance.parse_dir_name (A15DirSpec.width_first w t ("_" ++ rest))
    = None /\
  re_match A15Ipc.DIR_RE (A15DirSpec.width_first w t "")
    = Some [("threads", t); ("width", w)] /\
  re_match A15Ipc.DIR_RE (A15DirSpec.threads_first t w rest) = None.
Proof.
  intros Hw Ht.
  unfold A15Performance.parse_dir_name, A15Performance.DIR_PATTERNS, A15Ipc.DIR_RE.
  cbn [A15Performance.first_pattern].
  rewrite (A15DirFacts.modern_width_first w t Hw Ht).
  rewrite (A15DirFacts.modern_width_first_suffix w t rest Hw Ht).
  assert (Hl : forall r,
    re_match (seq [Lit "w"; Group "width" (Plus Digit); Lit "_t";
                   Group "threads" (Plus Digit); Eos])
      (A15DirSpec.threads_first t w r) = None) by reflexivity.
  rewrite !Hl.
  rewrite (A15DirFacts.legacy_threads_first t w "" Ht Hw (or_introl eq_refl)).
  rewrite (A15DirFacts.legacy_threads_first t w ("_" ++ rest) Ht Hw
             (or_intror (ex_intro _ rest eq_refl))).
  assert (Hm : re_match
    (seq [Lit "t"; Group "threads" (Plus Digit); Lit "_w";
          Group "width" (Plus Digit); Alt (Lit "_") Eos])
    (A15DirSpec.width_first w t ("_" ++ rest)) = None) by reflexivity.
  rewrite Hm.
  repeat split; reflexivity.
Qed.

Lemma parse_dir_name_forms_witness :
  A15Performance.parse_dir_name "w4_t16" = Some (4, 16) /\
  A15Performance.parse_dir_name "t16_w4" = Some (4, 16) /\
  A15Performance.parse_dir_name "t16_w4_run" = Some (4, 16) /\
  A15Performance.parse_dir_name "w4_t16_run" = None /\
  re_match A15Ipc.DIR_RE "w4_t16" = Some [("threads", "16"); ("width", "4")] /\
  re_match A15Ipc.DIR_RE "t16_w4run" = None.
Proof.
  refine (parse_dir_name_forms "4" "16" "run" _ _).
  - split; [ reflexivity | discriminate ].
  - split; [ reflexivity | discriminate ].
Defined.

(** ** The label of the matrix size *)

Module LabelFacts.

Lemma run_alt_none (r1 r2 : regex) prev s g k :
  run r1 prev s g k = None -> run (Alt r1 r2) prev s g k = run r2 prev s g k.
Proof. intros H. cbn [run]. now rewrite H. Qed.

Lemma star_to_end (k : option ascii -> string -> option groups) :
  (forall p a s', k p (String a s') = None) ->
  forall s prev g, star Digit prev s k = Some g -> all_digits s = true.
Proof.
  intros Hk s. induction s as [ | a s IH ]; intros prev g H; [ reflexivity | ].
  cbn [star in_class] in H. cbn [all_digits].
  destruct (isdigit a); [ | now rewrite Hk in H ].
  destruct (star Digit (Some a) s k) as [ g' | ] eqn:E; [ | now rewrite Hk in H ].
  now rewrite (IH _ _ E).
Qed.

Lemma fullmatch_digits (prev : option ascii) (ds : string) :
  number ds ->
  run (Group "1" (Plus Digit)) prev ds [] to_end
  = Some [("1", ds)].
Proof.
  intros H.
  pose proof (run_group_number "1" ds "" [] [("1", ds)]
                to_end H eq_refl (fun _ => eq_refl) prev) as R.
  now rewrite A15DirFacts.append_empty in R.
Qed.

Lemma fullmatch_digits_only (prev : option ascii) (s : string) (m : groups) :
  run (Group "1" (Plus Digit)) prev s [] to_end
  = Some m ->
  number s.
Proof.
  cbn [run]. destruct s as [ | a s ]; [ discriminate | ].
  cbn [in_class]. destruct (isdigit a) eqn:Ea; [ | discriminate ].
  intros H. apply star_to_end in H; [ | reflexivity ].
  split; [ cbn; now rewrite Ea, H | discriminate ].
Qed.

Lemma fullmatch_matrix_name (ds : string) :
  number ds ->
  re_fullmatch matrix_name ("m" ++ ds) = Some [("1", ds)] /\
  re_fullmatch matrix_name ("M" ++ ds) = Some [("1", ds)].
Proof.
  intros H. unfold re_fullmatch, matrix_name. split.
  - rewrite run_seq. apply run_alt_some. rewrite run_lit_app.
    now apply fullmatch_digits.
  - rewrite run_seq, run_alt_none; [ | reflexivity ].
    rewrite run_lit_app. now apply fullmatch_digits.
Qed.

Lemma fullmatch_matrix_name_only (name : string) (m : groups) :
  re_fullmatch matrix_name name = Some m ->
  exists ds, number ds /\ (name = "m" ++ ds \/ name = "M" ++ ds).
Proof.
  unfold re_fullmatch, matrix_name. rewrite run_seq.
  destruct name as [ | a s ]; [ discriminate | ].
  destruct (Ascii.eqb_spec "m"%char a) as [ <- | Hm ].
  - change (String "m" s) with ("m" ++ s).
    destruct (run (Group "1" (Plus Digit)) (Some "m"%char) s [] to_end)
      as [ g | ] eqn:E.
    + intros _. exists s. split; [ | now left ].
      eapply fullmatch_digits_only. exact E.
    + rewrite run_alt_none; [ | rewrite run_lit_app; exact E ].
      rewrite run_lit_none; [ discriminate | reflexivity ].
  - rewrite run_alt_none.
    2: { cbn [run lit]. apply Ascii.eqb_neq in Hm. now rewrite Hm. }
    destruct (Ascii.eqb_spec "M"%char a) as [ <- | HM ].
    + change (String "M" s) with ("M" ++ s). rewrite run_lit_app.
      intros E. exists s. split; [ | now right ].
      eapply fullmatch_digits_only. exact E.
    + cbn [run lit]. apply Ascii.eqb_neq in HM. rewrite HM. discriminate.
Qed.

End LabelFacts.

(** X14. [infer_matrix_label], in both scripts: a non-empty label is
    returned as it is.  Without a label, or with an empty one, a root
    directory named [m<digits>] or [M<digits>] gives [m=<digits>], and
    every other root directory gives its own name. *)
Theorem infer_matrix_label_cases :
  (forall root_name label,
     A15Performance.infer_matrix_label root_name label
     = A7Speedup.infer_matrix_label root_name label) /\
  (forall root_name a label,
     A7Speedup.infer_matrix_label root_name (Some (String a label))
     = String a label) /\
  (forall root_name label digits,
     LabelSpec.no_label label ->
     LabelSpec.matrix_root root_name digits ->
     A7Speedup.infer_matrix_label root_name label = "m=" ++ digits) /\
  (forall root_name label,
     LabelSpec.no_label label ->
     (forall digits, ~ LabelSpec.matrix_root root_name digits) ->
     A7Speedup.infer_matrix_label root_name label = root_name).
Proof.
  split; [ reflexivity | split; [ reflexivity | split ] ].
  - intros root_name label digits Hl [Hd Hn].
    destruct (LabelFacts.fullmatch_matrix_name digits Hd) as [H1 H2].
    unfold A7Speedup.infer_matrix_label.
    destruct Hl as [ -> | -> ]; destruct Hn as [ -> | -> ];
      rewrite ?H1, ?H2; reflexivity.
  - intros root_name label Hl Hn.
    unfold A7Speedup.infer_matrix_label.
    destruct (re_fullmatch matrix_name root_name) as [ m | ] eqn:E.
    + apply LabelFacts.fullmatch_matrix_name_only in E.
      destruct E as (ds & Hd & Hr). exfalso. apply (Hn ds). split; assumption.
    + destruct Hl as [ -> | -> ]; reflexivity.
Qed.

Lemma infer_matrix_label_cases_witness :
  A7Speedup.infer_matrix_label "M128" (Some "") = "m=128".
Proof.
  refine (proj1 (proj2 (proj2 infer_matrix_label_cases)) "M128" (Some "") "128" _ _).
  - right. reflexivity.
  - split; [ split; [ reflexivity | discriminate ] | right; reflexivity ].
Defined.

(** ** The order of the rows of the other scripts *)

Module A7CyclesSweepFacts.
Import A7Cycles RowOrder.

Lemma cycles_visit_shift (p0 : list Row) (w0 : list string) (e : Entry) :
  visit (p0, w0) e =
  (d <- visit ([], []) e ;; Return ((p0 ++ fst d)%list, (w0 ++ snd d)%list)).
Proof.
  unfold visit.
  destruct (negb (is_dir e)); [ shift_done | ].
  destruct (re_match DIR_RE (name e)); [ | shift_done ].
  destruct (stats_txt e) as [ f | ]; [ | shift_done ].
  destruct (st_size f =? 0); [ shift_done | ].
  destruct (parse_cycles f) as [ [c src] | [ msg | msg | | | ] ]; shift_done.
Qed.

Lemma cycles_visit_row (e : Entry) (d : State) :
  visit ([], []) e = Return d ->
  fst d = [] \/ exists p, fst d = [p] /\ snd p = name e.
Proof.
  unfold visit. cbv beta iota.
  destruct (negb (is_dir e)); [ intros [= <-]; now left | ].
  destruct (re_match DIR_RE (name e)); [ | intros [= <-]; now left ].
  destruct (stats_txt e) as [ f | ]; [ | intros [= <-]; now left ].
  destruct (st_size f =? 0); [ intros [= <-]; now left | ].
  destruct (parse_cycles f) as [ [c src] | [ msg | msg | | | ] ];
    intros [= <-]; cbn; eauto.
Qed.

Lemma cycles_collect_sweep (root : Root) (rows : list Row) (ws : list string) :
  collect_data root = Return (rows, ws) ->
  exists l visited,
    listing root = Some l /\
    sweep visit (sorted_entries l) = Return (visited, ws) /\
    rows = sort_rows visited.
Proof.
  unfold collect_data. destruct (listing root) as [ l | ]; [ | discriminate ].
  destruct (for_each visit (sorted_entries l) ([], [])) as [ [visited ws'] | x ] eqn:E;
    cbn [bind fst snd]; [ | discriminate ].
  intros [= <- <-]. exists l, visited. auto.
Qed.

Lemma cycles_visited_by_name (l : list Entry) (d : State) :
  sweep visit (sorted_entries l) = Return d ->
  StronglySorted cycles_by_name (fst d).
Proof.
  intros H.
  apply (sweep_folders visit (@snd (Z * Z) string) cycles_visit_shift
           cycles_visit_row) in H.
  apply (strongly_sorted_map name_le (@snd (Z * Z) string)).
  eapply subseq_strongly_sorted; [ exact H | apply sorted_entries_names ].
Qed.

End A7CyclesSweepFacts.

Module A15IpcOrderFacts.
Import A15Ipc RowOrder.

Lemma ipc_visit_point (sim : string) (mt : option Z) (e : Entry) (d : State) :
  visit sim mt ([], []) e = Return d ->
  fst d = [] \/ exists p, fst d = [p] /\ folder p = name e.
Proof.
  unfold visit. cbv beta iota.
  destruct (negb (is_dir e)); [ intros [= <-]; now left | ].
  destruct (re_match DIR_RE (name e)); [ | intros [= <-]; now left ].
  destruct (A15Performance.over_max mt _); [ intros [= <-]; now left | ].
  destruct (A15Performance.bad_status e); [ intros [= <-]; now left | ].
  destruct (stats_txt e) as [ f | ]; [ | intros [= <-]; now left ].
  destruct (st_size f =? 0); [ intros [= <-]; now left | ].
  destruct (parse_stats _ f) as [ [[[a b] c] d'] | [ msg | msg | | | ] ];
    intros [= <-]; cbn; eauto.
Qed.

Lemma ipc_visited_by_folder (sim : string) (mt : option Z) (l : list Entry)
  (d : State) :
  sweep (visit sim mt) (sorted_entries l) = Return d ->
  StronglySorted ipc_by_folder (fst d).
Proof.
  intros H.
  apply (sweep_folders (visit sim mt) folder
           (A15IpcSweepFacts.ipc_visit_shift sim mt)
           (ipc_visit_point sim mt)) in H.
  apply (strongly_sorted_map name_le folder).
  eapply subseq_strongly_sorted; [ exact H | apply sorted_entries_names ].
Qed.

Lemma ipc_key_before (x y : Point) : before key_ltb x y -> ipc_by_key x y.
Proof.
  unfold before, key_ltb, ipc_by_key. intros H.
  apply orb_false_iff in H.
  rewrite andb_false_iff, Z.ltb_ge, Z.eqb_neq, Z.ltb_ge in H. lia.
Qed.

End A15IpcOrderFacts.

(** X15. The order of what the other three collectors return.  The
    rows of the Cortex-A7 cycle script are in ascending order of their
    core count, rows with the same count in the order of their
    directory names.  The rows of the Cortex-A7 IPC script are in
    ascending order of their thread count.  The points of the
    Cortex-A15 IPC script are in ascending order of (width, threads),
    points with the same pair in the order of their directory names. *)
Theorem collected_rows_order :
  (forall root rows ws,
     A7Cycles.collect_data root = Return (rows, ws) ->
     Sorted RowOrder.cycles_by_cpus rows /\
     forall k,
       StronglySorted RowOrder.cycles_by_name
         (filter (RowOrder.cycles_same_cpus k) rows)) /\
  (forall root rows ws,
     A7IpcMax.collect root = Return (rows, ws) ->
     Sorted RowOrder.ipc_max_by_threads rows) /\
  (forall root simulation max_threads pts ws,
     A15Ipc.collect root simulation max_threads = Return (pts, ws) ->
     Sorted RowOrder.ipc_by_key pts /\
     forall w t,
       StronglySorted RowOrder.ipc_by_folder
         (filter (RowOrder.ipc_same_key w t) pts)).
Proof.
  split; [ | split ].
  - intros root rows ws H.
    apply A7CyclesSweepFacts.cycles_collect_sweep in H.
    destruct H as (l & visited & _ & Hs & ->).
    apply A7CyclesSweepFacts.cycles_visited_by_name in Hs. cbn [fst] in Hs.
    unfold A7Cycles.sort_rows. split.
    + eapply sorted_impl; [ | apply sort_sorted ].
      * unfold before, RowOrder.cycles_by_cpus. intros x y Hxy.
        apply Z.ltb_ge in Hxy. exact Hxy.
      * intros x y Hxy. apply Z.ltb_lt in Hxy. apply Z.ltb_ge. lia.
    + intros k. rewrite sort_filter.
      * eapply subseq_strongly_sorted; [ apply subseq_filter | exact Hs ].
      * unfold RowOrder.cycles_same_cpus. intros x y Hx Hy.
        apply Z.eqb_eq in Hx, Hy. apply Z.ltb_ge. lia.
  - intros root rows ws. unfold A7IpcMax.collect.
    destruct (listing root) as [ l | ]; [ | intros [= <- <-]; constructor ].
    destruct (for_each A7IpcMax.visit (sorted_entries l) ([], []))
      as [ [visited ws'] | x ]; cbn [bind fst snd]; [ | discriminate ].
    intros [= <- <-]. unfold A7IpcMax.sort_rows.
    eapply sorted_impl; [ | apply sort_sorted ].
    + unfold before, RowOrder.ipc_max_by_threads. intros x y Hxy.
      apply Z.ltb_ge in Hxy. exact Hxy.
    + intros x y Hxy. apply Z.ltb_lt in Hxy. apply Z.ltb_ge. lia.
  - intros root sim mt pts ws H.
    destruct (listing root) as [ l | ] eqn:El.
    + destruct (A15IpcCollectFacts.ipc_collect_sweep _ _ _ _ _ _ El H)
        as (visited & Hs & ->).
      apply A15IpcOrderFacts.ipc_visited_by_folder in Hs. cbn [fst] in Hs.
      unfold A15Ipc.sort_points. split.
      * eapply sorted_impl; [ exact A15IpcOrderFacts.ipc_key_before | ].
        apply sort_sorted. exact A15IpcGroupFacts.ipc_key_ltb_asym.
      * intros w t. rewrite sort_filter.
        -- eapply subseq_strongly_sorted; [ apply subseq_filter | exact Hs ].
        -- unfold RowOrder.ipc_same_key, A15Ipc.key_ltb. intros x y Hx Hy.
           apply andb_true_iff in Hx, Hy.
           rewrite !Z.eqb_eq in Hx, Hy. apply orb_false_iff.
           rewrite andb_false_iff, Z.ltb_ge, Z.eqb_neq, Z.ltb_ge. lia.
    + unfold A15Ipc.collect in H. rewrite El in H. injection H as <- <-.
      split; [ constructor | intros w t; constructor ].
Qed.

Lemma collected_rows_order_witness :
  exists rows,
    A7Cycles.collect_data PointOrder.a7_root = Return (rows, []) /\
    Sorted RowOrder.cycles_by_cpus rows /\
    forall k,
      StronglySorted RowOrder.cycles_by_name
        (filter (RowOrder.cycles_same_cpus k) rows).
Proof.
  eexists. split; [ vm_compute; reflexivity | ].
  eapply (proj1 collected_rows_order PointOrder.a7_root).
  vm_compute; reflexivity.
Defined.

(** ** How a run ends *)

Module A7MainFacts.
Import A7Speedup.

Lemma a7_visit_returns (st : State) (e : Entry) :
  exists st', visit st e = Return st'.
Proof.
  unfold visit. destruct st as [points warnings].
  destruct (negb (is_dir e)); [ eauto | ].
  destruct (re_match DIR_RE (name e)); [ | eauto ].
  destruct (stats_txt e) as [ f | ]; [ | eauto ].
  destruct (st_size f =? 0); [ eauto | ].
  unfold parse_cycles.
  destruct (fold_left scan_line (lines f) []); eauto.
Qed.

Lemma a7_for_each_returns (es : list Entry) :
  forall st, exists st', for_each visit es st = Return st'.
Proof.
  induction es as [ | e es IH ]; intros st; cbn [for_each]; [ eauto | ].
  destruct (a7_visit_returns st e) as [st' ->]. cbn [bind]. apply IH.
Qed.

Lemma a7_collect_raise (root : Root) (x : exn) :
  collect_points root = Raise x ->
  listing root = None /\
  x = FileNotFoundError ("Dossier introuvable: " ++ root_path root).
Proof.
  unfold collect_points. destruct (listing root) as [ l | ].
  - destruct (a7_for_each_returns (sorted_entries l) ([], [])) as [st' ->].
    discriminate.
  - intros [= <-]. auto.
Qed.

End A7MainFacts.

Module A15MainFacts.
Import TicksScan A15Performance.

Lemma a15_parse_cycles_raise (stats_path : string) (f : TextFile) (x : exn) :
  parse_cycles stats_path f = Raise x ->
  (exists msg, x = ValueError msg) \/ x = OverflowError.
Proof.
  unfold parse_cycles, cannot_extract.
  destruct (cpu_cycles (scan f)); [ | discriminate ].
  destruct (sim_ticks (scan f)) as [ ticks | ]; [ | intros [= <-]; eauto ].
  destruct (usable_period _) as [ p | ] eqn:Ep; [ | intros [= <-]; eauto ].
  assert (Hp : (p =? 0) = false).
  { unfold usable_period in Ep.
    destruct (match cpu_clock (scan f) with Some c => Some c | None => sys_clock (scan f) end)
      as [ p0 | ]; [ | discriminate ].
    destruct (negb (p0 =? 0)) eqn:E0; cbn [andb] in Ep; [ | discriminate ].
    destruct (0 <? p0); [ | discriminate ].
    injection Ep as <-. now apply negb_true_iff in E0. }
  destruct (int_truediv ticks p) as [ q | y ] eqn:Eq; cbn [bind].
  - apply MetricFloatFacts.int_truediv_number in Eq.
    unfold FloatSpec.number, Spec.is_finite in Eq.
    destruct q; cbn [round]; discriminate.
  - unfold int_truediv in Eq. rewrite Hp in Eq.
    destruct (is_infinity _); [ | discriminate ].
    injection Eq as <-. intros [= <-]. now right.
Qed.

Lemma a15_visit_raise (mt : option Z) (st : State) (e : Entry) (x : exn) :
  visit mt st e = Raise x -> x = OverflowError.
Proof.
  unfold visit. destruct st as [points warnings].
  destruct (negb (is_dir e)); [ discriminate | ].
  destruct (parse_dir_name (name e)) as [ [w t] | ]; [ | discriminate ].
  destruct (over_max mt t); [ discriminate | ].
  destruct (bad_status e); [ discriminate | ].
  destruct (stats_txt e) as [ f | ]; [ | discriminate ].
  destruct (st_size f =? 0); [ discriminate | ].
  destruct (parse_cycles _ f) as [ c | y ] eqn:Ep; [ discriminate | ].
  apply a15_parse_cycles_raise in Ep.
  destruct Ep as [ [msg ->] | -> ]; [ discriminate | ].
  now intros [= <-].
Qed.

Lemma a15_for_each_raise (mt : option Z) (es : list Entry) :
  forall st x, for_each (visit mt) es st = Raise x -> x = OverflowError.
Proof.
  induction es as [ | e es IH ]; intros st x; cbn [for_each]; [ discriminate | ].
  destruct (visit mt st e) as [ st' | y ] eqn:Ev; cbn [bind].
  - apply IH.
  - intros [= <-]. eapply a15_visit_raise. exact Ev.
Qed.

Lemma a15_collect_raise (root : Root) (mt : option Z) (x : exn) :
  collect_points root mt = Raise x ->
  (listing root = None /\
   x = FileNotFoundError ("Dossier introuvable: " ++ root_path root)) \/
  (listing root <> None /\ x = OverflowError).
Proof.
  unfold collect_points. destruct (listing root) as [ l | ].
  - destruct (for_each (visit mt) (sorted_entries l) ([], [])) as [ st | y ] eqn:E;
      cbn [bind]; [ discriminate | ].
    intros [= <-]. right. split; [ discriminate | ].
    eapply a15_for_each_raise. exact E.
  - intros [= <-]. left. auto.
Qed.

End A15MainFacts.

(** X16. When the sweep can be read.  On a root directory that
    exists, the Cortex-A7 [collect_points] always returns: no log makes
    it fail.  The Cortex-A15 [collect_points] returns or raises
    [OverflowError], and nothing else.  Both raise [FileNotFoundError],
    with the path of the root in the message, exactly when the root
    does not exist. *)
Theorem collect_points_failure_modes :
  (forall root,
     listing root <> None ->
     exists pts ws, A7Speedup.collect_points root = Return (pts, ws)) /\
  (forall root max_threads x,
     listing root <> None ->
     A15Performance.collect_points root max_threads = Raise x ->
     x = OverflowError) /\
  (forall root max_threads,
     listing root = None <->
     A7Speedup.collect_points root
     = Raise (FileNotFoundError ("Dossier introuvable: " ++ root_path root)) /\
     A15Performance.collect_points root max_threads
     = Raise (FileNotFoundError ("Dossier introuvable: " ++ root_path root))).
Proof.
  split; [ | split ].
  - intros root Hl.
    destruct (A7Speedup.collect_points root) as [ [pts ws] | x ] eqn:E; [ eauto | ].
    apply A7MainFacts.a7_collect_raise in E. destruct E as [E _]. contradiction.
  - intros root mt x Hl H.
    apply A15MainFacts.a15_collect_raise in H.
    destruct H as [ [H _] | [_ H] ]; [ contradiction | exact H ].
  - intros root mt. split.
    + intros H. unfold A7Speedup.collect_points, A15Performance.collect_points.
      rewrite H. split; reflexivity.
    + intros [H _]. apply A7MainFacts.a7_collect_raise in H. tauto.
Qed.

Lemma collect_points_failure_modes_witness :
  exists pts ws, A7Speedup.collect_points StatusSpec.empty_log_root = Return (pts, ws).
Proof.
  refine (proj1 collect_points_failure_modes StatusSpec.empty_log_root _).
  discriminate.
Defined.

(** X17. The exit code of the two scripts that read one root.  [main]
    returns 1 when the root does not exist, with one line on the error
    stream, and when the sweep gave no point, with the error line and
    then every warning on the error stream; in both cases it prints
    nothing on the output stream and calls no plotting or writing
    function.  It returns 1 in no other case. *)
Theorem main_returns_one_without_points :
  (forall plot_speedup plot_efficiency write_csv write_report args,
     let run :=
       A7Speedup.main plot_speedup plot_efficiency write_csv write_report args in
     let root := A7Speedup.input_root args in
     (listing root = None ->
      run = {| Io.stdout := [];
               Io.stderr := ["Erreur: Dossier introuvable: " ++ root_path root];
               Io.outcome := Return 1 |}) /\
     (forall ws,
        A7Speedup.collect_points root = Return ([], ws) ->
        run = {| Io.stdout := [];
                 Io.stderr :=
                   "Erreur: aucune configuration exploitable trouvee."
                   :: Io.warning_lines ws;
                 Io.outcome := Return 1 |}) /\
     (Io.outcome run = Return 1 ->
      listing root = None \/
      exists ws, A7Speedup.collect_points root = Return ([], ws))) /\
  (forall plot_cycles plot_res_ejec_cycles plot_speedup plot_efficiency
          write_csv args,
     let run :=
       A15Performance.main plot_cycles plot_res_ejec_cycles plot_speedup
         plot_efficiency write_csv args in
     let root := A15Performance.input_root args in
     let max_threads := A15Performance.max_threads args in
     (listing root = None ->
      run = {| Io.stdout := [];
               Io.stderr := ["Erreur: Dossier introuvable: " ++ root_path root];
               Io.outcome := Return 1 |}) /\
     (forall ws,
        A15Performance.collect_points root max_threads = Return ([], ws) ->
        run = {| Io.stdout := [];
                 Io.stderr :=
                   "Erreur: aucune configuration exploitable trouvee."
                   :: Io.warning_lines ws;
                 Io.outcome := Return 1 |}) /\
     (Io.outcome run = Return 1 ->
      listing root = None \/
      exists ws,
        A15Performance.collect_points root max_threads = Return ([], ws))).
Proof.
  split.
  - intros ps pe wc wr args run root. subst run root.
    unfold A7Speedup.main. split; [ | split ].
    + intros H. unfold A7Speedup.collect_points. rewrite H. reflexivity.
    + intros ws H. rewrite H. reflexivity.
    + destruct (A7Speedup.collect_points (A7Speedup.input_root args))
        as [ [pts ws] | x ] eqn:E.
      * destruct pts as [ | p pts ]; [ intros _; right; eauto | ].
        match goal with
        | |- context [ match ?c with Return _ => _ | Raise _ => _ end ] =>
            destruct c
        end; discriminate.
      * apply A7MainFacts.a7_collect_raise in E. destruct E as [E _]. now left.
  - intros pc pr ps pe wc args run root mt. subst run root mt.
    unfold A15Performance.main. split; [ | split ].
    + intros H. unfold A15Performance.collect_points. rewrite H. reflexivity.
    + intros ws H. rewrite H. reflexivity.
    + destruct (A15Performance.collect_points (A15Performance.input_root args)
                  (A15Performance.max_threads args)) as [ [pts ws] | x ] eqn:E.
      * destruct pts as [ | p pts ]; [ intros _; right; eauto | ].
        match goal with
        | |- context [ match ?c with Return _ => _ | Raise _ => _ end ] =>
            destruct c
        end; discriminate.
      * apply A15MainFacts.a15_collect_raise in E.
        destruct E as [ [E _] | [_ ->] ]; [ now left | discriminate ].
Qed.

Lemma main_returns_one_without_points_witness :
  A7Speedup.main (fun _ _ _ => Return tt) (fun _ _ _ => Return tt)
    (fun _ _ => Return tt) (fun _ _ _ => Return tt)
    {| A7Speedup.input_root := {| root_path := "m16"; listing := None |};
       A7Speedup.root_name := "m16"; A7Speedup.matrix_label := None;
       A7Speedup.output_speedup_png := "speedup.png";
       A7Speedup.output_efficiency_png := "efficacite.png";
       A7Speedup.output_report := "rapport.txt";
       A7Speedup.output_csv := "resume.csv" |}
  = {| Io.stdout := [];
       Io.stderr := ["Erreur: Dossier introuvable: m16"];
       Io.outcome := Return 1 |}.
Proof.
  refine (proj1 (proj1 main_returns_one_without_points
                   (fun _ _ _ => Return tt) (fun _ _ _ => Return tt)
                   (fun _ _ => Return tt) (fun _ _ _ => Return tt)
                   {| A7Speedup.input_root := {| root_path := "m16"; listing := None |};
                      A7Speedup.root_name := "m16"; A7Speedup.matrix_label := None;
                      A7Speedup.output_speedup_png := "speedup.png";
                      A7Speedup.output_efficiency_png := "efficacite.png";
                      A7Speedup.output_report := "rapport.txt";
                      A7Speedup.output_csv := "resume.csv" |}) _).
  reflexivity.
Defined.

(** X18. The exit code of the two scripts that read the roots [m16]
    and [m128].  [main] returns 1 exactly when both sweeps return and
    neither gives a point; it then prints the error line and the
    warnings of [m16] followed by those of [m128] on the error stream,
    nothing on the output stream, and calls no plotting or writing
    function.  A root that does not exist only adds its warning: with
    both roots missing these two warnings are all that follows the
    error line. *)
Theorem main_returns_one_when_both_sweeps_are_empty :
  (forall plot write_csv args,
     let run := A7IpcMax.main plot write_csv args in
     (forall w16 w128,
        A7IpcMax.collect (A7IpcMax.m16_root args) = Return ([], w16) ->
        A7IpcMax.collect (A7IpcMax.m128_root args) = Return ([], w128) ->
        run = {| Io.stdout := [];
                 Io.stderr :=
                   "Erreur: aucune donnee exploitable."
                   :: Io.warning_lines (w16 ++ w128)%list;
                 Io.outcome := Return 1 |}) /\
     (Io.outcome run = Return 1 ->
      exists w16 w128,
        A7IpcMax.collect (A7IpcMax.m16_root args) = Return ([], w16) /\
        A7IpcMax.collect (A7IpcMax.m128_root args) = Return ([], w128)) /\
     (listing (A7IpcMax.m16_root args) = None ->
      listing (A7IpcMax.m128_root args) = None ->
      Io.stderr run
      = ["Erreur: aucune donnee exploitable.";
         "Avertissement: " ++ root_path (A7IpcMax.m16_root args)
           ++ ": dossier absent";
         "Avertissement: " ++ root_path (A7IpcMax.m128_root args)
           ++ ": dossier absent"])) /\
  (forall plot_metric write_csv args,
     let run := A15Ipc.main plot_metric write_csv args in
     let max_threads := Some (A15Ipc.max_threads args) in
     (forall w16 w128,
        A15Ipc.collect (A15Ipc.m16_root args) "m16" max_threads
        = Return ([], w16) ->
        A15Ipc.collect (A15Ipc.m128_root args) "m128" max_threads
        = Return ([], w128) ->
        run = {| Io.stdout := [];
                 Io.stderr :=
                   "Erreur: aucune donnee exploitable."
                   :: Io.warning_lines (w16 ++ w128)%list;
                 Io.outcome := Return 1 |}) /\
     (Io.outcome run = Return 1 ->
      exists w16 w128,
        A15Ipc.collect (A15Ipc.m16_root args) "m16" max_threads
        = Return ([], w16) /\
        A15Ipc.collect (A15Ipc.m128_root args) "m128" max_threads
        = Return ([], w128)) /\
     (listing (A15Ipc.m16_root args) = None ->
      listing (A15Ipc.m128_root args) = None ->
      Io.stderr run
      = ["Erreur: aucune donnee exploitable.";
         "Avertissement: " ++ root_path (A15Ipc.m16_root args)
           ++ ": dossier absent";
         "Avertissement: " ++ root_path (A15Ipc.m128_root args)
           ++ ": dossier absent"])).
Proof.
  split.
  - intros plot write_csv args run. subst run. unfold A7IpcMax.main.
    split; [ | split ].
    + intros w16 w128 H1 H2. rewrite H1, H2. reflexivity.
    + destruct (A7IpcMax.collect (A7IpcMax.m16_root args)) as [ [m16 w16] | x ];
        [ | discriminate ].
      destruct (A7IpcMax.collect (A7IpcMax.m128_root args)) as [ [m128 w128] | x ];
        [ | discriminate ].
      destruct m16 as [ | r16 m16 ];
        [ destruct m128 as [ | r128 m128 ]; [ intros _; eauto | ] | ];
        match goal with
        | |- context [ match ?c with Return _ => _ | Raise _ => _ end ] =>
            destruct c
        end; discriminate.
    + intros H1 H2. unfold A7IpcMax.collect. rewrite H1, H2. reflexivity.
  - intros plot_metric write_csv args run mt. subst run mt. unfold A15Ipc.main.
    split; [ | split ].
    + intros w16 w128 H1 H2. rewrite H1, H2. reflexivity.
    + destruct (A15Ipc.collect (A15Ipc.m16_root args) _ _) as [ [m16 w16] | x ];
        [ | discriminate ].
      destruct (A15Ipc.collect (A15Ipc.m128_root args) _ _) as [ [m128 w128] | x ];
        [ | discriminate ].
      destruct m16 as [ | r16 m16 ];
        [ destruct m128 as [ | r128 m128 ]; [ intros _; eauto | ] | ];
        match goal with
        | |- context [ match ?c with Return _ => _ | Raise _ => _ end ] =>
            destruct c
        end; discriminate.
    + intros H1 H2. unfold A15Ipc.collect. rewrite H1, H2. reflexivity.
Qed.

Lemma main_returns_one_when_both_sweeps_are_empty_witness :
  Io.stderr
    (A7IpcMax.main (fun _ _ _ => Return tt) (fun _ _ _ => Return tt)
       {| A7IpcMax.m16_root := {| root_path := "m16"; listing := None |};
          A7IpcMax.m128_root := {| root_path := "m128"; listing := None |};
          A7IpcMax.output_png := "ipc.png"; A7IpcMax.output_csv := "ipc.csv" |})
  = ["Erreur: aucune donnee exploitable.";
     "Avertissement: m16: dossier absent";
     "Avertissement: m128: dossier absent"].
Proof.
  refine (proj2 (proj2 (proj1 main_returns_one_when_both_sweeps_are_empty
                          (fun _ _ _ => Return tt) (fun _ _ _ => Return tt)
                          {| A7IpcMax.m16_root := {| root_path := "m16"; listing := None |};
                             A7IpcMax.m128_root := {| root_path := "m128"; listing := None |};
                             A7IpcMax.output_png := "ipc.png";
                             A7IpcMax.output_csv := "ipc.csv" |})) _ _);
    reflexivity.
Defined.

(** X19. Two runs with the same thread count stop the Cortex-A7
    speedup script: when the sweep gives two points with the same
    thread count, [main] ends with an arithmetic exception that nothing
    catches, before anything is plotted, written or printed. *)
Theorem main_fails_on_duplicate_thread_counts :
  forall plot_speedup plot_efficiency write_csv write_report args pts ws,
    A7Speedup.collect_points (A7Speedup.input_root args) = Return (pts, ws) ->
    A7Metrics.duplicate_threads pts ->
    exists e,
      A7Speedup.main plot_speedup plot_efficiency write_csv write_report args
      = Io.uncaught e /\
      Spec.arithmetic e.
Proof.
  intros ps pe wc wr args pts ws Hc Hd.
  assert (Hs : StronglySorted A7Metrics.by_threads pts).
  { destruct (A7SweepFacts.a7_collect_sweep _ _ _ Hc) as (l & visited & _ & _ & ->).
    apply Sorted_StronglySorted; [ exact A7DuplicateFacts.by_threads_trans | ].
    unfold A7Speedup.sort_points.
    eapply sorted_impl; [ | apply sort_sorted ].
    - unfold before, A7Metrics.by_threads. intros x y Hxy.
      apply Z.ltb_ge in Hxy. exact Hxy.
    - intros x y Hxy. apply Z.ltb_lt in Hxy. apply Z.ltb_ge. lia. }
  destruct (A7DuplicateFacts.sorted_duplicate_adjacent pts Hs Hd)
    as (l1 & a & b & l3 & Hp & Ht).
  assert (He : exists e,
             A7Speedup.compute_metrics pts = Raise e /\ Spec.arithmetic e).
  { subst pts. unfold A7Speedup.compute_metrics.
    destruct (A7Speedup.baseline _) as [ bl | e ] eqn:Eb.
    - cbn [bind].
      destruct (A7Speedup.metrics_loop _ None _) as [ out | e ] eqn:El.
      + exfalso.
        eapply A7DuplicateFacts.metrics_loop_adjacent_duplicate; eassumption.
      + exists e. split; [ reflexivity | ].
        eapply A7DuplicateFacts.metrics_loop_arith; eassumption.
    - exfalso. unfold A7Speedup.baseline in Eb.
      destruct (l1 ++ a :: b :: l3)%list eqn:El; [ destruct l1; discriminate | ].
      destruct (find _ _) in Eb; discriminate. }
  destruct He as (e & He & Ha). exists e. split; [ | exact Ha ].
  unfold A7Speedup.main. rewrite Hc.
  destruct pts as [ | p pts ]; [ destruct l1; discriminate | ].
  rewrite He. reflexivity.
Qed.

Lemma main_fails_on_duplicate_thread_counts_witness :
  exists e,
    A7Speedup.main (fun _ _ _ => Return tt) (fun _ _ _ => Return tt)
      (fun _ _ => Return tt) (fun _ _ _ => Return tt)
      {| A7Speedup.input_root :=
           {| root_path := "m16";
              listing := Some [PointOrder.run_dir "t2_a" "600";
                               PointOrder.run_dir "t2_b" "500"] |};
         A7Speedup.root_name := "m16"; A7Speedup.matrix_label := None;
         A7Speedup.output_speedup_png := "speedup.png";
         A7Speedup.output_efficiency_png := "efficacite.png";
         A7Speedup.output_report := "rapport.txt";
         A7Speedup.output_csv := "resume.csv" |}
    = Io.uncaught e /\
    Spec.arithmetic e.
Proof.
  refine (main_fails_on_duplicate_thread_counts
            (fun _ _ _ => Return tt) (fun _ _ _ => Return tt)
            (fun _ _ => Return tt) (fun _ _ _ => Return tt)
            {| A7Speedup.input_root :=
                 {| root_path := "m16";
                    listing := Some [PointOrder.run_dir "t2_a" "600";
                                     PointOrder.run_dir "t2_b" "500"] |};
               A7Speedup.root_name := "m16"; A7Speedup.matrix_label := None;
               A7Speedup.output_speedup_png := "speedup.png";
               A7Speedup.output_efficiency_png := "efficacite.png";
               A7Speedup.output_report := "rapport.txt";
               A7Speedup.output_csv := "resume.csv" |}
            [A7Speedup.new_point 2 600 "t2_a"; A7Speedup.new_point 2 500 "t2_b"]
            [] _ _).
  - vm_compute. reflexivity.
  - exists [], (A7Speedup.new_point 2 600 "t2_a"), [],
      (A7Speedup.new_point 2 500 "t2_b"), [].
    split; reflexivity.
Defined.

(** ** The fallback on a whole number of cycles *)

Module ExactQuotientFacts.

Lemma digits_double (z : Z) : 0 < z -> Zdigits2 (2 * z) = Zdigits2 z + 1.
Proof.
  destruct z as [ | q | q ]; intros H; try lia.
  change (2 * Z.pos q) with (Z.pos q~0). cbn [Zdigits2 digits2_pos]. lia.
Qed.

Lemma digits_shift (k : Z) (s : Z) :
  0 < k -> 0 <= s -> Zdigits2 (k * 2 ^ s) = Zdigits2 k + s.
Proof.
  intros Hk Hs. revert s Hs. apply natlike_ind.
  - rewrite Z.mul_1_r. lia.
  - intros s Hs IH. rewrite Z.pow_succ_r by exact Hs.
    replace (k * (2 * 2 ^ s)) with (2 * (k * 2 ^ s)) by lia.
    rewrite digits_double; [ lia | ].
    apply Z.mul_pos_pos; [ exact Hk | ]. apply Z.pow_pos_nonneg; lia.
Qed.

Lemma digits_bound (p : positive) :
  forall n, 0 <= n -> Z.pos p < 2 ^ n -> Zdigits2 (Z.pos p) <= n.
Proof.
  induction p as [ p IH | p IH | ]; intros n Hn H; cbn [Zdigits2 digits2_pos].
  - assert (n <> 0) by (intros ->; cbn in H; lia).
    replace n with (Z.succ (n - 1)) in H by lia.
    rewrite Z.pow_succ_r in H by lia.
    specialize (IH (n - 1)). cbn [Zdigits2] in IH. lia.
  - assert (n <> 0) by (intros ->; cbn in H; lia).
    replace n with (Z.succ (n - 1)) in H by lia.
    rewrite Z.pow_succ_r in H by lia.
    specialize (IH (n - 1)). cbn [Zdigits2] in IH. lia.
  - assert (n <> 0) by (intros ->; cbn in H; lia). lia.
Qed.

Lemma digits_positive (p : positive) : 1 <= Zdigits2 (Z.pos p).
Proof. cbn. lia. Qed.

Lemma shr_1_double (z : Z) :
  0 < z ->
  shr_1 {| shr_m := 2 * z; shr_r := false; shr_s := false |}
  = {| shr_m := z; shr_r := false; shr_s := false |}.
Proof. destruct z as [ | q | q ]; intros H; try lia. reflexivity. Qed.

Lemma iter_shr_exact (n : positive) :
  forall m,
    0 < m ->
    iter_pos shr_1 n
      {| shr_m := m * 2 ^ Z.pos n; shr_r := false; shr_s := false |}
    = {| shr_m := m; shr_r := false; shr_s := false |}.
Proof.
  induction n as [ n IH | n IH | ]; intros m Hm; cbn [iter_pos].
  - replace (m * 2 ^ Z.pos n~1) with (2 * ((m * 2 ^ Z.pos n) * 2 ^ Z.pos n)).
    + assert (Hp : 0 < 2 ^ Z.pos n) by (apply Z.pow_pos_nonneg; lia).
      rewrite shr_1_double by (repeat apply Z.mul_pos_pos; assumption).
      rewrite IH by (apply Z.mul_pos_pos; assumption).
      now apply IH.
    + replace (Z.pos n~1) with (Z.succ (Z.pos n + Z.pos n)) by lia.
      rewrite Z.pow_succ_r, Z.pow_add_r by lia. lia.
  - replace (m * 2 ^ Z.pos n~0) with ((m * 2 ^ Z.pos n) * 2 ^ Z.pos n).
    + assert (Hp : 0 < 2 ^ Z.pos n) by (apply Z.pow_pos_nonneg; lia).
      rewrite IH by (apply Z.mul_pos_pos; assumption).
      now apply IH.
    + replace (Z.pos n~0) with (Z.pos n + Z.pos n) by lia.
      rewrite Z.pow_add_r by lia. lia.
  - change (2 ^ 1) with 2. rewrite Z.mul_comm. now apply shr_1_double.
Qed.

(** Rounding a quotient that is a whole number below [2^53] keeps it. *)
Lemma binary_round_aux_exact (k : positive) (s : Z) :
  Z.pos k < 2 ^ 53 -> 0 <= s ->
  exists m e,
    binary_round_aux 53 1024 false (Z.pos k * 2 ^ s) (- s) loc_Exact
    = S754_finite false m e /\
    e <= 0 /\ Z.pos m = Z.pos k * 2 ^ (- e).
Proof.
  intros Hk Hs.
  pose proof (digits_bound k 53 ltac:(lia) Hk) as Hd.
  pose proof (digits_positive k) as Hd1.
  assert (Hpow : forall t, 0 <= t -> 0 < Z.pos k * 2 ^ t).
  { intros t Ht. apply Z.mul_pos_pos; [ lia | apply Z.pow_pos_nonneg; lia ]. }
  unfold binary_round_aux, shr_fexp.
  rewrite digits_shift by lia.
  cbv [fexp emin]. cbn [shr_record_of_loc].
  replace (Z.max (Zdigits2 (Z.pos k) + s + - s - 53) (3 - 1024 - 53) - - s)
    with (Zdigits2 (Z.pos k) - 53 + s) by lia.
  destruct (Zdigits2 (Z.pos k) - 53 + s) as [ | n | n ] eqn:En; cbn [shr].
  - cbn [shr_m loc_of_shr_record round_nearest_even].
    rewrite digits_shift by lia.
    replace (Z.max (Zdigits2 (Z.pos k) + s + - s - 53) (3 - 1024 - 53) - - s)
      with 0 by lia.
    cbn [shr shr_m].
    pose proof (Hpow s Hs) as Hm.
    destruct (Z.pos k * 2 ^ s) as [ | m | m ] eqn:Em; try lia.
    replace (- s <=? 1024 - 53) with true by (symmetry; apply Z.leb_le; lia).
    exists m, (- s). split; [ reflexivity | split; [ lia | ] ].
    now rewrite Z.opp_involutive.
  - replace (Z.pos k * 2 ^ s) with ((Z.pos k * 2 ^ (s - Z.pos n)) * 2 ^ Z.pos n).
    2: { rewrite <- Z.mul_assoc, <- Z.pow_add_r by lia. f_equal. f_equal. lia. }
    rewrite iter_shr_exact by (apply Hpow; lia).
    cbn [shr_m loc_of_shr_record round_nearest_even].
    rewrite digits_shift by lia.
    replace (Z.max (Zdigits2 (Z.pos k) + (s - Z.pos n) + (- s + Z.pos n) - 53)
               (3 - 1024 - 53) - (- s + Z.pos n)) with 0 by lia.
    cbn [shr shr_m].
    pose proof (Hpow (s - Z.pos n) ltac:(lia)) as Hm.
    destruct (Z.pos k * 2 ^ (s - Z.pos n)) as [ | m | m ] eqn:Em; try lia.
    replace (- s + Z.pos n <=? 1024 - 53) with true
      by (symmetry; apply Z.leb_le; lia).
    exists m, (- s + Z.pos n). split; [ reflexivity | split; [ lia | ] ].
    rewrite <- Em. f_equal. f_equal. lia.
  - cbn [shr_m loc_of_shr_record round_nearest_even].
    rewrite digits_shift by lia.
    replace (Z.max (Zdigits2 (Z.pos k) + s + - s - 53) (3 - 1024 - 53) - - s)
      with (Z.neg n) by lia.
    cbn [shr shr_m].
    pose proof (Hpow s Hs) as Hm.
    destruct (Z.pos k * 2 ^ s) as [ | m | m ] eqn:Em; try lia.
    replace (- s <=? 1024 - 53) with true by (symmetry; apply Z.leb_le; lia).
    exists m, (- s). split; [ reflexivity | split; [ lia | ] ].
    now rewrite Z.opp_involutive.
Qed.

Lemma div_core_exact (k p : positive) :
  exists s,
    0 <= s /\
    SFdiv_core_binary 53 1024 (Z.pos (k * p)) 0 (Z.pos p) 0
    = (Z.pos k * 2 ^ s, - s, loc_Exact).
Proof.
  unfold SFdiv_core_binary.
  set (e' := Z.min _ (0 - 0)).
  assert (He : e' <= 0) by (subst e'; apply Z.le_min_r).
  exists (- e'). split; [ lia | ].
  replace (0 - 0 - e') with (- e') by lia.
  assert (Hm : match - e' with
               | 0 => Z.pos (k * p)
               | Z.pos _ => Z.shiftl (Z.pos (k * p)) (- e')
               | Z.neg _ => 0
               end = Z.pos (k * p) * 2 ^ (- e')).
  { destruct (- e') as [ | n | n ] eqn:En; [ lia | | lia ].
    rewrite Z.shiftl_mul_pow2 by lia. reflexivity. }
  rewrite Hm.
  assert (H : Z.div_eucl (Z.pos (k * p) * 2 ^ (- e')) (Z.pos p)
              = (Z.pos k * 2 ^ (- e'), 0)).
  { rewrite (surjective_pairing (Z.div_eucl _ _)).
    change (fst (Z.div_eucl ?a ?b)) with (a / b).
    change (snd (Z.div_eucl ?a ?b)) with (a mod b).
    replace (Z.pos (k * p) * 2 ^ (- e')) with ((Z.pos k * 2 ^ (- e')) * Z.pos p)
      by lia.
    rewrite Z.div_mul, Z.mod_mul by lia. reflexivity. }
  rewrite H. rewrite Z.opp_involutive. unfold new_location.
  destruct (Z.even (Z.pos p)); reflexivity.
Qed.

(** A tick count that is [k] periods, [k] below [2^53], gives [k]. *)
Lemma whole_quotient (k p : Z) :
  0 <= k < 2 ^ 53 -> 0 < p ->
  (q <- int_truediv (k * p) p ;; round q) = Return k.
Proof.
  intros Hk Hp. unfold int_truediv.
  replace (p =? 0) with false by (symmetry; apply Z.eqb_neq; lia).
  destruct p as [ | p | p ]; try lia.
  destruct k as [ | k | k ]; try lia; [ reflexivity | ].
  change (Z.pos k * Z.pos p) with (Z.pos (k * p)).
  unfold fdiv. cbn [Z2SF SFdiv].
  destruct (div_core_exact k p) as (s & Hs & ->). cbn [xorb].
  destruct (binary_round_aux_exact k s ltac:(lia) Hs) as (m & e & -> & He & Hm).
  cbn [xorb is_infinity bind round]. f_equal.
  unfold round_half_even.
  destruct (0 <=? e) eqn:E0.
  - apply Z.leb_le in E0. assert (e = 0) by lia. subst e.
    cbn in Hm. cbn. lia.
  - rewrite Hm.
    assert (Hd : 0 < 2 ^ (- e)) by (apply Z.pow_pos_nonneg; lia).
    rewrite Z.div_mul, Z.mod_mul by lia.
    assert (Hc : (2 * 0 ?= 2 ^ (- e)) = Lt) by (apply Z.compare_lt_iff; lia).
    now rewrite Hc.
Qed.

End ExactQuotientFacts.

(** X20. The fallback recovers a whole number of cycles exactly.  On a
    log without a cycle-count line, whose tick count is [k] times the
    clock period it uses (the core-local clock when the log has one,
    else the system-wide clock) with [0 <= k < 2^53], [parse_cycles]
    returns exactly [k]: neither the float division nor the rounding
    changes it. *)
Theorem fallback_is_exact_on_whole_cycles :
  (forall stats_path f k period,
     ScanSpec.no_line A15Performance.NUM_CYCLES_RE (lines f) ->
     ScanSpec.first_value A15Performance.SIM_TICKS_RE (lines f)
       = Some (k * period) ->
     ScanSpec.clock_period A15Performance.CPU_CLOCK_RE
       A15Performance.SYS_CLOCK_RE (lines f) = Some period ->
     0 < period -> 0 <= k < 2 ^ 53 ->
     A15Performance.parse_cycles stats_path f = Return k) /\
  (forall f k period,
     ScanSpec.no_line A7Cycles.NUM_CYCLES_RE (lines f) ->
     ScanSpec.first_value A7Cycles.SIM_TICKS_RE (lines f) = Some (k * period) ->
     ScanSpec.clock_period A7Cycles.CPU_CLOCK_RE
       A7Cycles.SYS_CLOCK_RE (lines f) = Some period ->
     0 < period -> 0 <= k < 2 ^ 53 ->
     A7Cycles.parse_cycles f = Return (k, "sim_ticks / clock_period")).
Proof.
  split.
  - intros stats_path f k period Hn Ht Hp Hpos Hk.
    unfold A15Performance.parse_cycles.
    rewrite (A15ScanFacts.a15_scan_no_cycles f Hn).
    cbn [TicksScan.cpu_cycles TicksScan.sim_ticks TicksScan.cpu_clock
         TicksScan.sys_clock].
    rewrite Ht. unfold ScanSpec.clock_period, ScanSpec.or_else in Hp.
    rewrite Hp, (usable_period_pos _ Hpos).
    now apply ExactQuotientFacts.whole_quotient.
  - intros f k period Hn Ht Hp Hpos Hk.
    unfold A7Cycles.parse_cycles.
    rewrite (A7ScanFacts.a7_scan_no_cycles f Hn).
    cbn [TicksScan.cpu_cycles TicksScan.sim_ticks TicksScan.cpu_clock
         TicksScan.sys_clock].
    rewrite Ht. unfold ScanSpec.clock_period, ScanSpec.or_else in Hp.
    rewrite Hp, (usable_period_pos _ Hpos).
    pose proof (ExactQuotientFacts.whole_quotient k period Hk Hpos) as Hq.
    destruct (int_truediv (k * period) period) as [ q | x ]; cbn [bind] in *;
      [ | discriminate ].
    now rewrite Hq.
Qed.

Lemma fallback_is_exact_on_whole_cycles_witness :
  A15Performance.parse_cycles "m16/w2_t1/stats.txt" ScanSpec.ticks_log
  = Return 500.
Proof.
  apply (proj1 fallback_is_exact_on_whole_cycles "m16/w2_t1/stats.txt"
           ScanSpec.ticks_log 500 1000).
  - repeat constructor.
  - reflexivity.
  - reflexivity.
  - lia.
  - lia.
Defined.

(** ** Directory names of a Cortex-A7 sweep, without the final underscore *)

Module A7NameFacts.
Import A15DirFacts.

Lemma cycles_bare_name (t : string) :
  number t -> re_match A7Cycles.DIR_RE ("t" ++ t) = Some [("threads", t)].
Proof.
  intros Ht.
  assert (H : re_match A7Cycles.DIR_RE ("t" ++ t ++ "") = Some [("threads", t)]).
  { unfold re_match, A7Cycles.DIR_RE. cbn [seq].
    rewrite run_seq, run_lit_app, run_seq.
    apply run_group_number; [ assumption | reflexivity | ].
    intros p. reflexivity. }
  now rewrite append_empty in H.
Qed.

Lemma speedup_bare_name (t : string) :
  number t -> re_match A7Speedup.DIR_RE ("t" ++ t) = None.
Proof.
  intros Ht.
  assert (H : re_match A7Speedup.DIR_RE ("t" ++ t ++ "") = None).
  { unfold re_match, A7Speedup.DIR_RE. cbn [seq].
    rewrite run_seq, run_lit_app, run_seq.
    apply run_group_number_none; [ assumption | reflexivity | | ].
    - intros p s g' Hs. rewrite run_seq, run_opt_none.
      + cbn [run]. now rewrite lit_digit_ahead by (exact digit_not_underscore || exact Hs).
      + rewrite run_seq. cbn [run].
        now rewrite lit_digit_ahead by (exact digit_not_underscore || exact Hs).
    - intros p g'. reflexivity. }
  now rewrite append_empty in H.
Qed.

Lemma ipc_max_bare_name (t : string) :
  number t -> re_match A7IpcMax.DIR_RE ("t" ++ t) = None.
Proof.
  intros Ht.
  assert (H : re_match A7IpcMax.DIR_RE ("t" ++ t ++ "") = None).
  { unfold re_match, A7IpcMax.DIR_RE. cbn [seq].
    rewrite run_seq, run_lit_app, run_seq.
    apply run_group_number_none; [ assumption | reflexivity | | ].
    - intros p s g' Hs. cbn [run].
      now rewrite lit_digit_ahead by (exact digit_not_underscore || exact Hs).
    - intros p g'. reflexivity. }
  now rewrite append_empty in H.
Qed.

Lemma ipc_max_cpus_name (t n rest : string) :
  number t ->
  re_match A7IpcMax.DIR_RE (cpus_name t n rest) = Some [("threads", t)].
Proof.
  intros Ht. unfold re_match, A7IpcMax.DIR_RE, cpus_name. cbn [seq].
  rewrite run_seq, run_lit_app, run_seq.
  apply run_group_number; [ assumption | reflexivity | ].
  intros p. reflexivity.
Qed.

Lemma cycles_cpus_end (t n : string) :
  number t -> number n ->
  re_match A7Cycles.DIR_RE ("t" ++ t ++ "_cpus" ++ n)
  = Some [("cpus", n); ("threads", t)].
Proof.
  intros Ht Hn.
  assert (H : re_match A7Cycles.DIR_RE ("t" ++ t ++ "_cpus" ++ n ++ "")
              = Some [("cpus", n); ("threads", t)]).
  { unfold re_match, A7Cycles.DIR_RE. cbn [seq].
    rewrite run_seq, run_lit_app, run_seq.
    apply run_group_number; [ assumption | reflexivity | ].
    intros p. rewrite run_seq. apply run_opt_some.
    rewrite run_seq, run_lit_app.
    apply run_group_number; [ assumption | reflexivity | ].
    intros q. reflexivity. }
  now rewrite append_empty in H.
Qed.

Lemma speedup_cpus_end (t n : string) :
  number t -> number n ->
  re_match A7Speedup.DIR_RE ("t" ++ t ++ "_cpus" ++ n) = Some [("threads", t)].
Proof.
  intros Ht Hn.
  assert (H : re_match A7Speedup.DIR_RE ("t" ++ t ++ "_cpus" ++ n ++ "")
              = Some [("threads", t)]).
  { unfold re_match, A7Speedup.DIR_RE. cbn [seq].
    rewrite run_seq, run_lit_app, run_seq.
    apply run_group_number; [ assumption | reflexivity | ].
    intros p. rewrite run_seq, run_opt_none; [ reflexivity | ].
    rewrite run_seq, run_lit_app.
    apply run_group_number_none; [ assumption | reflexivity | | ].
    - intros q s g' Hs. cbn [run].
      now rewrite lit_digit_ahead by (exact digit_not_underscore || exact Hs).
    - intros q g'. reflexivity. }
  now rewrite append_empty in H.
Qed.

End A7NameFacts.

(** X21. Where the three Cortex-A7 scripts disagree on a directory
    name, for runs of digits [t] and [n].  The name [t<t>] without an
    underscore is a configuration for the cycle script only.  The name
    [t<t>_cpus<n>] without a final underscore has the coordinate
    [int(n)] in the cycle script and [int(t)] in the speedup script,
    which reads [_cpus<n>] as the rest of the name.  The IPC script
    never reads the cpus token: [t<t>_cpus<n>_<rest>] has the thread
    count [int(t)] there. *)
Theorem cortex_a7_scripts_read_names_differently (t n rest : string) :
  number t -> number n ->
  (option_map A7Cycles.dir_cpus (re_match A7Cycles.DIR_RE ("t" ++ t))
     = Some (int t) /\
   re_match A7Speedup.DIR_RE ("t" ++ t) = None /\
   re_match A7IpcMax.DIR_RE ("t" ++ t) = None) /\
  (option_map A7Cycles.dir_cpus
     (re_match A7Cycles.DIR_RE ("t" ++ t ++ "_cpus" ++ n)) = Some (int n) /\
   option_map A7Speedup.dir_threads
     (re_match A7Speedup.DIR_RE ("t" ++ t ++ "_cpus" ++ n)) = Some (int t)) /\
  option_map (fun m => group_int m "threads")
    (re_match A7IpcMax.DIR_RE (cpus_name t n rest)) = Some (int t).
Proof.
  intros Ht Hn.
  rewrite (A7NameFacts.cycles_bare_name t Ht).
  rewrite (A7NameFacts.speedup_bare_name t Ht).
  rewrite (A7NameFacts.ipc_max_bare_name t Ht).
  rewrite (A7NameFacts.cycles_cpus_end t n Ht Hn).
  rewrite (A7NameFacts.speedup_cpus_end t n Ht Hn).
  rewrite (A7NameFacts.ipc_max_cpus_name t n rest Ht).
  repeat split; reflexivity.
Qed.

Lemma cortex_a7_scripts_read_names_differently_witness :
  (option_map A7Cycles.dir_cpus (re_match A7Cycles.DIR_RE "t4") = Some 4 /\
   re_match A7Speedup.DIR_RE "t4" = None /\
   re_match A7IpcMax.DIR_RE "t4" = None) /\
  (option_map A7Cycles.dir_cpus (re_match A7Cycles.DIR_RE "t4_cpus16") = Some 16 /\
   option_map A7Speedup.dir_threads (re_match A7Speedup.DIR_RE "t4_cpus16")
     = Some 4) /\
  option_map (fun m => group_int m "threads")
    (re_match A7IpcMax.DIR_RE "t4_cpus16_run") = Some 4.
Proof.
  refine (cortex_a7_scripts_read_names_differently "4" "16" "run" _ _).
  - split; [ reflexivity | discriminate ].
  - split; [ reflexivity | discriminate ].
Defined.

(** ** What the other sweeps collect *)

Module RowFacts.
Import RowSpec.

Lemma ipc_max_visit_shift (p0 : list A7IpcMax.Row) (w0 : list string)
  (e : Entry) :
  A7IpcMax.visit (p0, w0) e =
  (d <- A7IpcMax.visit ([], []) e ;;
   Return ((p0 ++ fst d)%list, (w0 ++ snd d)%list)).
Proof.
  unfold A7IpcMax.visit.
  destruct (negb (is_dir e)); [ shift_done | ].
  destruct (re_match A7IpcMax.DIR_RE (name e)); [ | shift_done ].
  destruct (stats_txt e) as [ f | ]; [ | shift_done ].
  destruct (st_size f =? 0); [ shift_done | ].
  destruct (A7IpcMax.parse_config _ f) as [ [[a b] c] | [ msg | msg | | | ] ];
    shift_done.
Qed.

Lemma cycles_visit_yields (e : Entry) (d : A7Cycles.State) :
  A7Cycles.visit ([], []) e = Return d ->
  forall r, In r (fst d) <-> cycles_yields e r.
Proof.
  unfold A7Cycles.visit, cycles_yields. cbv beta iota.
  destruct (is_dir e); cbn [negb].
  2: { intros [= <-] r. cbn. split; [ contradiction | intros [H _]; discriminate ]. }
  destruct (re_match A7Cycles.DIR_RE (name e)) as [ m | ].
  2: { intros [= <-] r. cbn. split; [ contradiction | ].
       intros (_ & m & f & c & s & H & _). discriminate. }
  destruct (stats_txt e) as [ f | ].
  2: { intros [= <-] r. cbn. split; [ contradiction | ].
       intros (_ & m' & f & c & s & _ & H & _). discriminate. }
  destruct (st_size f =? 0) eqn:Ez.
  { intros [= <-] r. cbn. split; [ contradiction | ].
    intros (_ & m' & f' & c & s & _ & [= <-] & Hz & _).
    apply Z.eqb_eq in Ez. contradiction. }
  apply Z.eqb_neq in Ez.
  destruct (A7Cycles.parse_cycles f) as [ [c src] | [ msg | msg | | | ] ] eqn:Ep;
    intros [= <-] r; cbn;
    (split; [ | intros (_ & m' & f' & c' & s' & [= <-] & [= <-] & _ & Hp & ->) ]);
      try contradiction; try congruence.
  - intros [ <- | [] ]. split; [ reflexivity | ]. exists m, f, c, src. auto.
  - left. congruence.
Qed.

Lemma ipc_max_visit_yields (e : Entry) (d : A7IpcMax.State) :
  A7IpcMax.visit ([], []) e = Return d ->
  forall r, In r (fst d) <-> ipc_max_yields e r.
Proof.
  unfold A7IpcMax.visit, ipc_max_yields. cbv beta iota.
  destruct (is_dir e); cbn [negb].
  2: { intros [= <-] r. cbn. split; [ contradiction | intros [H _]; discriminate ]. }
  destruct (re_match A7IpcMax.DIR_RE (name e)) as [ m | ].
  2: { intros [= <-] r. cbn. split; [ contradiction | ].
       intros (_ & m & f & a & b & c & H & _). discriminate. }
  destruct (stats_txt e) as [ f | ].
  2: { intros [= <-] r. cbn. split; [ contradiction | ].
       intros (_ & m' & f & a & b & c & _ & H & _). discriminate. }
  destruct (st_size f =? 0) eqn:Ez.
  { intros [= <-] r. cbn. split; [ contradiction | ].
    intros (_ & m' & f' & a & b & c & _ & [= <-] & Hz & _).
    apply Z.eqb_eq in Ez. contradiction. }
  apply Z.eqb_neq in Ez.
  destruct (A7IpcMax.parse_config _ f) as [ [[a b] c] | [ msg | msg | | | ] ] eqn:Ep;
    intros [= <-] r; cbn;
    (split; [ | intros (_ & m' & f' & a' & b' & c' & [= <-] & [= <-] & _ & Hp & ->) ]);
      try contradiction; try congruence.
  - intros [ <- | [] ]. split; [ reflexivity | ]. exists m, f, a, b, c. auto.
  - left. congruence.
Qed.

Lemma ipc_visit_yields (sim : string) (mt : option Z) (e : Entry)
  (d : A15Ipc.State) :
  A15Ipc.visit sim mt ([], []) e = Return d ->
  forall p, In p (fst d) <-> ipc_yields sim mt e p.
Proof.
  unfold A15Ipc.visit, ipc_yields. cbv beta iota.
  destruct (is_dir e); cbn [negb].
  2: { intros [= <-] r. cbn. split; [ contradiction | intros [H _]; discriminate ]. }
  destruct (re_match A15Ipc.DIR_RE (name e)) as [ m | ].
  2: { intros [= <-] r. cbn. split; [ contradiction | ].
       intros (_ & m & f & a & b & c & c' & H & _). discriminate. }
  destruct (A15Performance.over_max mt _) eqn:Eo.
  { intros [= <-] r. cbn. split; [ contradiction | ].
    intros (_ & m' & f & a & b & c & c' & [= <-] & H & _). congruence. }
  destruct (A15Performance.bad_status e) as [ status | ].
  { intros [= <-] r. cbn. split; [ contradiction | ].
    intros (_ & m' & f & a & b & c & c' & _ & _ & H & _). discriminate. }
  destruct (stats_txt e) as [ f | ].
  2: { intros [= <-] r. cbn. split; [ contradiction | ].
       intros (_ & m' & f & a & b & c & c' & _ & _ & _ & H & _). discriminate. }
  destruct (st_size f =? 0) eqn:Ez.
  { intros [= <-] r. cbn. split; [ contradiction | ].
    intros (_ & m' & f' & a & b & c & c' & _ & _ & _ & [= <-] & Hz & _).
    apply Z.eqb_eq in Ez. contradiction. }
  apply Z.eqb_neq in Ez.
  destruct (A15Ipc.parse_stats _ f) as [ [[[a b] c] c'] | [ msg | msg | | | ] ] eqn:Ep;
    intros [= <-] r; cbn;
    (split; [ | intros (_ & m' & f' & a' & b' & c1 & c2 & [= <-] & _ & _
                         & [= <-] & _ & Hp & ->) ]);
      try contradiction; try congruence.
  - intros [ <- | [] ]. split; [ reflexivity | ]. exists m, f, a, b, c, c'. auto 10.
  - left. congruence.
Qed.

Lemma in_sorted_entries (l : list Entry) (e : Entry) :
  In e (sorted_entries l) <-> In e l.
Proof.
  split; intros H.
  - apply (Permutation_in e (Permutation_sym (sorted_entries_perm l))). exact H.
  - apply (Permutation_in e (sorted_entries_perm l)). exact H.
Qed.

Lemma in_sort {A : Type} (lt : A -> A -> bool) (l : list A) (x : A) :
  In x (Seqs.sort lt l) <-> In x l.
Proof.
  split; intros H.
  - apply (Permutation_in x (Permutation_sym (sort_perm lt l))). exact H.
  - apply (Permutation_in x (sort_perm lt l)). exact H.
Qed.

End RowFacts.

(** X22. The rows of the other three collectors are exactly what the
    directories of the root give.  A row is returned if and only if
    some entry of the root is a directory whose name matches the
    grammar of the script and whose [stats.txt] exists, is not empty
    and is parsed without error (for the Cortex-A15 IPC script also:
    whose thread count is within the bound and whose status marker does
    not exclude it); the row holds the number read from the name and
    what the parser returned. *)
Theorem collected_rows_are_the_parsed_directories :
  (forall root rows ws,
     A7Cycles.collect_data root = Return (rows, ws) ->
     exists l,
       listing root = Some l /\
       forall r, In r rows <-> exists e, In e l /\ RowSpec.cycles_yields e r) /\
  (forall root l rows ws,
     listing root = Some l ->
     A7IpcMax.collect root = Return (rows, ws) ->
     forall r, In r rows <-> exists e, In e l /\ RowSpec.ipc_max_yields e r) /\
  (forall root l simulation max_threads pts ws,
     listing root = Some l ->
     A15Ipc.collect root simulation max_threads = Return (pts, ws) ->
     forall p,
       In p pts <->
       exists e, In e l /\ RowSpec.ipc_yields simulation max_threads e p).
Proof.
  split; [ | split ].
  - intros root rows ws H.
    destruct (A7CyclesSweepFacts.cycles_collect_sweep _ _ _ H)
      as (l & visited & Hl & Hs & ->).
    exists l. split; [ exact Hl | ]. intros r.
    pose proof (sweep_yields A7Cycles.visit A7CyclesSweepFacts.cycles_visit_shift
                  RowSpec.cycles_yields RowFacts.cycles_visit_yields
                  _ _ Hs r) as Hy.
    cbn [fst] in Hy. unfold A7Cycles.sort_rows.
    rewrite RowFacts.in_sort, Hy. split; intros (e & He & Hr); exists e;
      (split; [ now apply RowFacts.in_sorted_entries | exact Hr ]).
  - intros root l rows ws Hl. unfold A7IpcMax.collect. rewrite Hl.
    destruct (for_each A7IpcMax.visit (sorted_entries l) ([], []))
      as [ [visited ws'] | x ] eqn:Hs; cbn [bind fst snd]; [ | discriminate ].
    intros [= <- <-] r.
    pose proof (sweep_yields A7IpcMax.visit RowFacts.ipc_max_visit_shift
                  RowSpec.ipc_max_yields RowFacts.ipc_max_visit_yields
                  _ _ Hs r) as Hy.
    cbn [fst] in Hy. unfold A7IpcMax.sort_rows.
    rewrite RowFacts.in_sort, Hy. split; intros (e & He & Hr); exists e;
      (split; [ now apply RowFacts.in_sorted_entries | exact Hr ]).
  - intros root l sim mt pts ws Hl H.
    destruct (A15IpcCollectFacts.ipc_collect_sweep _ _ _ _ _ _ Hl H)
      as (visited & Hs & ->). intros p.
    pose proof (sweep_yields (A15Ipc.visit sim mt)
                  (A15IpcSweepFacts.ipc_visit_shift sim mt)
                  (RowSpec.ipc_yields sim mt) (RowFacts.ipc_visit_yields sim mt)
                  _ _ Hs p) as Hy.
    cbn [fst] in Hy. unfold A15Ipc.sort_points.
    rewrite RowFacts.in_sort, Hy. split; intros (e & He & Hr); exists e;
      (split; [ now apply RowFacts.in_sorted_entries | exact Hr ]).
Qed.

Lemma collected_rows_are_the_parsed_directories_witness :
  exists l,
    listing PointOrder.a7_root = Some l /\
    forall r,
      In r [(2, 600, "t2_run"); (10, 200, "t10_run")]
      <-> exists e, In e l /\ RowSpec.cycles_yields e r.
Proof.
  refine (proj1 collected_rows_are_the_parsed_directories
            PointOrder.a7_root _ [] _).
  vm_compute. reflexivity.
Defined.

(** ** The warnings of a sweep *)

Section SweepWarnings.
Context {P : Type}.
Variable visit : list P * list string -> Entry -> result (list P * list string).
Hypothesis visit_shift :
  forall p0 w0 e,
    visit (p0, w0) e =
    (d <- visit ([], []) e ;; Return ((p0 ++ fst d)%list, (w0 ++ snd d)%list)).
Variable warns : Entry -> string -> Prop.
Hypothesis visit_warns :
  forall e d,
    visit ([], []) e = Return d -> forall w, In w (snd d) <-> warns e w.

Lemma sweep_warns (es : list Entry) :
  forall d,
    sweep visit es = Return d ->
    forall w, In w (snd d) <-> exists e, In e es /\ warns e w.
Proof.
  induction es as [ | e es IH ]; intros d H w.
  - injection H as <-. cbn. split; [ contradiction | intros (e & [] & _) ].
  - rewrite (sweep_cons visit visit_shift) in H.
    destruct (visit ([], []) e) as [ d1 | x ] eqn:E1; [ | discriminate ].
    cbn [bind] in H.
    destruct (sweep visit es) as [ d2 | x ]; [ | discriminate ].
    cbn [bind] in H. injection H as <-. cbn [snd].
    rewrite in_app_iff, (visit_warns _ _ E1 w), (IH _ eq_refl w). split.
    + intros [ Hy | (e' & He' & Hy) ].
      * exists e. split; [ now left | exact Hy ].
      * exists e'. split; [ now right | exact Hy ].
    + intros (e' & [ <- | He' ] & Hy); [ now left | right; eauto ].
Qed.

End SweepWarnings.

Module WarningFacts.
Import WarningSpec.

Ltac no_warning :=
  let H := fresh "H" in
  intros [= <-] w; cbn; split; [ contradiction | intros H ].

Lemma a7_visit_warns (e : Entry) (d : A7Speedup.State) :
  A7Speedup.visit ([], []) e = Return d ->
  forall w, In w (snd d) <-> a7_warns e w.
Proof.
  unfold A7Speedup.visit, a7_warns, log_warning. cbv beta iota.
  destruct (is_dir e); cbn [negb].
  2: { no_warning. destruct H as [H _]. discriminate. }
  destruct (re_match A7Speedup.DIR_RE (name e)) as [ m | ].
  2: { no_warning. destruct H as (_ & [m H] & _). discriminate. }
  destruct (stats_txt e) as [ f | ].
  2: { intros [= <-] w. cbn. unfold append. cbn. split.
       - intros [ <- | [] ]. split; [ reflexivity | split; [ eauto | ] ].
         left. auto.
       - intros (_ & _ & [ [_ ->] | [ (f & H & _) | (f & H & _) ] ]);
           [ now left | discriminate | discriminate ]. }
  destruct (st_size f =? 0) eqn:Ez.
  { apply Z.eqb_eq in Ez. intros [= <-] w. cbn. unfold append. cbn. split.
    - intros [ <- | [] ]. split; [ reflexivity | split; [ eauto | ] ].
      right. left. exists f. auto.
    - intros (_ & _ & [ [H _] | [ (f' & _ & _ & ->) | (f' & [= <-] & H & _) ] ]);
        [ discriminate | now left | contradiction ]. }
  apply Z.eqb_neq in Ez.
  destruct (A7Speedup.parse_cycles _ f) as [ c | [ msg | msg | | | ] ] eqn:Ep;
    intros [= <-] w; cbn; unfold append; cbn.
  - split; [ contradiction | ].
    intros (_ & _ & [ [H _] | [ (f' & [= <-] & H & _) | (f' & [= <-] & _ & H) ] ]);
      [ discriminate | contradiction | congruence ].
  - split.
    + intros [ <- | [] ]. split; [ reflexivity | split; [ eauto | ] ].
      right. right. exists f. auto.
    + intros (_ & _ & [ [H _] | [ (f' & [= <-] & H & _) | (f' & [= <-] & _ & H) ] ]);
        [ discriminate | contradiction | ].
      left. congruence.
Qed.

Lemma a15_visit_warns (mt : option Z) (e : Entry) (d : A15Performance.State) :
  A15Performance.visit mt ([], []) e = Return d ->
  forall w, In w (snd d) <-> a15_warns mt e w.
Proof.
  unfold A15Performance.visit, a15_warns, log_warning. cbv beta iota.
  destruct (is_dir e); cbn [negb].
  2: { no_warning. destruct H as [H _]. discriminate. }
  destruct (A15Performance.parse_dir_name (name e)) as [ [wd t] | ].
  2: { no_warning. destruct H as (_ & (wd & t & H & _) & _). discriminate. }
  destruct (A15Performance.over_max mt t) eqn:Eo.
  { no_warning. destruct H as (_ & (wd' & t' & [= <- <-] & H) & _). congruence. }
  destruct (A15Performance.bad_status e) as [ status | ].
  { intros [= <-] w. cbn. unfold append. cbn. split.
    - intros [ <- | [] ]. split; [ reflexivity | split; [ eauto | ] ].
      left. eauto.
    - intros (_ & _ & [ (s & [= <-] & ->) | [H _] ]); [ now left | discriminate ]. }
  destruct (stats_txt e) as [ f | ].
  2: { intros [= <-] w. cbn. unfold append. cbn. split.
       - intros [ <- | [] ]. split; [ reflexivity | split; [ eauto | ] ].
         right. split; [ reflexivity | ]. left. auto.
       - intros (_ & _ & [ (s & H & _) | [_ [ [_ ->] | [ (f & H & _) | (f & H & _) ] ] ] ]);
           [ discriminate | now left | discriminate | discriminate ]. }
  destruct (st_size f =? 0) eqn:Ez.
  { apply Z.eqb_eq in Ez. intros [= <-] w. cbn. unfold append. cbn. split.
    - intros [ <- | [] ]. split; [ reflexivity | split; [ eauto | ] ].
      right. split; [ reflexivity | ]. right. left. exists f. auto.
    - intros (_ & _ & [ (s & H & _)
                      | [_ [ [H _] | [ (f' & _ & _ & ->) | (f' & [= <-] & H & _) ] ] ] ]);
        [ discriminate | discriminate | now left | contradiction ]. }
  apply Z.eqb_neq in Ez.
  destruct (A15Performance.parse_cycles _ f) as [ c | [ msg | msg | | | ] ] eqn:Ep;
    intros [= <-] w; cbn; unfold append; cbn.
  - split; [ contradiction | ].
    intros (_ & _ & [ (s & H & _)
                    | [_ [ [H _] | [ (f' & [= <-] & H & _) | (f' & [= <-] & _ & H) ] ] ] ]);
      [ discriminate | discriminate | contradiction | congruence ].
  - split.
    + intros [ <- | [] ]. split; [ reflexivity | split; [ eauto | ] ].
      right. split; [ reflexivity | ]. right. right. exists f. auto.
    + intros (_ & _ & [ (s & H & _)
                      | [_ [ [H _] | [ (f' & [= <-] & H & _) | (f' & [= <-] & _ & H) ] ] ] ]);
        [ discriminate | discriminate | contradiction | ].
      left. congruence.
Qed.

End WarningFacts.

(** X23. The warnings of [collect_points] are exactly what its
    directories give.  A warning is returned if and only if some entry
    of the root is a directory with a matching name (for the
    Cortex-A15, within the thread bound) and the warning says what is
    wrong with it: its status marker does not start with [OK]
    (Cortex-A15 only, checked first), its [stats.txt] is absent, its
    [stats.txt] is empty, or the parser raised [ValueError], whose
    message is then the warning. *)
Theorem collected_warnings_are_those_of_the_directories :
  (forall root pts ws,
     A7Speedup.collect_points root = Return (pts, ws) ->
     exists l,
       listing root = Some l /\
       forall w, In w ws <-> exists e, In e l /\ WarningSpec.a7_warns e w) /\
  (forall root max_threads pts ws,
     A15Performance.collect_points root max_threads = Return (pts, ws) ->
     exists l,
       listing root = Some l /\
       forall w,
         In w ws <-> exists e, In e l /\ WarningSpec.a15_warns max_threads e w).
Proof.
  split.
  - intros root pts ws H.
    destruct (A7SweepFacts.a7_collect_sweep _ _ _ H) as (l & visited & Hl & Hs & _).
    exists l. split; [ exact Hl | ]. intros w.
    pose proof (sweep_warns A7Speedup.visit A7SweepFacts.a7_visit_shift
                  WarningSpec.a7_warns WarningFacts.a7_visit_warns _ _ Hs w) as Hy.
    cbn [snd] in Hy. rewrite Hy. split; intros (e & He & Hw); exists e;
      (split; [ now apply RowFacts.in_sorted_entries | exact Hw ]).
  - intros root mt pts ws H.
    destruct (A15SweepFacts.a15_collect_sweep _ _ _ _ H)
      as (l & visited & Hl & Hs & _).
    exists l. split; [ exact Hl | ]. intros w.
    pose proof (sweep_warns (A15Performance.visit mt)
                  (A15SweepFacts.a15_visit_shift mt)
                  (WarningSpec.a15_warns mt) (WarningFacts.a15_visit_warns mt)
                  _ _ Hs w) as Hy.
    cbn [snd] in Hy. rewrite Hy. split; intros (e & He & Hw); exists e;
      (split; [ now apply RowFacts.in_sorted_entries | exact Hw ]).
Qed.

Lemma collected_warnings_are_those_of_the_directories_witness :
  exists l,
    listing StatusSpec.empty_log_root = Some l /\
    forall w,
      In w ["t2_run: stats.txt vide"]
      <-> exists e, In e l /\ WarningSpec.a7_warns e w.
Proof.
  refine (proj1 collected_warnings_are_those_of_the_directories
            StatusSpec.empty_log_root _ _ _).
  vm_compute. reflexivity.
Defined.

(** ** IPC lines *)

Module IpcLineFacts.
Import LineSpec LineFacts IpcLineSpec.

Lemma append_assoc3 (a b c : string) : a ++ b ++ c = (a ++ b) ++ c.
Proof. induction a as [ | x a IH ]; cbn; [ reflexivity | now rewrite IH ]. Qed.

Lemma all_in_prefix (c : charclass) (a1 a2 : string) :
  all_in c (a1 ++ a2) = true -> all_in c a1 = true.
Proof.
  induction a1 as [ | x a1 IH ]; cbn; [ reflexivity | ].
  intros H. apply andb_prop in H. destruct H as [-> H]. now apply IH.
Qed.

Lemma no_boundary_in_digits (a1 a2 b : string) (d : ascii) :
  isdigit d = true -> all_in Digit (a1 ++ a2) = true -> a2 <> "" ->
  xorb (word_before (last_read a1 (Some d))) (word_after (a2 ++ b)) = false.
Proof.
  intros Hd Ha Hne.
  rewrite (word_before_last_read a1 (Some d));
    [ | now apply digit_is_word | now apply all_in_prefix in Ha ].
  apply all_in_app in Ha.
  destruct a2 as [ | y a2 ]; [ now contradict Hne | ].
  cbn in Ha. apply andb_prop in Ha. destruct Ha as [Hy _].
  cbn [String.append word_after]. now rewrite (digit_is_word _ Hy).
Qed.

(** The value group of the IPC expression, then the word boundary. *)
Lemma run_ipc_value (ip fp rest : string) (g : groups) :
  all_in Digit ip = true -> ip <> "" -> value_before fp rest ->
  forall prev,
    run (Seq (Group "value"
                (Seq (Plus Digit) (Opt (Seq (Lit ".") (Plus Digit)))))
             WordB)
      prev (ip ++ "." ++ fp ++ rest) g (fun _ _ g' => Some g')
    = Some (("value", ipc_value ip fp rest) :: g).
Proof.
  intros Hi Hne (Hf & Hfne & Hr) prev.
  destruct ip as [ | d ip ]; [ now contradict Hne | ].
  destruct fp as [ | f fp ]; [ now contradict Hfne | ].
  cbn in Hi. apply andb_prop in Hi. destruct Hi as [Hd Hi].
  cbn in Hf. apply andb_prop in Hf. destruct Hf as [Hx Hf].
  cbn [in_class] in *.
  rewrite run_seq, run_group, run_seq.
  change (String d ip ++ "." ++ String f fp ++ rest)
    with (String d (ip ++ "." ++ String f fp ++ rest)).
  rewrite run_plus_cons. cbn [in_class]. rewrite Hd.
  rewrite (star_exact Digit _ ("." ++ String f fp ++ rest) eq_refl ip (Some d) Hi).
  - cbv beta. cbn [run].
    rewrite lit_app. cbv beta iota.
    change (String f fp ++ rest) with (String f (fp ++ rest)).
    cbn [in_class]. rewrite Hx.
    rewrite (star_exact Digit _ rest Hr fp (Some f) Hf).
    + rewrite (word_before_last_read fp (Some f));
        [ | now apply digit_is_word | exact Hf ].
      unfold ipc_value. destruct (word_after rest) eqn:Ew; cbn [xorb].
      * cbn [last_read]. 
        rewrite (word_before_last_read ip (Some d));
          [ | now apply digit_is_word | exact Hi ].
        cbn [String.append word_after]. cbn [xorb].
        change (String d (ip ++ String "." (String f (fp ++ rest))))
          with (String d ip ++ String "." (String f (fp ++ rest))).
        now rewrite consumed_app.
      * replace (String d (ip ++ "." ++ String f (fp ++ rest)))
          with ((String d ip ++ "." ++ String f fp) ++ rest)
          by (rewrite <- append_assoc3; reflexivity).
        now rewrite consumed_app.
    + intros a1 a2 -> Hne2.
      now rewrite no_boundary_in_digits.
  - intros a1 a2 -> Hne2. cbn [run].
    assert (Hl : lit "." (last_read a1 (Some d))
                   (a2 ++ "." ++ String f fp ++ rest) = None).
    { apply lit_none. apply all_in_app in Hi.
      destruct a2 as [ | y a2 ]; [ now contradict Hne2 | ].
      cbn in Hi. apply andb_prop in Hi. destruct Hi as [Hy _].
      cbn [String.append String.prefix].
      destruct (Ascii.ascii_dec "." y) as [ <- | ]; [ discriminate Hy | reflexivity ]. }
    rewrite Hl.
    now rewrite no_boundary_in_digits.
Qed.

Lemma ipc_line_match (idx ws ip fp rest : string) :
  all_in Digit idx = true -> blank ws ->
  all_in Digit ip = true -> ip <> "" -> value_before fp rest ->
  re_match A15Ipc.IPC_RE (ipc_line idx ws ip fp rest)
  = Some [("value", ipc_value ip fp rest)].
Proof.
  intros Hidx (Hw & Hwne) Hi Hne Hv.
  unfold re_match, A15Ipc.IPC_RE, ipc_line.
  change (seq [Lit "system.cpu"; Star Digit; Lit ".ipc"; Plus Space;
               Group "value"
                 (Seq (Plus Digit) (Opt (Seq (Lit ".") (Plus Digit))));
               WordB])
    with (Seq (Lit "system.cpu")
            (Seq (Star Digit)
               (Seq (Lit ".ipc")
                  (Seq (Plus Space)
                     (Seq (Group "value"
                             (Seq (Plus Digit)
                                (Opt (Seq (Lit ".") (Plus Digit)))))
                          WordB))))).
  rewrite run_seq, run_lit_app. cbv beta. rewrite run_seq.
  change (run (Star Digit) ?p ?s ?g ?k) with (star Digit p s (fun p' s' => k p' s' g)).
  rewrite (star_exact Digit _ (".ipc" ++ ws ++ ip ++ "." ++ fp ++ rest)
             eq_refl idx _ Hidx).
  - rewrite run_seq, run_lit_app. cbv beta. rewrite run_seq.
    destruct ws as [ | w ws ]; [ now contradict Hwne | ].
    cbn in Hw. apply andb_prop in Hw. destruct Hw as [Hx Hw].
    cbn [String.append]. rewrite run_plus_cons. cbn [in_class] in *. rewrite Hx.
    assert (Hahead : class_ahead Space (ip ++ "." ++ fp ++ rest) = false).
    { destruct ip as [ | d ip ]; [ now contradict Hne | ].
      cbn in *. apply andb_prop in Hi. destruct Hi as [Hd _].
      now apply digit_not_space. }
    rewrite (star_exact Space _ (ip ++ "." ++ fp ++ rest) Hahead ws (Some w) Hw).
    + cbv beta. now apply run_ipc_value.
    + intros a1 a2 -> Hne2. apply all_in_app in Hw.
      destruct a2 as [ | y a2 ]; [ now contradict Hne2 | ].
      cbn in Hw. apply andb_prop in Hw. destruct Hw as [Hy _].
      rewrite run_seq, run_group, run_seq. cbn [String.append].
      rewrite run_plus_cons. cbn [in_class]. now rewrite (space_not_digit _ Hy).
  - intros a1 a2 -> Hne2. apply all_in_app in Hidx.
    destruct a2 as [ | y a2 ]; [ now contradict Hne2 | ].
    cbn in Hidx. apply andb_prop in Hidx. destruct Hidx as [Hy _].
    rewrite run_seq. apply run_lit_none. cbn [String.append String.prefix].
    destruct (Ascii.ascii_dec "." y) as [ <- | ]; [ discriminate Hy | reflexivity ].
Qed.

End IpcLineFacts.

(** X24. How the IPC script reads an IPC line
    [system.cpu<idx>.ipc <int>.<frac><rest>].  The value is the decimal
    number [<int>.<frac>] when [rest] is empty or starts with a
    character that is no letter, digit or underscore.  When such a
    character follows the fraction, as in [1.5e-05], the line is still
    taken and the value is the integer part alone.  In both cases the
    scanner appends [float] of that text to its IPC readings and
    changes nothing else. *)
Theorem ipc_line_reading :
  forall idx ws int_part frac rest,
    LineSpec.all_in Digit idx = true -> LineSpec.blank ws ->
    LineSpec.all_in Digit int_part = true -> int_part <> "" ->
    LineSpec.value_before frac rest ->
    re_match A15Ipc.IPC_RE (IpcLineSpec.ipc_line idx ws int_part frac rest)
      = Some [("value", IpcLineSpec.ipc_value int_part frac rest)] /\
    (word_after rest = false ->
     IpcLineSpec.ipc_value int_part frac rest = int_part ++ "." ++ frac) /\
    (word_after rest = true ->
     IpcLineSpec.ipc_value int_part frac rest = int_part) /\
    (forall st line,
       strip line = IpcLineSpec.ipc_line idx ws int_part frac rest ->
       A15Ipc.scan_line st line
       = {| A15Ipc.cycles := A15Ipc.cycles st;
            A15Ipc.ipc_vals :=
              append (A15Ipc.ipc_vals st)
                (float_of_string (IpcLineSpec.ipc_value int_part frac rest));
            A15Ipc.insts := A15Ipc.insts st |}).
Proof.
  intros idx ws ip fp rest Hidx Hw Hi Hne Hv.
  pose proof (IpcLineFacts.ipc_line_match idx ws ip fp rest Hidx Hw Hi Hne Hv) as Hm.
  split; [ exact Hm | split; [ | split ] ].
  - unfold IpcLineSpec.ipc_value. now intros ->.
  - unfold IpcLineSpec.ipc_value. now intros ->.
  - intros st line Hl. unfold A15Ipc.scan_line. cbv zeta. rewrite Hl.
    rewrite (A15IpcFacts.IPC_not_CYC _ _ Hm), Hm. reflexivity.
Qed.

Lemma ipc_line_reading_witness :
  re_match A15Ipc.IPC_RE "system.cpu0.ipc 1.5e-05" = Some [("value", "1")].
Proof.
  refine (proj1 (ipc_line_reading "0" " " "1" "5" "e-05" _ _ _ _ _)).
  - reflexivity.
  - split; [ reflexivity | discriminate ].
  - reflexivity.
  - discriminate.
  - split; [ reflexivity | split; [ discriminate | reflexivity ] ].
Defined.

(** * The claims that the sweep and the run decide *)

(** ** A series with a repeated thread count *)

Module A7RunFacts.
Import A7Speedup Spec A7Metrics.

Lemma collected_by_threads (root : Root) (pts : list Point) (ws : list string) :
  collect_points root = Return (pts, ws) -> StronglySorted by_threads pts.
Proof.
  intros H.
  destruct (A7SweepFacts.a7_collect_sweep _ _ _ H) as (l & visited & _ & _ & ->).
  apply Sorted_StronglySorted; [ exact A7DuplicateFacts.by_threads_trans | ].
  unfold sort_points. eapply sorted_impl; [ | apply sort_sorted ].
  - unfold before, by_threads. intros x y Hxy. apply Z.ltb_ge in Hxy. exact Hxy.
  - intros x y Hxy. apply Z.ltb_lt in Hxy. apply Z.ltb_ge. lia.
Qed.

Lemma sorted_duplicate_raises (pts : list Point) :
  StronglySorted by_threads pts -> duplicate_threads pts ->
  exists e, compute_metrics pts = Raise e /\ arithmetic e.
Proof.
  intros Hs Hd.
  destruct (A7DuplicateFacts.sorted_duplicate_adjacent pts Hs Hd)
    as (l1 & a & b & l3 & -> & Ht).
  unfold compute_metrics.
  destruct (baseline _) as [ bl | e ] eqn:Eb.
  - cbn [bind].
    destruct (metrics_loop _ None _) as [ out | e ] eqn:El.
    + exfalso. eapply A7DuplicateFacts.metrics_loop_adjacent_duplicate; eassumption.
    + exists e. split; [ reflexivity | ].
      eapply A7DuplicateFacts.metrics_loop_arith; eassumption.
  - exfalso. unfold baseline in Eb.
    destruct (l1 ++ a :: b :: l3)%list eqn:El; [ destruct l1; discriminate | ].
    destruct (find _ _) in Eb; discriminate.
Qed.

Section Run.
Variable plot_speedup : list Point -> string -> string -> result unit.
Variable plot_efficiency : list Point -> string -> string -> result unit.
Variable write_csv : list Point -> string -> result unit.
Variable write_report : list Point -> string -> Root -> result unit.

(** Nothing catches what [compute_metrics] raises. *)
Lemma main_metrics_failure (args : Args) (pts : list Point) (ws : list string)
  (e : exn) :
  collect_points (input_root args) = Return (pts, ws) ->
  pts <> [] ->
  compute_metrics pts = Raise e ->
  main plot_speedup plot_efficiency write_csv write_report args = uncaught e.
Proof.
  intros Hc Hne He. unfold main. rewrite Hc.
  destruct pts as [ | p pts ]; [ now contradict Hne | ].
  rewrite He. reflexivity.
Qed.

End Run.

Lemma duplicate_not_nil (pts : list Point) : duplicate_threads pts -> pts <> [].
Proof. intros (l1 & a & l2 & b & l3 & -> & _). destruct l1; discriminate. Qed.

End A7RunFacts.

(** C3, as amended. On a series in ascending thread order that holds
    two points with the same thread count, the Cortex-A7
    [compute_metrics] stores no metric, NaN or other: it raises an
    arithmetic exception ([ZeroDivisionError] at the zero thread delta,
    or the [ZeroDivisionError] or [OverflowError] of an earlier
    quotient).  Nothing catches it: when the sweep gives such a series,
    [main] ends with that exception, with nothing printed and whatever
    the plotting and writing functions are. *)
Theorem compute_metrics_duplicate_threads_fails :
  (forall pts,
     Sorted A7Metrics.by_threads pts ->
     A7Metrics.duplicate_threads pts ->
     exists e, A7Speedup.compute_metrics pts = Raise e /\ Spec.arithmetic e) /\
  (forall plot_speedup plot_efficiency write_csv write_report args pts ws,
     A7Speedup.collect_points (A7Speedup.input_root args) = Return (pts, ws) ->
     A7Metrics.duplicate_threads pts ->
     exists e,
       A7Speedup.compute_metrics pts = Raise e /\ Spec.arithmetic e /\
       A7Speedup.main plot_speedup plot_efficiency write_csv write_report args
       = {| Io.stdout := []; Io.stderr := []; Io.outcome := Raise e |}).
Proof.
  split.
  - intros pts Hs Hd. apply A7RunFacts.sorted_duplicate_raises; [ | exact Hd ].
    apply Sorted_StronglySorted; [ exact A7DuplicateFacts.by_threads_trans | exact Hs ].
  - intros ps pe wc wr args pts ws Hc Hd.
    destruct (A7RunFacts.sorted_duplicate_raises pts
                (A7RunFacts.collected_by_threads _ _ _ Hc) Hd) as (e & He & Ha).
    exists e. split; [ exact He | split; [ exact Ha | ] ].
    apply (A7RunFacts.main_metrics_failure ps pe wc wr args pts ws e Hc);
      [ now apply A7RunFacts.duplicate_not_nil | exact He ].
Qed.

Lemma compute_metrics_duplicate_threads_fails_witness :
  (exists e,
     A7Speedup.compute_metrics
       [A7Speedup.new_point 1 1000 "t1_a"; A7Speedup.new_point 2 600 "t2_a";
        A7Speedup.new_point 2 500 "t2_b"] = Raise e /\ Spec.arithmetic e) /\
  (exists e,
     A7Speedup.compute_metrics
       [A7Speedup.new_point 2 600 "t2_a"; A7Speedup.new_point 2 500 "t2_b"]
     = Raise e /\ Spec.arithmetic e /\
     A7Speedup.main (fun _ _ _ => Return tt) (fun _ _ _ => Return tt)
       (fun _ _ => Return tt) (fun _ _ _ => Return tt)
       {| A7Speedup.input_root :=
            {| root_path := "m16";
               listing := Some [PointOrder.run_dir "t2_b" "500";
                                PointOrder.run_dir "t2_a" "600"] |};
          A7Speedup.root_name := "m16"; A7Speedup.matrix_label := None;
          A7Speedup.output_speedup_png := "speedup.png";
          A7Speedup.output_efficiency_png := "efficacite.png";
          A7Speedup.output_report := "rapport.txt";
          A7Speedup.output_csv := "resume.csv" |}
     = {| Io.stdout := []; Io.stderr := []; Io.outcome := Raise e |}).
Proof.
  split.
  - apply (proj1 compute_metrics_duplicate_threads_fails).
    + repeat constructor; unfold A7Metrics.by_threads; cbn; lia.
    + exists [A7Speedup.new_point 1 1000 "t1_a"],
        (A7Speedup.new_point 2 600 "t2_a"), [],
        (A7Speedup.new_point 2 500 "t2_b"), [].
      split; reflexivity.
  - refine (proj2 compute_metrics_duplicate_threads_fails
              (fun _ _ _ => Return tt) (fun _ _ _ => Return tt)
              (fun _ _ => Return tt) (fun _ _ _ => Return tt)
              _ _ [] _ _).
    + vm_compute. reflexivity.
    + exists [], (A7Speedup.new_point 2 600 "t2_a"), [],
        (A7Speedup.new_point 2 500 "t2_b"), [].
      split; reflexivity.
Defined.

(** C3, the claim as stated fails.  A series may hold two points with
    the same thread count and have all its metrics computed: in the
    Cortex-A7 script when the two points are not neighbours (a series
    out of thread order), and in the Cortex-A15 script, which computes
    no metric from a thread delta, on any series; here the directories
    [t2_w4] and [w4_t2] of one sweep.  And where the computation does
    fail, the exception is Python's [ZeroDivisionError], which ends the
    whole run. *)
Lemma duplicate_threads_without_failure :
  (A7Metrics.duplicate_threads
     [A7Speedup.new_point 2 600 "t2_a"; A7Speedup.new_point 1 1000 "t1_a";
      A7Speedup.new_point 2 500 "t2_b"] /\
   exists out,
     A7Speedup.compute_metrics
       [A7Speedup.new_point 2 600 "t2_a"; A7Speedup.new_point 1 1000 "t1_a";
        A7Speedup.new_point 2 500 "t2_b"] = Return out) /\
  (exists grouped,
     A15Performance.collect_points
       {| root_path := "m16";
          listing := Some [PointOrder.run_dir "w4_t1" "1000";
                           PointOrder.run_dir "t2_w4" "600";
                           PointOrder.run_dir "w4_t2" "500"] |} None
     = Return ([A15Performance.new_point 4 1 1000 "w4_t1";
                A15Performance.new_point 4 2 600 "t2_w4";
                A15Performance.new_point 4 2 500 "w4_t2"], []) /\
     A15Performance.compute_metrics
       [A15Performance.new_point 4 1 1000 "w4_t1";
        A15Performance.new_point 4 2 600 "t2_w4";
        A15Performance.new_point 4 2 500 "w4_t2"] = Return grouped) /\
  A7Speedup.main (fun _ _ _ => Return tt) (fun _ _ _ => Return tt)
    (fun _ _ => Return tt) (fun _ _ _ => Return tt)
    {| A7Speedup.input_root :=
         {| root_path := "m16";
            listing := Some [PointOrder.run_dir "t2_b" "500";
                             PointOrder.run_dir "t2_a" "600"] |};
       A7Speedup.root_name := "m16"; A7Speedup.matrix_label := None;
       A7Speedup.output_speedup_png := "speedup.png";
       A7Speedup.output_efficiency_png := "efficacite.png";
       A7Speedup.output_report := "rapport.txt";
       A7Speedup.output_csv := "resume.csv" |}
  = Io.uncaught ZeroDivisionError.
Proof.
  split; [ split | split ].
  - exists [], (A7Speedup.new_point 2 600 "t2_a"),
      [A7Speedup.new_point 1 1000 "t1_a"], (A7Speedup.new_point 2 500 "t2_b"), [].
    split; reflexivity.
  - eexists. vm_compute. reflexivity.
  - eexists. split; vm_compute; reflexivity.
  - vm_compute. reflexivity.
Qed.

(** ** The order of a sweep *)

Section SweepOrder.
Context {P : Type}.
Variable visit : list P * list string -> Entry -> result (list P * list string).
Hypothesis visit_shift :
  forall p0 w0 e,
    visit (p0, w0) e =
    (d <- visit ([], []) e ;; Return ((p0 ++ fst d)%list, (w0 ++ snd d)%list)).
Variable warns : Entry -> string -> Prop.

(** A visit gives at most one warning, the one of the directory. *)
Hypothesis visit_warning :
  forall e d,
    visit ([], []) e = Return d ->
    snd d = [] \/ exists w, snd d = [w] /\ warns e w.

Lemma sweep_warnings_in_order (es : list Entry) :
  forall d,
    sweep visit es = Return d ->
    exists warned, subseq warned es /\ Forall2 warns warned (snd d).
Proof.
  induction es as [ | e es IH ]; intros d H.
  - injection H as <-. exists []. split; constructor.
  - rewrite (sweep_cons visit visit_shift) in H.
    destruct (visit ([], []) e) as [ d1 | x ] eqn:E1; [ | discriminate ].
    cbn [bind] in H.
    destruct (sweep visit es) as [ d2 | x ]; [ | discriminate ].
    cbn [bind] in H. injection H as <-. cbn [snd].
    destruct (IH _ eq_refl) as (warned & Hs & Hw).
    destruct (visit_warning _ _ E1) as [ -> | (w & -> & Hew) ]; cbn [app].
    + exists warned. split; [ now constructor | exact Hw ].
    + exists (e :: warned). split; [ now constructor | now constructor ].
Qed.

End SweepOrder.

Module WarningOrderFacts.
Import WarningSpec.

Lemma one_warning (ws : list string) (P : string -> Prop) :
  (List.length ws <= 1)%nat -> (forall w, In w ws -> P w) ->
  ws = [] \/ exists w, ws = [w] /\ P w.
Proof.
  destruct ws as [ | w [ | w' ws ] ]; cbn; intros Hl Hp.
  - now left.
  - right. exists w. split; [ reflexivity | ]. apply Hp. now left.
  - lia.
Qed.

Lemma a7_visit_warning (e : Entry) (d : A7Speedup.State) :
  A7Speedup.visit ([], []) e = Return d ->
  snd d = [] \/ exists w, snd d = [w] /\ a7_warns e w.
Proof.
  intros H. apply one_warning.
  - pose proof (A7CollectFacts.a7_visit_one e d H) as H1.
    destruct (CollectSpec.a7_counted e); lia.
  - intros w Hw. now apply (WarningFacts.a7_visit_warns e d H).
Qed.

Lemma a15_visit_warning (mt : option Z) (e : Entry) (d : A15Performance.State) :
  A15Performance.visit mt ([], []) e = Return d ->
  snd d = [] \/ exists w, snd d = [w] /\ a15_warns mt e w.
Proof.
  intros H. apply one_warning.
  - pose proof (A15CollectFacts.a15_visit_one mt e d H) as H1.
    destruct (CollectSpec.a15_counted mt e); lia.
  - intros w Hw. now apply (WarningFacts.a15_visit_warns mt e d H).
Qed.

End WarningOrderFacts.

(** C7, as amended. The scanner visits the directories in the
    lexicographic order of their names: its warnings are those of the
    directories that give one, in that order.  It then sorts the points
    it collected: by thread count in the Cortex-A7 script, by
    (width, threads) in the Cortex-A15 script.  The sort is stable, so
    points with the same key stay in the order of their directory
    names. *)
Theorem collected_points_order :
  (forall l, StronglySorted name_le (map name (sorted_entries l))) /\
  (forall root pts ws,
     A7Speedup.collect_points root = Return (pts, ws) ->
     (exists l warned,
        listing root = Some l /\
        subseq warned (sorted_entries l) /\
        Forall2 WarningSpec.a7_warns warned ws) /\
     Sorted A7Metrics.by_threads pts /\
     forall k,
       StronglySorted PointOrder.a7_by_folder
         (filter (PointOrder.a7_same_threads k) pts)) /\
  (forall root max_threads pts ws,
     A15Performance.collect_points root max_threads = Return (pts, ws) ->
     (exists l warned,
        listing root = Some l /\
        subseq warned (sorted_entries l) /\
        Forall2 (WarningSpec.a15_warns max_threads) warned ws) /\
     Sorted PointOrder.a15_by_key pts /\
     forall w t,
       StronglySorted PointOrder.a15_by_folder
         (filter (PointOrder.a15_same_key w t) pts)).
Proof.
  split; [ exact sorted_entries_names | split ].
  - intros root pts ws H.
    apply A7SweepFacts.a7_collect_sweep in H.
    destruct H as (l & visited & Hl & Hs & ->). split.
    { destruct (sweep_warnings_in_order A7Speedup.visit A7SweepFacts.a7_visit_shift
                  WarningSpec.a7_warns WarningOrderFacts.a7_visit_warning _ _ Hs)
        as (warned & Hsub & Hw).
      exists l, warned. auto. }
    apply A7SweepFacts.a7_visited_by_folder in Hs. cbn [fst] in Hs.
    unfold A7Speedup.sort_points. split.
    + eapply sorted_impl; [ | apply sort_sorted ].
      * unfold before, A7Metrics.by_threads. intros x y Hxy.
        apply Z.ltb_ge in Hxy. exact Hxy.
      * intros x y Hxy. apply Z.ltb_lt in Hxy. apply Z.ltb_ge. lia.
    + intros k. rewrite sort_filter.
      * eapply subseq_strongly_sorted; [ apply subseq_filter | exact Hs ].
      * unfold PointOrder.a7_same_threads. intros x y Hx Hy.
        apply Z.eqb_eq in Hx, Hy. apply Z.ltb_ge. lia.
  - intros root max_threads pts ws H.
    apply A15SweepFacts.a15_collect_sweep in H.
    destruct H as (l & visited & Hl & Hs & ->). split.
    { destruct (sweep_warnings_in_order (A15Performance.visit max_threads)
                  (A15SweepFacts.a15_visit_shift max_threads)
                  (WarningSpec.a15_warns max_threads)
                  (WarningOrderFacts.a15_visit_warning max_threads) _ _ Hs)
        as (warned & Hsub & Hw).
      exists l, warned. auto. }
    apply A15SweepFacts.a15_visited_by_folder in Hs. cbn [fst] in Hs.
    unfold A15Performance.sort_points. split.
    + eapply sorted_impl; [ exact A15SweepFacts.key_before | ].
      apply sort_sorted. exact A15SweepFacts.key_ltb_asym.
    + intros w t. rewrite sort_filter.
      * eapply subseq_strongly_sorted; [ apply subseq_filter | exact Hs ].
      * unfold PointOrder.a15_same_key, A15Performance.key_ltb. intros x y Hx Hy.
        apply andb_true_iff in Hx, Hy.
        rewrite !Z.eqb_eq in Hx, Hy. apply orb_false_iff.
        rewrite andb_false_iff, Z.ltb_ge, Z.eqb_neq, Z.ltb_ge. lia.
Qed.

Lemma collected_points_order_witness :
  (exists pts,
     A7Speedup.collect_points PointOrder.a7_root = Return (pts, []) /\
     Sorted A7Metrics.by_threads pts /\
     forall k,
       StronglySorted PointOrder.a7_by_folder
         (filter (PointOrder.a7_same_threads k) pts)) /\
  (exists l warned,
     listing StatusSpec.empty_log_root = Some l /\
     subseq warned (sorted_entries l) /\
     Forall2 WarningSpec.a7_warns warned ["t2_run: stats.txt vide"]).
Proof.
  split.
  - eexists. split; [ vm_compute; reflexivity | ].
    refine (proj2 (proj1 (proj2 collected_points_order)
                     PointOrder.a7_root _ [] _)).
    vm_compute. reflexivity.
  - refine (proj1 (proj1 (proj2 collected_points_order)
                     StatusSpec.empty_log_root _ _ _)).
    vm_compute. reflexivity.
Defined.

(** ** The coordinate of a Cortex-A7 directory *)

Module A7BuildFacts.

Lemma speedup_visit_builds (st : A7Speedup.State) (e : Entry) (m : groups)
  (f : TextFile) (c : Z) :
  re_match A7Speedup.DIR_RE (name e) = Some m ->
  is_dir e = true -> stats_txt e = Some f -> st_size f <> 0 ->
  A7Speedup.parse_cycles (path e ++ "/stats.txt") f = Return c ->
  A7Speedup.visit st e
  = Return ((fst st ++ [A7Speedup.new_point (A7Speedup.dir_threads m) c (name e)])%list,
            snd st).
Proof.
  intros Hm Hd Hf Hz Hp. destruct st as [pts ws]. unfold A7Speedup.visit.
  rewrite Hm, Hd, Hf, Hp. cbn [negb].
  replace (st_size f =? 0) with false by (symmetry; now apply Z.eqb_neq).
  reflexivity.
Qed.

Lemma cycles_visit_builds (st : A7Cycles.State) (e : Entry) (m : groups)
  (f : TextFile) (c : Z) (source : string) :
  re_match A7Cycles.DIR_RE (name e) = Some m ->
  is_dir e = true -> stats_txt e = Some f -> st_size f <> 0 ->
  A7Cycles.parse_cycles f = Return (c, source) ->
  A7Cycles.visit st e
  = Return ((fst st ++ [(A7Cycles.dir_cpus m, c, name e)])%list, snd st).
Proof.
  intros Hm Hd Hf Hz Hp. destruct st as [pts ws]. unfold A7Cycles.visit.
  rewrite Hm, Hd, Hf, Hp. cbn [negb].
  replace (st_size f =? 0) with false by (symmetry; now apply Z.eqb_neq).
  reflexivity.
Qed.

Lemma ipc_max_visit_builds (st : A7IpcMax.State) (e : Entry) (m : groups)
  (f : TextFile) (ipc_global : float) (sim_insts max_cycles : Z) :
  re_match A7IpcMax.DIR_RE (name e) = Some m ->
  is_dir e = true -> stats_txt e = Some f -> st_size f <> 0 ->
  A7IpcMax.parse_config (path e ++ "/stats.txt") f
    = Return (ipc_global, sim_insts, max_cycles) ->
  A7IpcMax.visit st e
  = Return ((fst st ++ [(group_int m "threads", ipc_global, sim_insts,
                         max_cycles)])%list, snd st).
Proof.
  intros Hm Hd Hf Hz Hp. destruct st as [pts ws]. unfold A7IpcMax.visit.
  rewrite Hm, Hd, Hf, Hp. cbn [negb].
  replace (st_size f =? 0) with false by (symmetry; now apply Z.eqb_neq).
  reflexivity.
Qed.

End A7BuildFacts.

(** C10, as amended. For a directory named [t<threads>_cpus<n>_...]
    the speedup and the cycle scanner of the Cortex-A7 read the cpus
    token, and a directory whose log gives a cycle count adds the point
    with the coordinate [<n>], not [<threads>]; no other point comes
    from it.  For a directory named [t<threads>_...] whose rest does
    not start with [cpus] they use [<threads>].  The leading value is
    also used where the token stands in the name and is not read: by
    the speedup scanner on [t<threads>_cpus<n>] without a final
    underscore, and by the IPC scanner of the Cortex-A7, which has no
    cpus token in its grammar. *)
Theorem cortex_a7_cpus_token_is_the_coordinate :
  forall t n rest,
    number t -> number n ->
    (re_match A7Speedup.DIR_RE (cpus_name t n rest)
       = Some [("cpus", n); ("threads", t)] /\
     A7Speedup.dir_threads [("cpus", n); ("threads", t)] = int n /\
     (forall st e f c,
        name e = cpus_name t n rest ->
        is_dir e = true -> stats_txt e = Some f -> st_size f <> 0 ->
        A7Speedup.parse_cycles (path e ++ "/stats.txt") f = Return c ->
        A7Speedup.visit st e
        = Return ((fst st ++ [A7Speedup.new_point (int n) c (name e)])%list,
                  snd st)) /\
     (forall st st' e,
        name e = cpus_name t n rest ->
        A7Speedup.visit st e = Return st' ->
        fst st' = fst st \/
        exists c,
          fst st' = (fst st ++ [A7Speedup.new_point (int n) c (name e)])%list)) /\
    (re_match A7Cycles.DIR_RE (cpus_name t n rest)
       = Some [("cpus", n); ("threads", t)] /\
     A7Cycles.dir_cpus [("cpus", n); ("threads", t)] = int n /\
     (forall st e f c source,
        name e = cpus_name t n rest ->
        is_dir e = true -> stats_txt e = Some f -> st_size f <> 0 ->
        A7Cycles.parse_cycles f = Return (c, source) ->
        A7Cycles.visit st e
        = Return ((fst st ++ [(int n, c, name e)])%list, snd st)) /\
     (forall st st' e,
        name e = cpus_name t n rest ->
        A7Cycles.visit st e = Return st' ->
        fst st' = fst st \/
        exists c, fst st' = (fst st ++ [(int n, c, name e)])%list)) /\
    (String.prefix "cpus" rest = false ->
     (exists m,
        re_match A7Speedup.DIR_RE (plain_name t rest) = Some m /\
        group m "cpus" = None /\ A7Speedup.dir_threads m = int t) /\
     (exists m,
        re_match A7Cycles.DIR_RE (plain_name t rest) = Some m /\
        group m "cpus" = None /\ A7Cycles.dir_cpus m = int t)) /\
    (option_map A7Speedup.dir_threads
       (re_match A7Speedup.DIR_RE ("t" ++ t ++ "_cpus" ++ n)) = Some (int t) /\
     forall st e f ipc_global sim_insts max_cycles,
       name e = cpus_name t n rest ->
       is_dir e = true -> stats_txt e = Some f -> st_size f <> 0 ->
       A7IpcMax.parse_config (path e ++ "/stats.txt") f
         = Return (ipc_global, sim_insts, max_cycles) ->
       A7IpcMax.visit st e
       = Return ((fst st ++ [(int t, ipc_global, sim_insts, max_cycles)])%list,
                 snd st)).
Proof.
  intros t n rest Ht Hn.
  pose proof (A7DirFacts.speedup_cpus_name t n rest Ht Hn) as Hs.
  pose proof (A7DirFacts.cycles_cpus_name t n rest Ht Hn) as Hc.
  split; [ | split; [ | split ] ].
  - split; [ exact Hs | split; [ reflexivity | split ] ].
    + intros st e f c He Hd Hf Hz Hp. rewrite <- He in Hs.
      exact (A7BuildFacts.speedup_visit_builds st e _ f c Hs Hd Hf Hz Hp).
    + intros st st' e He Hv. rewrite <- He in Hs.
      exact (A7PointFacts.speedup_visit_point st st' e _ Hs Hv).
  - split; [ exact Hc | split; [ reflexivity | split ] ].
    + intros st e f c source He Hd Hf Hz Hp. rewrite <- He in Hc.
      exact (A7BuildFacts.cycles_visit_builds st e _ f c source Hc Hd Hf Hz Hp).
    + intros st st' e He Hv. rewrite <- He in Hc.
      exact (A7PointFacts.cycles_visit_point st st' e _ Hc Hv).
  - intros Hr. split.
    + exists [("threads", t)]. split; [ | split; reflexivity ].
      now apply A7DirFacts.speedup_plain_name.
    + exists [("threads", t)]. split; [ | split; reflexivity ].
      now apply A7DirFacts.cycles_plain_name.
  - split.
    + now rewrite (A7NameFacts.speedup_cpus_end t n Ht Hn).
    + intros st e f ipc_global sim_insts max_cycles He Hd Hf Hz Hp.
      pose proof (A7NameFacts.ipc_max_cpus_name t n rest Ht) as Hi.
      rewrite <- He in Hi.
      exact (A7BuildFacts.ipc_max_visit_builds st e _ f _ _ _ Hi Hd Hf Hz Hp).
Qed.

Lemma cortex_a7_cpus_token_is_the_coordinate_witness :
  A7Speedup.visit ([], []) cpus_dir
    = Return ([A7Speedup.new_point (int "8") 500 "t4_cpus8_run"], []) /\
  A7Cycles.visit ([], []) cpus_dir
    = Return ([(int "8", 500, "t4_cpus8_run")], []).
Proof.
  assert (H4 : number "4") by (split; [ reflexivity | discriminate ]).
  assert (H8 : number "8") by (split; [ reflexivity | discriminate ]).
  split.
  - refine (proj1 (proj2 (proj2 (proj1
              (cortex_a7_cpus_token_is_the_coordinate "4" "8" "run" H4 H8))))
              ([], []) cpus_dir _ 500 eq_refl eq_refl eq_refl _ eq_refl).
    discriminate.
  - refine (proj1 (proj2 (proj2 (proj1 (proj2
              (cortex_a7_cpus_token_is_the_coordinate "4" "8" "run" H4 H8)))))
              ([], []) cpus_dir _ 500 "max(system.cpu*.numCycles)"
              eq_refl eq_refl eq_refl _ eq_refl).
    discriminate.
Defined.

(** C10, the claim as stated fails.  The speedup scanner gives the
    directory [t2_cpus16] the coordinate 2, with the cpus token in the
    name: its grammar wants an underscore after the token.  The IPC
    scanner of the Cortex-A7 gives [t4_cpus8_run] the thread count 4,
    not 8. *)
Lemma threads_value_used_with_cpus_token_present :
  A7Speedup.collect_points
    {| root_path := "m16";
       listing := Some [PointOrder.run_dir "t2_cpus16" "600"] |}
  = Return ([A7Speedup.new_point 2 600 "t2_cpus16"], []) /\
  exists ipc_global,
    A7IpcMax.collect
      {| root_path := "m16";
         listing := Some [{| name := "t4_cpus8_run"; path := "m16/t4_cpus8_run";
                             is_dir := true; status_txt := None;
                             stats_txt := Some no_ipc_log |}] |}
    = Return ([(4, ipc_global, 1200, 600)], []).
Proof.
  split; [ vm_compute; reflexivity | ].
  eexists. vm_compute. reflexivity.
Qed.
